(** * The hook registry and dispatch engine of EliRefresh

    A shallow embedding of [cloudbot/plugin.py] and [obrbot/plugin.py], the two
    near-duplicate implementations of [PluginManager], and the properties of
    load, unload, internal registration and dispatch proved about them.

    The two files differ in a handful of places; the embedding takes the
    implementation as a parameter [v : variant] and branches exactly where the
    sources differ. *)

From Stdlib Require Import Ascii.
From stdpp Require Import gmap strings list fin_maps.

#[local] Set Warnings "-clear-no-such-hyp".

(** ** Python values, exceptions, events *)

Inductive variant := cloudbot | obrbot.

(** Attribute values of an event, as far as the dispatcher looks at them. *)
Inductive value :=
| VNone
| VBool (b : bool)
| VInt (n : Z)
| VStr (s : string)
| VObj (addr : nat).

(** Python truthiness: [not x] is [negb (truthy x)]. *)
Definition truthy (x : value) : bool :=
  match x with
  | VNone => false
  | VBool b => b
  | VInt n => negb (n =? 0)%Z
  | VStr s => negb (bool_decide (s = EmptyString))
  | VObj _ => true
  end.

(** An instance of Python's [Exception]: its class name and its message. This
    is what [except Exception] catches. *)
Record exn := Exception { exc_class : string; exc_message : string }.

Definition AttributeError := Exception "AttributeError".
Definition AssertionError := Exception "AssertionError" EmptyString.
Definition ValueError := Exception "ValueError".
Definition IndexError := Exception "IndexError".
Definition KeyError := Exception "KeyError".
Definition TypeError := Exception "TypeError".

(** The event handed to [launch]: the named attributes it exposes
    ([hasattr]/[getattr]). Its methods ([reply], [message], [notice_doc],
    [prepare], ...) belong to the chat client and appear as effects. *)
Record Event := { attrs : gmap string value }.

Definition hasattr (e : Event) (name : string) : bool :=
  bool_decide (is_Some (attrs e !! name)).

(** What a hook's callable returns: [None], a list, a tuple, or any other
    object, the latter given by its [str()]. *)
Inductive result :=
| RNone
| RList (items : list string)
| RTuple (items : list string)
| RObject (str : string).

Inductive outcome (A : Type) :=
| Returns (a : A)
| Raises (e : exn).
Arguments Returns {A} a.
Arguments Raises {A} e.

(** ** os.path *)

Definition slash : ascii := "/"%char.
Definition dot : ascii := "."%char.

(** [s.rfind(c)]: index of the last occurrence, [-1] when there is none. *)
Fixpoint rfind_from (c : ascii) (s : string) (i : Z) (last : Z) : Z :=
  match s with
  | EmptyString => last
  | String a r => rfind_from c r (i + 1) (if bool_decide (a = c) then i else last)
  end.

Definition rfind (c : ascii) (s : string) : Z := rfind_from c s 0 (-1).

(** [s[i:]] and [s[:i]] for [0 <= i]. *)
Fixpoint drop_string (n : nat) (s : string) : string :=
  match n, s with
  | O, _ => s
  | S n', String _ r => drop_string n' r
  | S _, EmptyString => EmptyString
  end.

Fixpoint take_string (n : nat) (s : string) : string :=
  match n, s with
  | O, _ => EmptyString
  | S n', String a r => String a (take_string n' r)
  | S _, EmptyString => EmptyString
  end.

Definition char_at (s : string) (i : nat) : option ascii := String.get i s.

(** posixpath.basename: [i = p.rfind('/') + 1; return p[i:]]. *)
Definition basename (p : string) : string :=
  drop_string (Z.to_nat (rfind slash p + 1)) p.

(** posixpath.splitext(p)[0]: the extension starts at the last dot of the last
    path component, unless that component has only dots before it. *)
Fixpoint splitext_scan (p : string) (filenameIndex : nat) (fuel : nat) (dotIndex : nat) : string :=
  match fuel with
  | O => p
  | S fuel' =>
      if bool_decide (char_at p filenameIndex = Some dot)
      then splitext_scan p (S filenameIndex) fuel' dotIndex
      else take_string dotIndex p
  end.

Definition splitext_root (p : string) : string :=
  let sepIndex := rfind slash p in
  let dotIndex := rfind dot p in
  if (sepIndex <? dotIndex)%Z then
    let filenameIndex := Z.to_nat (sepIndex + 1) in
    splitext_scan p filenameIndex (Z.to_nat dotIndex - filenameIndex) (Z.to_nat dotIndex)
  else p.

(** ** Hooks and plugins *)

Module HookType.
(** [cloudbot] has [command, regex, event, onload, irc_raw, sieve]; [obrbot]
    has [command, regex, event, irc_raw, sieve, on_start, on_stop]. *)
Inductive t := command | regex | event | irc_raw | sieve | onload | on_start | on_stop.

#[global] Instance type_eq_dec : EqDecision t.
Proof. solve_decision. Defined.
End HookType.

(** Compiled patterns and event types come from code outside this module; only
    their equality matters here. *)
Definition Regex := string.
Definition EventType := nat.

(** The identity of a [Plugin] as seen from its hooks ([hook.plugin]). *)
Module PluginInfo.
Record t := {
  file_path : string;
  file_name : string;
  title : string;
}.

#[global] Instance info_eq_dec : EqDecision t.
Proof. solve_decision. Defined.
End PluginInfo.

Module Hook.
(** [Hook] and its subclasses. [id] is the identity of the Python object, so
    two records are equal exactly when they are the same object; [function]
    refers to the callable, whose behaviour lives in the environment. The
    Python sets are finite sets, iterated in the order of [elements]. *)
Record t := {
  id : nat;
  type : HookType.t;
  plugin : PluginInfo.t;
  function : nat;
  function_name : string;
  required_args : list string;
  threaded : bool;
  ignore_bots : bool;
  run_first : bool;
  permissions : list string;
  single_thread : bool;
  (* CommandHook *)
  name : string;
  aliases : list string;
  doc : option string;
  auto_help : bool;
  (* RegexHook *)
  regexes : gset Regex;
  (* RawHook *)
  triggers : gset string;
  (* EventHook *)
  types : gset EventType;
}.

#[global] Instance hook_eq_dec : EqDecision t.
Proof. solve_decision. Defined.

(** The [description] property. *)
Definition description (h : t) : string :=
  PluginInfo.title (plugin h) +:+ ":" +:+ function_name h.

(** [RawHook.is_catch_all]. *)
Definition is_catch_all (h : t) : bool := bool_decide ("*" ∈ triggers h).
End Hook.

Module Plugin.
(** [hooks] is [None] for a plugin constructed without code (the attributes
    do not exist then); [run_on_load] holds obrbot's [on_start] list too and
    becomes [None] once [load_plugin] has deleted it. *)
Record hook_lists := {
  commands : list Hook.t;
  regexes : list Hook.t;
  raw_hooks : list Hook.t;
  sieves : list Hook.t;
  events : list Hook.t;
  run_on_load : option (list Hook.t);
  on_stop : list Hook.t;
  tables : list string;
}.

Record t := {
  info : PluginInfo.t;
  hooks : option hook_lists;
}.

#[global] Instance hook_lists_eq_dec : EqDecision hook_lists.
Proof. solve_decision. Defined.
#[global] Instance plugin_eq_dec : EqDecision t.
Proof. solve_decision. Defined.
End Plugin.

(** The wait queues are keyed by [(hook.plugin.title, hook.function_name)]. A
    value [None] is Python's [None] (running, no queue yet); [Some q] is an
    [asyncio.Queue] of futures, each future named by the dispatch that created
    it and waits on it. *)
Definition task_id := nat.

Record PluginManager := {
  plugins : gmap string Plugin.t;
  commands : gmap string Hook.t;
  raw_triggers : gmap string (list Hook.t);
  catch_all_triggers : list Hook.t;
  event_type_hooks : gmap EventType (list Hook.t);
  regex_hooks : list (Regex * Hook.t);
  sieves : list Hook.t;
  _hook_waiting_queues : gmap (string * string) (option (list task_id));
}.

(** [PluginManager.__init__]. *)
Definition PluginManager_init : PluginManager := {|
  plugins := ∅; commands := ∅; raw_triggers := ∅; catch_all_triggers := [];
  event_type_hooks := ∅; regex_hooks := []; sieves := [];
  _hook_waiting_queues := ∅;
|}.

Definition set_plugins (f : gmap string Plugin.t → gmap string Plugin.t) (m : PluginManager) :=
  {| plugins := f (plugins m); commands := commands m; raw_triggers := raw_triggers m;
     catch_all_triggers := catch_all_triggers m; event_type_hooks := event_type_hooks m;
     regex_hooks := regex_hooks m; sieves := sieves m;
     _hook_waiting_queues := _hook_waiting_queues m |}.

Definition set_commands (f : gmap string Hook.t → gmap string Hook.t) (m : PluginManager) :=
  {| plugins := plugins m; commands := f (commands m); raw_triggers := raw_triggers m;
     catch_all_triggers := catch_all_triggers m; event_type_hooks := event_type_hooks m;
     regex_hooks := regex_hooks m; sieves := sieves m;
     _hook_waiting_queues := _hook_waiting_queues m |}.

Definition set_raw_triggers (f : gmap string (list Hook.t) → gmap string (list Hook.t)) (m : PluginManager) :=
  {| plugins := plugins m; commands := commands m; raw_triggers := f (raw_triggers m);
     catch_all_triggers := catch_all_triggers m; event_type_hooks := event_type_hooks m;
     regex_hooks := regex_hooks m; sieves := sieves m;
     _hook_waiting_queues := _hook_waiting_queues m |}.

Definition set_catch_all_triggers (f : list Hook.t → list Hook.t) (m : PluginManager) :=
  {| plugins := plugins m; commands := commands m; raw_triggers := raw_triggers m;
     catch_all_triggers := f (catch_all_triggers m); event_type_hooks := event_type_hooks m;
     regex_hooks := regex_hooks m; sieves := sieves m;
     _hook_waiting_queues := _hook_waiting_queues m |}.

Definition set_event_type_hooks (f : gmap EventType (list Hook.t) → gmap EventType (list Hook.t)) (m : PluginManager) :=
  {| plugins := plugins m; commands := commands m; raw_triggers := raw_triggers m;
     catch_all_triggers := catch_all_triggers m; event_type_hooks := f (event_type_hooks m);
     regex_hooks := regex_hooks m; sieves := sieves m;
     _hook_waiting_queues := _hook_waiting_queues m |}.

Definition set_regex_hooks (f : list (Regex * Hook.t) → list (Regex * Hook.t)) (m : PluginManager) :=
  {| plugins := plugins m; commands := commands m; raw_triggers := raw_triggers m;
     catch_all_triggers := catch_all_triggers m; event_type_hooks := event_type_hooks m;
     regex_hooks := f (regex_hooks m); sieves := sieves m;
     _hook_waiting_queues := _hook_waiting_queues m |}.

Definition set_sieves (f : list Hook.t → list Hook.t) (m : PluginManager) :=
  {| plugins := plugins m; commands := commands m; raw_triggers := raw_triggers m;
     catch_all_triggers := catch_all_triggers m; event_type_hooks := event_type_hooks m;
     regex_hooks := regex_hooks m; sieves := f (sieves m);
     _hook_waiting_queues := _hook_waiting_queues m |}.

Definition set_queues (f : gmap (string * string) (option (list task_id)) →
                           gmap (string * string) (option (list task_id))) (m : PluginManager) :=
  {| plugins := plugins m; commands := commands m; raw_triggers := raw_triggers m;
     catch_all_triggers := catch_all_triggers m; event_type_hooks := event_type_hooks m;
     regex_hooks := regex_hooks m; sieves := sieves m;
     _hook_waiting_queues := f (_hook_waiting_queues m) |}.

(** ** The environment: configuration, plugin code, the chat client *)

Record PluginLoading := {
  use_whitelist : option bool;
  whitelist : option (list string);
  blacklist : option (list string);
}.

(** [bot.config], as far as this module reads it. [show_plugin_loading] is
    [config.get("logging", {}).get("show_plugin_loading", True)]. *)
Record Config := {
  plugin_loading : option PluginLoading;
  disabled_plugins : option (list string);
  show_plugin_loading : bool;
}.

(** A plugin function as the loader inspects it: [__name__],
    [inspect.getargspec(f)[0]] and whether it is a coroutine function. *)
Record Function := {
  fn_ref : nat;
  fn_name : string;
  fn_args : list string;
  fn_coroutine : bool;
}.

(** The keyword options a decorator collected ([func_hook.kwargs]); [kw_other]
    lists the names of any further keys. *)
Record Kwargs := {
  kw_autohelp : option bool;
  kw_ignorebots : option bool;
  kw_run_first : option bool;
  kw_permissions : option (list string);
  kw_singlethread : option bool;
  kw_other : list string;
}.

(** The decorator records of [cloudbot.hook] / [obrbot.hook] ([_Hook] and its
    subclasses), with the fields this module reads. *)
Record FuncHook := {
  fh_function : Function;
  fh_kwargs : Kwargs;
  fh_main_alias : string;
  fh_aliases : gset string;
  fh_doc : option string;
  fh_regexes : gset Regex;
  fh_triggers : gset string;
  fh_types : gset EventType;
}.

(** An imported plugin module: for every function carrying the hook marker, its
    [func_hooks.items()], in the order of [module.__dict__.items()]; and the
    tables [find_tables] finds. *)
Record ModuleCode := {
  marked_functions : list (list (HookType.t * FuncHook));
  module_tables : list string;
}.

Record Env := {
  config : Config;
  (** [hook.function( *parameters)] *)
  call : nat → list value → outcome result;
  (** [sieve.function(bot, event, hook)] in cloudbot, [sieve.function(event)]
      in obrbot *)
  call_sieve : nat → Event → option Hook.t → outcome (option Event);
  (** [importlib.import_module] followed by [importlib.reload] *)
  import_module : string → outcome ModuleCode;
  (** [Event(bot=self.bot, hook=hook)] *)
  Event_new : Hook.t → Event;
  abspath : string → string;
  (** [table.exists(bot.db_engine)] *)
  table_exists : string → bool;
}.

(** ** Effects *)

Inductive level := DEBUG | INFO | WARNING | ERROR | EXCEPTION.

(** Arguments of a log message's [format]. *)
Inductive fmt_arg :=
| AStr (s : string)
| ADir (e : Event)
| AEvent (e : Event)
| AHook (h : Hook.t)
| ARepr (h : Hook.t)
| AKwargs (names : list string).

Inductive effect :=
| Log (lvl : level) (template : string) (args : list fmt_arg)
| Call (hook : Hook.t) (parameters : list value)
| CallSieve (sieve : Hook.t) (event : Event) (hook : Hook.t)
| Reply (lines : list string)
| Message (line : string)
| NoticeDoc
| Prepare (threaded : bool)
| Close (threaded : bool)
| TableCreate (table : string)
| MetadataRemove (table : string)
| SetResult (future : task_id).

(** ** A monad for the manager's methods

    A method runs on the world (the manager and the allocator of object
    identities), leaves a trace of effects, and either returns, raises, or
    blocks on a future that only another dispatch can resolve. *)

Record World := {
  manager : PluginManager;
  next_id : nat;
}.

Inductive res (A : Type) :=
| Done (a : A)
| Raise (e : exn)
| Blocked.
Arguments Done {A} a.
Arguments Raise {A} e.
Arguments Blocked {A}.

Definition M (A : Type) : Type := World → res A * World * list effect.

Definition ret {A} (a : A) : M A := λ w, (Done a, w, []).
Definition raise {A} (e : exn) : M A := λ w, (Raise e, w, []).
Definition block {A} : M A := λ w, (Blocked, w, []).
Definition emit (x : effect) : M unit := λ w, (Done tt, w, [x]).
Definition get_manager : M PluginManager := λ w, (Done (manager w), w, []).
Definition modify (f : PluginManager → PluginManager) : M unit :=
  λ w, (Done tt, {| manager := f (manager w); next_id := next_id w |}, []).
Definition fresh : M nat :=
  λ w, (Done (next_id w), {| manager := manager w; next_id := S (next_id w) |}, []).

Definition bind {A B} (c : M A) (k : A → M B) : M B := λ w,
  match c w with
  | (Done a, w1, t1) => let '(r, w2, t2) := k a w1 in (r, w2, t1 ++ t2)
  | (Raise e, w1, t1) => (Raise e, w1, t1)
  | (Blocked, w1, t1) => (Blocked, w1, t1)
  end.

(** [try: c except Exception: handler]. *)
Definition try_except {A} (c : M A) (handler : exn → M A) : M A := λ w,
  match c w with
  | (Raise e, w1, t1) => let '(r, w2, t2) := handler e w1 in (r, w2, t1 ++ t2)
  | other => other
  end.

Declare Scope M_scope.
Delimit Scope M_scope with M.
Notation "'let*' x ':=' c 'in' k" := (bind c (λ x, k))
  (at level 10, x name, c at level 100, k at level 200) : M_scope.
Notation "c ;; k" := (bind c (λ _, k))
  (at level 100, k at level 200, right associativity) : M_scope.
Local Open Scope M_scope.

Fixpoint for_each {A} (l : list A) (body : A → M unit) : M unit :=
  match l with
  | [] => ret tt
  | x :: rest => body x ;; for_each rest body
  end.

Definition when (b : bool) (c : M unit) : M unit := if b then c else ret tt.

(** ** Dispatch: parameter binding, execution, sieves, [launch] *)

Definition newline : ascii := "010"%char.

(** [s.split(c)] for a single-character separator. *)
Fixpoint split_on (c : ascii) (s : string) (cur : string) : list string :=
  match s with
  | EmptyString => [cur]
  | String a r =>
      if bool_decide (a = c) then cur :: split_on c r EmptyString
      else split_on c r (cur +:+ String a EmptyString)
  end.

Definition split_lines (s : string) : list string := split_on newline s EmptyString.

(** [_prepare_parameters]: the loop over [hook.required_args], with the
    parameters collected so far. *)
Fixpoint _prepare_parameters_from (hook : Hook.t) (event : Event)
    (required : list string) (parameters : list value) : M (option (list value)) :=
  match required with
  | [] => ret (Some parameters)
  | required_arg :: rest =>
      match attrs event !! required_arg with
      | Some value => _prepare_parameters_from hook event rest (parameters ++ [value])
      | None =>
          emit (Log ERROR "Plugin {} asked for invalid argument '{}', cancelling execution!"
                  [AStr (Hook.description hook); AStr required_arg]) ;;
          emit (Log DEBUG "Valid arguments are: {} ({})" [ADir event; AEvent event]) ;;
          ret None
      end
  end.

Definition _prepare_parameters (hook : Hook.t) (event : Event) : M (option (list value)) :=
  _prepare_parameters_from hook event (Hook.required_args hook) [].

(** The call of the hook's callable, [hook.function( *parameters)]. *)
Definition call_function (env : Env) (hook : Hook.t) (parameters : list value) : M result :=
  emit (Call hook parameters) ;;
  match call env (Hook.function hook) parameters with
  | Returns out => ret out
  | Raises e => raise e
  end.

(** [try: c finally: f]. *)
Definition try_finally {A} (c : M A) (f : M unit) : M A := λ w,
  match c w with
  | (Done a, w1, t1) => let '(r, w2, t2) := f w1 in
      (match r with Done _ => Done a | Raise e => Raise e | Blocked => Blocked end, w2, t1 ++ t2)
  | (Raise e, w1, t1) => let '(r, w2, t2) := f w1 in
      (match r with Done _ => Raise e | Raise e' => Raise e' | Blocked => Blocked end, w2, t1 ++ t2)
  | (Blocked, w1, t1) => (Blocked, w1, t1)
  end.

(** cloudbot's [_execute_hook_threaded] ([threaded = true]) and
    [_execute_hook_sync] ([threaded = false]); they differ in the event's
    prepare/close pair only. *)
Definition _execute_hook_prepared (env : Env) (threaded : bool) (hook : Hook.t) (event : Event)
    : M result :=
  emit (Prepare threaded) ;;
  let* parameters := _prepare_parameters hook event in
  match parameters with
  | None => ret RNone
  | Some parameters =>
      try_finally (call_function env hook parameters) (emit (Close threaded))
  end.

(** The replies sent for a non-null result. *)
Definition send_result (v : variant) (out : result) : M unit :=
  match v with
  | cloudbot =>
      match out with
      | RNone => ret tt
      | RList items | RTuple items =>
          match items with
          | [] => raise (IndexError "list index out of range")
          | first :: others =>
              emit (Reply [first]) ;; for_each others (λ line, emit (Message line))
          end
      | RObject str => emit (Reply [str])
      end
  | obrbot =>
      match out with
      | RNone => ret tt
      | RList items | RTuple items => emit (Reply items)
      | RObject str => emit (Reply (split_lines str))
      end
  end.

Definition log_hook_error (hook : Hook.t) : M bool :=
  emit (Log EXCEPTION "Error in hook {}" [AStr (Hook.description hook)]) ;;
  ret false.

Definition _execute_hook (v : variant) (env : Env) (hook : Hook.t) (event : Event) : M bool :=
  match v with
  | cloudbot =>
      let* out := try_except
        (let* out := _execute_hook_prepared env (Hook.threaded hook) hook event in ret (Some out))
        (λ _, log_hook_error hook ;; ret None) in
      match out with
      | None => ret false
      | Some out => send_result cloudbot out ;; ret true
      end
  | obrbot =>
      let* parameters := _prepare_parameters hook event in
      match parameters with
      | None => ret false
      | Some parameters =>
          let* out := try_except
            (let* out := call_function env hook parameters in ret (Some out))
            (λ _, log_hook_error hook ;; ret None) in
          match out with
          | None => ret false
          | Some out => send_result obrbot out ;; ret true
          end
      end
  end.

Definition _sieve (v : variant) (env : Env) (sieve : Hook.t) (event : Event) (hook : Hook.t)
    : M (option Event) :=
  emit (CallSieve sieve event hook) ;;
  match call_sieve env (Hook.function sieve) event
          (match v with cloudbot => Some hook | obrbot => None end) with
  | Returns result => ret result
  | Raises _ =>
      emit (Log EXCEPTION "Error running sieve {} on {}:"
              [AStr (Hook.description sieve); AStr (Hook.description hook)]) ;;
      ret None
  end.

(** The loop over the sieves in [launch]; [None] is the early [return False]. *)
Fixpoint run_sieves (v : variant) (env : Env) (sieves : list Hook.t) (event : Event)
    (hook : Hook.t) : M (option Event) :=
  match sieves with
  | [] => ret (Some event)
  | sieve :: rest =>
      let* event := _sieve v env sieve event hook in
      match event with
      | None => ret None
      | Some event => run_sieves v env rest event hook
      end
  end.

(** The hook kinds that [launch] does not sieve. *)
Definition skips_sieves (v : variant) (t : HookType.t) : bool :=
  match v with
  | cloudbot => bool_decide (t = HookType.onload)
  | obrbot => bool_decide (t = HookType.on_start) || bool_decide (t = HookType.on_stop)
  end.

(** The condition of the help short-circuit, with Python's left-to-right
    evaluation: [event.text] is read only for a command with auto-help. *)
Definition wants_help (hook : Hook.t) (event : Event) : M bool :=
  if bool_decide (Hook.type hook = HookType.command) && Hook.auto_help hook then
    match attrs event !! "text" with
    | None => raise (AttributeError "text")
    | Some text => ret (negb (truthy text) && bool_decide (is_Some (Hook.doc hook)))
    end
  else ret false.

Definition queue_key (hook : Hook.t) : string * string :=
  (PluginInfo.title (Hook.plugin hook), Hook.function_name hook).

Abbreviation queues := (gmap (string * string) (option (list task_id))).

(** Entering the single-thread section: [true] when the caller has queued a
    future and must wait for it. *)
Definition enter_queue (key : string * string) (task : task_id) (qs : queues) : queues * bool :=
  match qs !! key with
  | Some queue => (<[key := Some (default [] queue ++ [task])]> qs, true)
  | None => (<[key := None]> qs, false)
  end.

(** Leaving it: the future whose result is set, if any; [None] is the
    [KeyError] of [self._hook_waiting_queues[key]]. *)
Definition leave_queue (key : string * string) (qs : queues) : option (queues * option task_id) :=
  match qs !! key with
  | None => None
  | Some None | Some (Some []) => Some (delete key qs, None)
  | Some (Some (next_future :: rest)) => Some (<[key := Some rest]> qs, Some next_future)
  end.

(** The part of [launch] after the wait: run the hook, then wake the next
    waiting dispatch or clear the key. *)
Definition run_single_thread (v : variant) (env : Env) (hook : Hook.t) (event : Event) : M bool :=
  let* result := _execute_hook v env hook event in
  let* m := get_manager in
  match leave_queue (queue_key hook) (_hook_waiting_queues m) with
  | None => raise (KeyError "key")
  | Some (qs, woken) =>
      modify (set_queues (λ _, qs)) ;;
      match woken with
      | Some next_future => emit (SetResult next_future)
      | None => ret tt
      end ;;
      ret result
  end.

Definition launch (v : variant) (env : Env) (task : task_id) (hook : Hook.t) (event : Event)
    : M bool :=
  let* m := get_manager in
  let* event :=
    (if skips_sieves v (Hook.type hook) then ret (Some event)
     else run_sieves v env (sieves m) event hook) in
  match event with
  | None => ret false
  | Some event =>
      let* help := wants_help hook event in
      if help then emit NoticeDoc ;; ret false
      else if Hook.single_thread hook then
        let* m := get_manager in
        let '(qs, wait) := enter_queue (queue_key hook) task (_hook_waiting_queues m) in
        modify (set_queues (λ _, qs)) ;;
        (if wait then block else ret tt) ;;
        run_single_thread v env hook event
      else _execute_hook v env hook event
  end.

(** ** Building hooks and plugins *)

(** [l.remove(x)]: drops the first element equal to [x]; [None] is the
    [ValueError] raised when there is none. *)
Fixpoint remove_first {A} `{EqDecision A} (x : A) (l : list A) : option (list A) :=
  match l with
  | [] => None
  | y :: rest =>
      if decide (y = x) then Some rest
      else match remove_first x rest with
           | Some rest' => Some (y :: rest')
           | None => None
           end
  end.

Definition not_in_list : exn := ValueError "list.remove(x): x not in list".

(** The hook kinds of each implementation's [HookType] enumeration, the keys of
    [_hook_type_to_plugin] and of [find_hooks]'s [type_lists]. *)
Definition valid_type (v : variant) (t : HookType.t) : bool :=
  match v, t with
  | cloudbot, (HookType.on_start | HookType.on_stop) => false
  | obrbot, HookType.onload => false
  | _, _ => true
  end.

(** The options left in [func_hook.kwargs] after the constructors have popped
    theirs. *)
Definition leftover_kwargs (v : variant) (t : HookType.t) (kw : Kwargs) : list string :=
  (if bool_decide (t = HookType.command) then [] else
     match kw_autohelp kw with Some _ => ["autohelp"] | None => [] end) ++
  match v with
  | cloudbot => match kw_run_first kw with Some _ => ["run_first"] | None => [] end
  | obrbot => match kw_ignorebots kw with Some _ => ["ignorebots"] | None => [] end
  end ++ kw_other kw.

(** [_hook_type_to_plugin[hook_type](plugin, func_hook)]: the constructor of the
    subclass for [t], followed by [Hook.__init__]. *)
Definition new_hook (v : variant) (t : HookType.t) (plugin : PluginInfo.t) (fh : FuncHook)
    : M Hook.t :=
  let kw := fh_kwargs fh in
  let is_command := bool_decide (t = HookType.command) in
  let* aliases :=
    (if is_command then
       match remove_first (fh_main_alias fh) (elements (fh_aliases fh)) with
       | Some others => ret (fh_main_alias fh :: others)
       | None => raise not_in_list
       end
     else ret []) in
  let* id := fresh in
  let hook := {|
    Hook.id := id;
    Hook.type := t;
    Hook.plugin := plugin;
    Hook.function := fn_ref (fh_function fh);
    Hook.function_name := fn_name (fh_function fh);
    Hook.required_args := fn_args (fh_function fh);
    Hook.threaded := negb (fn_coroutine (fh_function fh));
    Hook.ignore_bots :=
      match v with cloudbot => default false (kw_ignorebots kw) | obrbot => false end;
    Hook.run_first :=
      match v with cloudbot => false | obrbot => default false (kw_run_first kw) end;
    Hook.permissions := default [] (kw_permissions kw);
    Hook.single_thread := default false (kw_singlethread kw);
    Hook.name := if is_command then fh_main_alias fh else EmptyString;
    Hook.aliases := aliases;
    Hook.doc := if is_command then fh_doc fh else None;
    Hook.auto_help := if is_command then default true (kw_autohelp kw) else false;
    Hook.regexes := if bool_decide (t = HookType.regex) then fh_regexes fh else ∅;
    Hook.triggers := if bool_decide (t = HookType.irc_raw) then fh_triggers fh else ∅;
    Hook.types := if bool_decide (t = HookType.event) then fh_types fh else ∅;
  |} in
  match leftover_kwargs v t kw with
  | [] => ret tt
  | extra => emit (Log WARNING "Ignoring extra args {} from {}"
                     [AKwargs extra; AStr (Hook.description hook)])
  end ;;
  ret hook.

Definition no_hooks : Plugin.hook_lists := {|
  Plugin.commands := []; Plugin.regexes := []; Plugin.raw_hooks := [];
  Plugin.sieves := []; Plugin.events := []; Plugin.run_on_load := Some [];
  Plugin.on_stop := []; Plugin.tables := [];
|}.

(** [type_lists[hook_type].append(hook)]. *)
Definition append_hook (t : HookType.t) (hook : Hook.t) (ls : Plugin.hook_lists)
    : Plugin.hook_lists :=
  let add (t' : HookType.t) (l : list Hook.t) :=
    if bool_decide (t = t') then l ++ [hook] else l in
  {| Plugin.commands := add HookType.command (Plugin.commands ls);
     Plugin.regexes := add HookType.regex (Plugin.regexes ls);
     Plugin.raw_hooks := add HookType.irc_raw (Plugin.raw_hooks ls);
     Plugin.sieves := add HookType.sieve (Plugin.sieves ls);
     Plugin.events := add HookType.event (Plugin.events ls);
     Plugin.run_on_load :=
       if bool_decide (t = HookType.onload) || bool_decide (t = HookType.on_start)
       then Some (default [] (Plugin.run_on_load ls) ++ [hook])
       else Plugin.run_on_load ls;
     Plugin.on_stop := add HookType.on_stop (Plugin.on_stop ls);
     Plugin.tables := Plugin.tables ls |}.

(** The inner loop of [find_hooks], over [func_hooks.items()]. *)
Fixpoint find_hooks_of (v : variant) (parent : PluginInfo.t)
    (func_hooks : list (HookType.t * FuncHook)) (ls : Plugin.hook_lists) : M Plugin.hook_lists :=
  match func_hooks with
  | [] => ret ls
  | (hook_type, func_hook) :: rest =>
      if valid_type v hook_type then
        let* hook := new_hook v hook_type parent func_hook in
        find_hooks_of v parent rest (append_hook hook_type hook ls)
      else raise (KeyError "hook_type")
  end.

Fixpoint find_hooks_from (v : variant) (parent : PluginInfo.t)
    (functions : list (list (HookType.t * FuncHook))) (ls : Plugin.hook_lists)
    : M Plugin.hook_lists :=
  match functions with
  | [] => ret ls
  | func_hooks :: rest =>
      let* ls := find_hooks_of v parent func_hooks ls in
      find_hooks_from v parent rest ls
  end.

Definition find_hooks (v : variant) (parent : PluginInfo.t) (module : ModuleCode)
    : M Plugin.hook_lists :=
  find_hooks_from v parent (marked_functions module) no_hooks.

(** [Plugin(filepath, filename, title, code)]; only cloudbot looks for tables. *)
Definition new_plugin (v : variant) (info : PluginInfo.t) (code : ModuleCode) : M Plugin.t :=
  let* ls := find_hooks v info code in
  let tables := match v with cloudbot => module_tables code | obrbot => [] end in
  ret {| Plugin.info := info;
         Plugin.hooks := Some
           {| Plugin.commands := Plugin.commands ls; Plugin.regexes := Plugin.regexes ls;
              Plugin.raw_hooks := Plugin.raw_hooks ls; Plugin.sieves := Plugin.sieves ls;
              Plugin.events := Plugin.events ls; Plugin.run_on_load := Plugin.run_on_load ls;
              Plugin.on_stop := Plugin.on_stop ls; Plugin.tables := tables |} |}.

(** [Plugin.create_tables] and [Plugin.unregister_tables] (cloudbot). *)
Definition create_tables (env : Env) (info : PluginInfo.t) (tables : list string) : M unit :=
  match tables with
  | [] => ret tt
  | _ =>
      emit (Log INFO "Registering tables for {}" [AStr (PluginInfo.title info)]) ;;
      for_each tables (λ table,
        if table_exists env table then ret tt else emit (TableCreate table))
  end.

Definition unregister_tables (info : PluginInfo.t) (tables : list string) : M unit :=
  match tables with
  | [] => ret tt
  | _ =>
      emit (Log INFO "Unregistering tables for {}" [AStr (PluginInfo.title info)]) ;;
      for_each tables (λ table, emit (MetadataRemove table))
  end.

(** ** Indexing hooks *)

Definition dquote : string := String (ascii_of_nat 34) EmptyString.

Definition _log_hook (env : Env) (hook : Hook.t) : M unit :=
  when (show_plugin_loading (config env))
    (emit (Log INFO "Loaded {}" [AHook hook]) ;;
     emit (Log DEBUG "Loaded {}" [ARepr hook])).

Definition conflict_template (internal : bool) : string :=
  (if internal then "Internal file" else "Plugin") +:+
  " {} attempted to register command {} which was already registered by {}. " +:+
  "Ignoring new assignment.".

(** One alias of a command hook: first registrant wins. *)
Definition register_alias (internal : bool) (plugin : PluginInfo.t) (command_hook : Hook.t)
    (alias : string) : M unit :=
  let* m := get_manager in
  match commands m !! alias with
  | Some registered =>
      emit (Log WARNING (conflict_template internal)
              [AStr (PluginInfo.title plugin); AStr alias; AStr (PluginInfo.title (Hook.plugin registered))])
  | None => modify (set_commands <[alias := command_hook]>)
  end.

Definition register_command (internal : bool) (plugin : PluginInfo.t) (command_hook : Hook.t)
    : M unit :=
  for_each (Hook.aliases command_hook) (register_alias internal plugin command_hook).

(** [d[k].append(x)] if [k in d], else [d[k] = [x]]. *)
Definition append_at `{Countable K} {A} (k : K) (x : A) (d : gmap K (list A)) : gmap K (list A) :=
  match d !! k with
  | Some l => <[k := l ++ [x]]> d
  | None => <[k := [x]]> d
  end.

Definition register_raw (raw_hook : Hook.t) : M unit :=
  if Hook.is_catch_all raw_hook then
    modify (set_catch_all_triggers (λ l, l ++ [raw_hook]))
  else
    for_each (elements (Hook.triggers raw_hook)) (λ trigger,
      modify (set_raw_triggers (append_at trigger raw_hook))).

Definition register_event (event_hook : Hook.t) : M unit :=
  for_each (elements (Hook.types event_hook)) (λ event_type,
    modify (set_event_type_hooks (append_at event_type event_hook))).

Definition register_regex (regex_hook : Hook.t) : M unit :=
  for_each (elements (Hook.regexes regex_hook)) (λ regex_match,
    modify (set_regex_hooks (λ l, l ++ [(regex_match, regex_hook)]))).

Definition register_sieve (sieve_hook : Hook.t) : M unit :=
  modify (set_sieves (λ l, l ++ [sieve_hook])).

(** The five registration loops of [load_plugin]. *)
Definition register_hooks (env : Env) (info : PluginInfo.t) (ls : Plugin.hook_lists) : M unit :=
  for_each (Plugin.commands ls) (λ command_hook,
    register_command false info command_hook ;; _log_hook env command_hook) ;;
  for_each (Plugin.raw_hooks ls) (λ raw_hook,
    register_raw raw_hook ;; _log_hook env raw_hook) ;;
  for_each (Plugin.events ls) (λ event_hook,
    register_event event_hook ;; _log_hook env event_hook) ;;
  for_each (Plugin.regexes ls) (λ regex_hook,
    register_regex regex_hook ;; _log_hook env regex_hook) ;;
  for_each (Plugin.sieves ls) (λ sieve_hook,
    register_sieve sieve_hook ;; _log_hook env sieve_hook).

(** ** Unloading *)

Definition unregister_alias (command_hook : Hook.t) (alias : string) : M unit :=
  let* m := get_manager in
  match commands m !! alias with
  | Some registered =>
      if decide (registered = command_hook)
      then modify (set_commands (delete alias))
      else ret tt
  | None => ret tt
  end.

(** [assert k in d; d[k].remove(x); if not d[k]: del d[k]]. *)
Definition remove_at `{Countable K} {A} `{EqDecision A} (k : K) (x : A) (d : gmap K (list A))
    : outcome (gmap K (list A)) :=
  match d !! k with
  | None => Raises AssertionError
  | Some l =>
      match remove_first x l with
      | None => Raises not_in_list
      | Some [] => Returns (delete k d)
      | Some l' => Returns (<[k := l']> d)
      end
  end.

Definition unregister_raw (raw_hook : Hook.t) : M unit :=
  if Hook.is_catch_all raw_hook then
    let* m := get_manager in
    match remove_first raw_hook (catch_all_triggers m) with
    | Some l => modify (set_catch_all_triggers (λ _, l))
    | None => raise not_in_list
    end
  else
    for_each (elements (Hook.triggers raw_hook)) (λ trigger,
      let* m := get_manager in
      match remove_at trigger raw_hook (raw_triggers m) with
      | Returns d => modify (set_raw_triggers (λ _, d))
      | Raises e => raise e
      end).

Definition unregister_event (event_hook : Hook.t) : M unit :=
  for_each (elements (Hook.types event_hook)) (λ event_type,
    let* m := get_manager in
    match remove_at event_type event_hook (event_type_hooks m) with
    | Returns d => modify (set_event_type_hooks (λ _, d))
    | Raises e => raise e
    end).

Definition unregister_regex (regex_hook : Hook.t) : M unit :=
  for_each (elements (Hook.regexes regex_hook)) (λ regex_match,
    let* m := get_manager in
    match remove_first (regex_match, regex_hook) (regex_hooks m) with
    | Some l => modify (set_regex_hooks (λ _, l))
    | None => raise not_in_list
    end).

Definition unregister_sieve (sieve_hook : Hook.t) : M unit :=
  let* m := get_manager in
  match remove_first sieve_hook (sieves m) with
  | Some l => modify (set_sieves (λ _, l))
  | None => raise not_in_list
  end.

Definition is_disabled (env : Env) (title : string) : bool :=
  match disabled_plugins (config env) with
  | Some disabled => bool_decide (title ∈ disabled)
  | None => false
  end.

Definition _unload (v : variant) (env : Env) (path : string) : M bool :=
  let file_name := basename path in
  let title := splitext_root file_name in
  if is_disabled env title then ret false
  else
    let* m := get_manager in
    match plugins m !! file_name with
    | None => ret false
    | Some plugin =>
        match Plugin.hooks plugin with
        | None => raise (AttributeError "commands")
        | Some ls =>
            for_each (Plugin.commands ls) (λ command_hook,
              for_each (Hook.aliases command_hook) (unregister_alias command_hook)) ;;
            for_each (Plugin.raw_hooks ls) unregister_raw ;;
            for_each (Plugin.events ls) unregister_event ;;
            for_each (Plugin.regexes ls) unregister_regex ;;
            for_each (Plugin.sieves ls) unregister_sieve ;;
            match v with
            | cloudbot => unregister_tables (Plugin.info plugin) (Plugin.tables ls)
            | obrbot => ret tt
            end ;;
            modify (set_plugins (delete (PluginInfo.file_name (Plugin.info plugin)))) ;;
            when (show_plugin_loading (config env))
              (emit (Log INFO "Unloaded all plugins from {}" [AStr (PluginInfo.title (Plugin.info plugin))])) ;;
            ret true
        end
    end.


(** ** Loading *)

(** cloudbot's enable policy: whitelist if [use_whitelist], else blacklist.
    [false] is the early [return]. *)
Definition plugin_enabled (v : variant) (env : Env) (file_name title : string) : M bool :=
  match v, plugin_loading (config env) with
  | cloudbot, Some pl =>
      if default false (use_whitelist pl) then
        if bool_decide (title ∈ default [] (whitelist pl)) then ret true
        else
          emit (Log INFO ("Not loading plugin module " +:+ dquote +:+ "{}" +:+ dquote +:+
                          ": plugin not whitelisted") [AStr file_name]) ;;
          ret false
      else
        if bool_decide (title ∈ default [] (blacklist pl)) then
          emit (Log INFO ("Not loading plugin module " +:+ dquote +:+ "{}" +:+ dquote +:+
                          ": plugin blacklisted") [AStr file_name]) ;;
          ret false
        else ret true
  | _, _ => ret true
  end.

(** The loop over [plugin.run_on_load] (cloudbot) / [plugin.on_start] (obrbot):
    [false] as soon as one hook reports failure. *)
Fixpoint run_on_load_hooks (v : variant) (env : Env) (task : task_id) (hooks : list Hook.t)
    : M bool :=
  match hooks with
  | [] => ret true
  | onload_hook :: rest =>
      let* success := launch v env task onload_hook (Event_new env onload_hook) in
      if success then run_on_load_hooks v env task rest else ret false
  end.

Definition without_run_on_load (plugin : Plugin.t) : Plugin.t :=
  {| Plugin.info := Plugin.info plugin;
     Plugin.hooks :=
       match Plugin.hooks plugin with
       | Some ls =>
           Some {| Plugin.commands := Plugin.commands ls; Plugin.regexes := Plugin.regexes ls;
                   Plugin.raw_hooks := Plugin.raw_hooks ls; Plugin.sieves := Plugin.sieves ls;
                   Plugin.events := Plugin.events ls; Plugin.run_on_load := None;
                   Plugin.on_stop := Plugin.on_stop ls; Plugin.tables := Plugin.tables ls |}
       | None => None
       end |}.

(** What [load_plugin] does with the freshly built plugin: set-up, on-load
    hooks, indexing. *)
Definition register_plugin (v : variant) (env : Env) (task : task_id) (plugin : Plugin.t)
    : M unit :=
  let info := Plugin.info plugin in
  match Plugin.hooks plugin with
  | None => raise (AttributeError "tables")
  | Some ls =>
      match v with
      | cloudbot => create_tables env info (Plugin.tables ls)
      | obrbot => ret tt
      end ;;
      let* loaded := run_on_load_hooks v env task (default [] (Plugin.run_on_load ls)) in
      if loaded then
        modify (set_plugins <[PluginInfo.file_name info := plugin]>) ;;
        register_hooks env info ls ;;
        modify (set_plugins <[PluginInfo.file_name info := without_run_on_load plugin]>)
      else
        match v with
        | cloudbot =>
            emit (Log WARNING "Not registering hooks from plugin {}: onload hook errored"
                    [AStr (PluginInfo.title info)]) ;;
            unregister_tables info (Plugin.tables ls)
        | obrbot =>
            emit (Log WARNING "Not registering hooks from plugin {}: on_start hook errored"
                    [AStr (PluginInfo.title info)])
        end
  end.

Definition load_plugin (v : variant) (env : Env) (task : task_id) (path : string) : M unit :=
  let file_path := abspath env path in
  let file_name := basename path in
  let title := splitext_root file_name in
  let* enabled := plugin_enabled v env file_name title in
  if negb enabled then ret tt
  else
    let* m := get_manager in
    (if bool_decide (is_Some (plugins m !! file_name))
     then _unload v env file_path ;; ret tt
     else ret tt) ;;
    match import_module env ("plugins." +:+ title) with
    | Raises _ => emit (Log EXCEPTION "Error loading {}:" [AStr file_name])
    | Returns plugin_module =>
        let* plugin := new_plugin v
          {| PluginInfo.file_path := file_path; PluginInfo.file_name := file_name;
             PluginInfo.title := title |} plugin_module in
        register_plugin v env task plugin
    end.

(** ** Internal hooks *)

(** [add_hook(hook_type, function, *args, **kwargs)]: [file] is
    [inspect.getmodule(function).__file__] and [func_hook] the decorator record
    that [hook.py] builds from the function and the arguments. *)
Definition add_hook (v : variant) (env : Env) (hook_type : HookType.t) (file : string)
    (func_hook : FuncHook) : M unit :=
  let filename := "internal/" +:+ basename file in
  let* m := get_manager in
  let* plugin :=
    match plugins m !! filename with
    | Some plugin => ret plugin
    | None =>
        let plugin := {|
          Plugin.info := {| PluginInfo.file_path := abspath env file;
                            PluginInfo.file_name := filename;
                            PluginInfo.title := splitext_root filename |};
          Plugin.hooks := None |} in
        modify (set_plugins <[filename := plugin]>) ;;
        ret plugin
    end in
  match v with
  | cloudbot =>
      if bool_decide (hook_type = HookType.onload)
      then raise (ValueError "onload hooks not allowed") else ret tt
  | obrbot =>
      if bool_decide (hook_type = HookType.on_start)
      then raise (ValueError "on_start hooks not allowed")
      else if bool_decide (hook_type = HookType.command)
      then raise (ValueError "command hooks not allowed") else ret tt
  end ;;
  (if valid_type v hook_type then ret tt else raise (KeyError "hook_type")) ;;
  let* hook := new_hook v hook_type (Plugin.info plugin) func_hook in
  match hook_type with
  | HookType.command =>
      match v with
      | cloudbot => register_command true (Plugin.info plugin) hook
      | obrbot => ret tt
      end
  | HookType.irc_raw => register_raw hook
  | HookType.event => register_event hook
  | HookType.regex => register_regex hook
  | HookType.sieve => register_sieve hook
  | _ => ret tt
  end ;;
  _log_hook env hook.

(** ** Concurrent dispatches of single-concurrency hooks

    [launch] is a coroutine on one cooperative event loop: between two
    suspension points its code runs without interleaving. For a
    single-concurrency hook the suspension points are the wait on the queued
    future and the execution of the hook, so a dispatch moves through the
    phases below, and the loop interleaves the moves of all dispatches. *)

Inductive phase :=
| Waiting   (* suspended in [yield from future], the future is in the queue *)
| Woken     (* the future's result is set, the coroutine has not resumed yet *)
| Running   (* inside [_execute_hook] *)
| Finished  (* left the single-thread section *)
| Crashed.  (* an exception escaped [_execute_hook]: the section was not left *)

#[global] Instance phase_eq_dec : EqDecision phase.
Proof. solve_decision. Defined.

Abbreviation key := (string * string)%type.

(** The loop's state: the wait queues, the phase of every dispatch that has
    reached the single-thread section, and two observers: the order in which
    dispatches arrived there and the order in which executions began. *)
Record loop_state := {
  waiting_queues : queues;
  phases : gmap task_id (key * phase);
  arrivals : list (task_id * key);
  starts : list (task_id * key);
}.

Definition loop_init : loop_state :=
  {| waiting_queues := ∅; phases := ∅; arrivals := []; starts := [] |}.

(** A dispatch reaches [if hook.single_thread:] and runs to its next
    suspension point. *)
Definition arrive (t : task_id) (k : key) (s : loop_state) : loop_state :=
  let '(qs, wait) := enter_queue k t (waiting_queues s) in
  {| waiting_queues := qs;
     phases := <[t := (k, if wait then Waiting else Running)]> (phases s);
     arrivals := arrivals s ++ [(t, k)];
     starts := if wait then starts s else starts s ++ [(t, k)] |}.

(** A woken dispatch resumes after [yield from future] and begins to execute. *)
Definition resume (t : task_id) (k : key) (s : loop_state) : loop_state :=
  {| waiting_queues := waiting_queues s;
     phases := <[t := (k, Running)]> (phases s);
     arrivals := arrivals s;
     starts := starts s ++ [(t, k)] |}.

(** [_execute_hook] has returned: the code after it, up to [return result]. *)
Definition finish (t : task_id) (k : key) (s : loop_state) : option loop_state :=
  match leave_queue k (waiting_queues s) with
  | None => None
  | Some (qs, woken) =>
      let ps := <[t := (k, Finished)]> (phases s) in
      Some {| waiting_queues := qs;
              phases := match woken with
                        | Some next_future => <[next_future := (k, Woken)]> ps
                        | None => ps
                        end;
              arrivals := arrivals s;
              starts := starts s |}
  end.

Definition crash (t : task_id) (k : key) (s : loop_state) : loop_state :=
  {| waiting_queues := waiting_queues s;
     phases := <[t := (k, Crashed)]> (phases s);
     arrivals := arrivals s;
     starts := starts s |}.

Inductive step : loop_state → loop_state → Prop :=
| step_arrive t k s :
    phases s !! t = None →
    step s (arrive t k s)
| step_resume t k s :
    phases s !! t = Some (k, Woken) →
    step s (resume t k s)
| step_finish t k s s' :
    phases s !! t = Some (k, Running) →
    finish t k s = Some s' →
    step s s'
| step_crash t k s :
    phases s !! t = Some (k, Running) →
    step s (crash t k s).

Inductive reachable : loop_state → Prop :=
| reachable_init : reachable loop_init
| reachable_step s s' : reachable s → step s s' → reachable s'.

(** The dispatches of key [k] in an observer list, in order. *)
Definition of_key (k : key) (l : list (task_id * key)) : list task_id :=
  (filter (λ x, x.2 = k) l).*1.

Definition running (s : loop_state) (t : task_id) (k : key) : Prop :=
  phases s !! t = Some (k, Running).

(** ** Specification-level definitions *)

(** The values [_prepare_parameters] binds, when every required name is an
    attribute of the event. *)
Fixpoint bound_parameters (event : Event) (required : list string) : option (list value) :=
  match required with
  | [] => Some []
  | required_arg :: rest =>
      match attrs event !! required_arg, bound_parameters event rest with
      | Some value, Some values => Some (value :: values)
      | _, _ => None
      end
  end.

(** The first required name the event does not expose. *)
Fixpoint first_missing (event : Event) (required : list string) : option string :=
  match required with
  | [] => None
  | required_arg :: rest =>
      match attrs event !! required_arg with
      | Some _ => first_missing event rest
      | None => Some required_arg
      end
  end.

Definition missing_parameter_logs (hook : Hook.t) (event : Event) (name : string) : list effect :=
  [Log ERROR "Plugin {} asked for invalid argument '{}', cancelling execution!"
     [AStr (Hook.description hook); AStr name];
   Log DEBUG "Valid arguments are: {} ({})" [ADir event; AEvent event]].

(** Whether a trace contains an invocation of some hook's callable. *)
Definition is_call (x : effect) : bool :=
  match x with Call _ _ => true | _ => false end.

Definition invokes (tr : list effect) : bool := existsb is_call tr.

(** What [_sieve] returns: the sieve's result, or [None] when it raised. *)
Definition sieve_output (v : variant) (env : Env) (sieve : Hook.t) (event : Event)
    (hook : Hook.t) : option Event :=
  match call_sieve env (Hook.function sieve) event
          (match v with cloudbot => Some hook | obrbot => None end) with
  | Returns result => result
  | Raises _ => None
  end.

(** [sieve_chain v env hook sieves event event']: every sieve of the list, in
    order, produces an event, and the last one produces [event']. *)
Inductive sieve_chain (v : variant) (env : Env) (hook : Hook.t)
    : list Hook.t → Event → Event → Prop :=
| sieve_chain_nil event : sieve_chain v env hook [] event event
| sieve_chain_cons sieve rest event event1 event2 :
    sieve_output v env sieve event hook = Some event1 →
    sieve_chain v env hook rest event1 event2 →
    sieve_chain v env hook (sieve :: rest) event event2.

(** The sieves a trace applied, in order. *)
Definition sieve_calls (tr : list effect) : list Hook.t :=
  omap (λ x, match x with CallSieve sieve _ _ => Some sieve | _ => None end) tr.

(** The effects of the sieve stage: applications of sieves and the log of a
    sieve that raised. *)
Definition is_sieve_effect (x : effect) : bool :=
  match x with
  | CallSieve _ _ _ => true
  | Log EXCEPTION _ _ => true
  | _ => false
  end.

Definition sieve_error_log (sieve hook : Hook.t) : effect :=
  Log EXCEPTION "Error running sieve {} on {}:"
    [AStr (Hook.description sieve); AStr (Hook.description hook)].

Definition hook_error_log (hook : Hook.t) : effect :=
  Log EXCEPTION "Error in hook {}" [AStr (Hook.description hook)].

(** The event's prepare/close pair around the call (cloudbot only). *)
Definition prepare_effects (v : variant) (hook : Hook.t) : list effect :=
  match v with cloudbot => [Prepare (Hook.threaded hook)] | obrbot => [] end.

Definition close_effects (v : variant) (hook : Hook.t) : list effect :=
  match v with cloudbot => [Close (Hook.threaded hook)] | obrbot => [] end.

(** The lines a trace sent to the chat, in order. *)
Definition lines_sent (tr : list effect) : list string :=
  flat_map (λ x, match x with Reply lines => lines | Message line => [line] | _ => [] end) tr.

(** Whether the sieve's callable raised on this event. *)
Definition sieve_raised (v : variant) (env : Env) (sieve : Hook.t) (event : Event)
    (hook : Hook.t) : bool :=
  match call_sieve env (Hook.function sieve) event
          (match v with cloudbot => Some hook | obrbot => None end) with
  | Returns _ => false
  | Raises _ => true
  end.

(** The sieve stage as a function of the environment alone: the event that
    comes out of the sieves (if any) and the effects of applying them. *)
Fixpoint sieve_stage (v : variant) (env : Env) (hook : Hook.t) (sieves : list Hook.t)
    (event : Event) : option Event * list effect :=
  match sieves with
  | [] => (Some event, [])
  | sieve :: rest =>
      let tr := CallSieve sieve event hook ::
                (if sieve_raised v env sieve event hook then [sieve_error_log sieve hook] else []) in
      match sieve_output v env sieve event hook with
      | None => (None, tr)
      | Some event' =>
          let '(r, tr') := sieve_stage v env hook rest event' in (r, tr ++ tr')
      end
  end.

(** The world with the wait queues replaced. *)
Definition with_queues (qs : queues) (w : World) : World :=
  {| manager := set_queues (λ _, qs) (manager w); next_id := next_id w |}.

(** The effects that send lines to the chat. *)
Definition is_reply (x : effect) : bool :=
  match x with Reply _ | Message _ => true | _ => false end.


(** The replies the dispatcher sends for a result, by implementation; [None]
    where nothing is promised (cloudbot with an empty list or tuple). *)
Definition replies_for (v : variant) (out : result) : option (list effect) :=
  match out with
  | RNone => Some []
  | RList items | RTuple items =>
      match v, items with
      | cloudbot, [] => None
      | cloudbot, first :: others => Some (Reply [first] :: map Message others)
      | obrbot, _ => Some [Reply items]
      end
  | RObject str =>
      Some [Reply (match v with cloudbot => [str] | obrbot => split_lines str end)]
  end.

(** The lines a reader of the specification expects for a result: the elements
    of a sequence, the stringified result otherwise. *)
Definition expected_lines (out : result) : list string :=
  match out with
  | RNone => []
  | RList items | RTuple items => items
  | RObject str => [str]
  end.

(** ** Concrete hooks, events and environments *)

Definition echo_plugin : PluginInfo.t :=
  {| PluginInfo.file_path := "/bot/plugins/echo.py"; PluginInfo.file_name := "echo.py";
     PluginInfo.title := "echo" |}.

(** A hook of [echo.py] with default options. *)
Definition echo_hook (id : nat) (type : HookType.t) (function : nat) (function_name : string)
    (required_args : list string) : Hook.t :=
  {| Hook.id := id; Hook.type := type; Hook.plugin := echo_plugin;
     Hook.function := function; Hook.function_name := function_name;
     Hook.required_args := required_args; Hook.threaded := true;
     Hook.ignore_bots := false; Hook.run_first := false; Hook.permissions := [];
     Hook.single_thread := false;
     Hook.name := function_name;
     Hook.aliases := if bool_decide (type = HookType.command) then [function_name] else [];
     Hook.doc := if bool_decide (type = HookType.command) then Some "<text> - says it" else None;
     Hook.auto_help := bool_decide (type = HookType.command);
     Hook.regexes := ∅; Hook.triggers := ∅; Hook.types := ∅ |}.

Definition two_lines : string := "a" +:+ String newline "b".

(** Callables, by reference: 1 raises, 2 returns a text of two lines, 3 a list
    of three lines, 4 an empty list, 5 echoes its first argument; any other
    returns [None]. Sieves: 11 rejects, 12 raises, any other passes the event
    on. *)
Definition example_call (function : nat) (parameters : list value) : outcome result :=
  match function with
  | 1 => Raises (Exception "RuntimeError" "boom")
  | 2 => Returns (RObject two_lines)
  | 3 => Returns (RList ["one"; "two"; "three"])
  | 4 => Returns (RList [])
  | 5 => match parameters with
         | VStr text :: _ => Returns (RObject text)
         | _ => Returns RNone
         end
  | _ => Returns RNone
  end.

Definition example_call_sieve (function : nat) (event : Event) (hook : option Hook.t)
    : outcome (option Event) :=
  match function with
  | 11 => Returns None
  | 12 => Raises (Exception "RuntimeError" "sieve broke")
  | _ => Returns (Some event)
  end.

Definition example_config : Config :=
  {| plugin_loading := None; disabled_plugins := None; show_plugin_loading := true |}.

Definition example_env : Env :=
  {| config := example_config;
     call := example_call;
     call_sieve := example_call_sieve;
     import_module := λ _, Raises (Exception "ImportError" "No module");
     Event_new := λ _, {| attrs := {["bot" := VObj 0]} |};
     abspath := λ path, "/bot/" +:+ path;
     table_exists := λ _, false |}.

Definition command_event (text : string) : Event :=
  {| attrs := <["text" := VStr text]> {["nick" := VStr "eli"]} |}.

Definition passing_sieve : Hook.t := echo_hook 100 HookType.sieve 10 "allow" ["event"].
Definition rejecting_sieve : Hook.t := echo_hook 101 HookType.sieve 11 "deny" ["event"].
Definition raising_sieve : Hook.t := echo_hook 102 HookType.sieve 12 "broken" ["event"].
Definition later_sieve : Hook.t := echo_hook 103 HookType.sieve 10 "later" ["event"].

Definition world_with_sieves (sieves : list Hook.t) : World :=
  {| manager := set_sieves (λ _, sieves) PluginManager_init; next_id := 200 |}.

Definition echo_command : Hook.t := echo_hook 1 HookType.command 5 "echo" ["text"].
Definition chan_command : Hook.t := echo_hook 2 HookType.command 5 "where" ["text"; "chan"].
Definition lines_command : Hook.t := echo_hook 4 HookType.command 2 "lines" [].
Definition list_command : Hook.t := echo_hook 5 HookType.command 3 "list" [].

Definition event_without_chan : Event := command_event "hello".

(** What [add_hook] refuses: [onload] in cloudbot, [on_start] and [command] in
    obrbot. *)
Definition refused_internally (v : variant) (hook_type : HookType.t) : option exn :=
  match v, hook_type with
  | cloudbot, HookType.onload => Some (ValueError "onload hooks not allowed")
  | obrbot, HookType.on_start => Some (ValueError "on_start hooks not allowed")
  | obrbot, HookType.command => Some (ValueError "command hooks not allowed")
  | _, _ => None
  end.

(** The plugin [add_hook] creates for a core file. *)
Definition synthetic_plugin (env : Env) (file : string) : Plugin.t :=
  {| Plugin.info := {| PluginInfo.file_path := abspath env file;
                       PluginInfo.file_name := "internal/" +:+ basename file;
                       PluginInfo.title := splitext_root ("internal/" +:+ basename file) |};
     Plugin.hooks := None |}.

Definition conflict_warning (internal : bool) (plugin : PluginInfo.t) (alias : string)
    (registered : Hook.t) : effect :=
  Log WARNING (conflict_template internal)
    [AStr (PluginInfo.title plugin); AStr alias;
     AStr (PluginInfo.title (Hook.plugin registered))].

Definition example_func_hook : FuncHook :=
  {| fh_function := {| fn_ref := 5; fn_name := "echo"; fn_args := ["text"];
                       fn_coroutine := false |};
     fh_kwargs := {| kw_autohelp := None; kw_ignorebots := None; kw_run_first := None;
                     kw_permissions := None; kw_singlethread := None; kw_other := [] |};
     fh_main_alias := "echo"; fh_aliases := {["say"; "echo"]};
     fh_doc := Some "<text> - says it";
     fh_regexes := ∅; fh_triggers := ∅; fh_types := ∅ |}.

(** The world with the manager changed by [f]. *)
Definition update_manager (f : PluginManager → PluginManager) (w : World) : World :=
  {| manager := f (manager w); next_id := next_id w |}.

(** The command index after a hook has tried to register the given aliases. *)
Definition with_aliases (command_hook : Hook.t) (aliases : list string)
    (cmds : gmap string Hook.t) : gmap string Hook.t :=
  foldl (λ cmds alias,
           match cmds !! alias with
           | Some _ => cmds
           | None => <[alias := command_hook]> cmds
           end) cmds aliases.

(** The invariant of the single-thread section, key by key. While a key is in
    the wait queues, exactly one dispatch holds it (running, woken and about to
    run, or crashed without releasing); every other dispatch of the key has
    finished or waits in the queue; and the dispatches that arrived are those
    that started, then the woken holder, then the queue, in this order. *)
Definition key_inv (s : loop_state) (k : key) : Prop :=
  match waiting_queues s !! k with
  | None =>
      (∀ t ph, phases s !! t = Some (k, ph) → ph = Finished) ∧
      of_key k (arrivals s) = of_key k (starts s)
  | Some q =>
      ∃ h ph_h,
        phases s !! h = Some (k, ph_h) ∧
        (ph_h = Running ∨ ph_h = Crashed ∨ ph_h = Woken) ∧
        of_key k (arrivals s)
        = of_key k (starts s) ++ (if decide (ph_h = Woken) then [h] else []) ++ default [] q ∧
        (∀ t ph, phases s !! t = Some (k, ph) → t ≠ h →
                 ph = Finished ∨ (ph = Waiting ∧ t ∈ default [] q)) ∧
        (∀ t, t ∈ default [] q → phases s !! t = Some (k, Waiting)) ∧
        NoDup (default [] q)
  end.

(** Three dispatches of one single-concurrency hook: all arrive, the first
    finishes and wakes the second, the second resumes. *)
Definition slow_key : key := ("echo", "slow").
Definition loop_1 : loop_state := arrive 1 slow_key loop_init.
Definition loop_2 : loop_state := arrive 2 slow_key loop_1.
Definition loop_3 : loop_state := arrive 3 slow_key loop_2.
Definition loop_4 : loop_state := default loop_3 (finish 1 slow_key loop_3).
Definition loop_5 : loop_state := resume 2 slow_key loop_4.

(** A property of a method: whatever its outcome, the worlds before and after
    are related by [P] and every effect it left satisfies [Q]. *)
Definition satisfies {A} (P : World → World → Prop) (Q : effect → Prop) (c : M A) : Prop :=
  ∀ w r w' tr, c w = (r, w', tr) → P w w' ∧ Forall Q tr.

Definition same_manager (w w' : World) : Prop := manager w' = manager w.

(** The warning [load_plugin] logs when an on-load hook reported failure. *)
Definition on_load_template (v : variant) : string :=
  match v with
  | cloudbot => "Not registering hooks from plugin {}: onload hook errored"
  | obrbot => "Not registering hooks from plugin {}: on_start hook errored"
  end.

Definition on_load_warning (v : variant) (title : string) : effect :=
  Log WARNING (on_load_template v) [AStr title].

Definition is_on_load_warning (x : effect) : bool :=
  match x with
  | Log WARNING template _ =>
      bool_decide (template = on_load_template cloudbot) ||
      bool_decide (template = on_load_template obrbot)
  | _ => false
  end.

Definition quiet (x : effect) : Prop := is_on_load_warning x = false.

Definition any_world (w w' : World) : Prop := True.

(** The world once [load_plugin] has unloaded the previous version of the file,
    if there was one. *)
Definition after_unload (v : variant) (env : Env) (path : string) (w : World) : World :=
  if bool_decide (is_Some (plugins (manager w) !! basename path))
  then (_unload v env (abspath env path) w).1.2
  else w.

(** A plugin file [greet.py] in two versions: the first has one command, the
    second adds an on-load hook whose callable raises. *)
Definition no_kwargs : Kwargs :=
  {| kw_autohelp := None; kw_ignorebots := None; kw_run_first := None;
     kw_permissions := None; kw_singlethread := None; kw_other := [] |}.

Definition greet_func_hook : FuncHook :=
  {| fh_function := {| fn_ref := 5; fn_name := "greet"; fn_args := ["text"];
                       fn_coroutine := false |};
     fh_kwargs := no_kwargs;
     fh_main_alias := "greet"; fh_aliases := {["greet"; "hi"]};
     fh_doc := Some "<name> - greets";
     fh_regexes := ∅; fh_triggers := ∅; fh_types := ∅ |}.

Definition setup_func_hook : FuncHook :=
  {| fh_function := {| fn_ref := 1; fn_name := "setup"; fn_args := [];
                       fn_coroutine := false |};
     fh_kwargs := no_kwargs;
     fh_main_alias := EmptyString; fh_aliases := ∅; fh_doc := None;
     fh_regexes := ∅; fh_triggers := ∅; fh_types := ∅ |}.

Definition greet_module_1 : ModuleCode :=
  {| marked_functions := [[(HookType.command, greet_func_hook)]];
     module_tables := ["greetings"] |}.

Definition greet_module_2 : ModuleCode :=
  {| marked_functions := [[(HookType.command, greet_func_hook)];
                          [(HookType.onload, setup_func_hook)]];
     module_tables := ["greetings"] |}.

Definition env_with_greet (code : ModuleCode) : Env :=
  {| config := example_config;
     call := example_call;
     call_sieve := example_call_sieve;
     import_module := λ module_name,
       if bool_decide (module_name = "plugins.greet") then Returns code
       else Raises (Exception "ImportError" "No module");
     Event_new := λ _, {| attrs := {["bot" := VObj 0]} |};
     abspath := λ path, "/bot/" +:+ path;
     table_exists := λ _, false |}.

Definition fresh_world : World := world_with_sieves [].

(** The world after the first version has been loaded. *)
Definition greet_loaded : World :=
  (load_plugin cloudbot (env_with_greet greet_module_1) 0 "plugins/greet.py" fresh_world).1.2.





(** The first of three dispatches crashes while the others wait; a fourth
    arrives later. *)
Definition loop_crashed : loop_state := crash 1 slow_key loop_3.
Definition loop_after_crash : loop_state := arrive 4 slow_key loop_crashed.

(** A configuration with a blacklist. *)
Definition blacklist_env (names : list string) : Env :=
  {| config := {| plugin_loading :=
                    Some {| use_whitelist := None; whitelist := None; blacklist := Some names |};
                  disabled_plugins := None; show_plugin_loading := true |};
     call := example_call;
     call_sieve := example_call_sieve;
     import_module := λ _, Returns greet_module_1;
     Event_new := λ _, {| attrs := {["bot" := VObj 0]} |};
     abspath := λ path, "/bot/" +:+ path;
     table_exists := λ _, false |}.

(** [sep.join(lines)]. *)
Fixpoint join (sep : string) (lines : list string) : string :=
  match lines with
  | [] => EmptyString
  | [line] => line
  | line :: rest => line +:+ sep +:+ join sep rest
  end.

(** ** The registry without a plugin's hooks *)

(** A list of hooks without those of [hooks]. *)
Definition without (hooks : list Hook.t) (l : list Hook.t) : list Hook.t :=
  filter (λ h, h ∉ hooks) l.

Definition non_empty {A} (l : list A) : option (list A) :=
  match l with [] => None | _ => Some l end.

(** An index from keys to hook lists without the hooks of [hooks]; a key whose
    list becomes empty is dropped. *)
Definition prune `{Countable K} (hooks : list Hook.t) (d : gmap K (list Hook.t))
    : gmap K (list Hook.t) :=
  omap (λ l, non_empty (without hooks l)) d.

(** The manager without the plugin [name], whose hook lists are [ls]. *)
Definition unloaded (name : string) (ls : Plugin.hook_lists) (m : PluginManager)
    : PluginManager :=
  {| plugins := delete name (plugins m);
     commands := filter (λ entry, entry.2 ∉ Plugin.commands ls) (commands m);
     raw_triggers := prune (Plugin.raw_hooks ls) (raw_triggers m);
     catch_all_triggers := without (Plugin.raw_hooks ls) (catch_all_triggers m);
     event_type_hooks := prune (Plugin.events ls) (event_type_hooks m);
     regex_hooks := filter (λ entry, entry.2 ∉ Plugin.regexes ls) (regex_hooks m);
     sieves := without (Plugin.sieves ls) (sieves m);
     _hook_waiting_queues := _hook_waiting_queues m |}.

(** The shape the registration code gives the indices: a command is indexed
    under its own aliases, a raw hook under its own triggers or, if it is a
    catch-all, in the catch-all list, an event hook under its own types, a
    regex hook with its own regexes; no list of an index is empty and none
    holds a registration twice. *)
Definition well_indexed (m : PluginManager) : Prop :=
  map_Forall (λ alias hook, alias ∈ Hook.aliases hook) (commands m) ∧
  map_Forall (λ trigger l,
      l ≠ [] ∧ NoDup l ∧
      Forall (λ h, trigger ∈ Hook.triggers h ∧ Hook.is_catch_all h = false) l)
    (raw_triggers m) ∧
  (NoDup (catch_all_triggers m) ∧
   Forall (λ h, Hook.is_catch_all h = true) (catch_all_triggers m)) ∧
  map_Forall (λ event_type l,
      l ≠ [] ∧ NoDup l ∧ Forall (λ h, event_type ∈ Hook.types h) l)
    (event_type_hooks m) ∧
  (NoDup (regex_hooks m) ∧
   Forall (λ entry, entry.1 ∈ Hook.regexes entry.2) (regex_hooks m)) ∧
  NoDup (sieves m).

(** The loop [for k in ks: assert k in d; d[k].remove(x); if not d[k]: del d[k]]. *)
Fixpoint remove_at_all `{Countable K} {A} `{EqDecision A} (ks : list K) (x : A)
    (d : gmap K (list A)) : outcome (gmap K (list A)) :=
  match ks with
  | [] => Returns d
  | k :: rest =>
      match remove_at k x d with
      | Returns d' => remove_at_all rest x d'
      | Raises e => Raises e
      end
  end.

(** No list of the index is empty or holds a hook twice. *)
Definition lists_ok `{Countable K} (d : gmap K (list Hook.t)) : Prop :=
  map_Forall (λ _ l, l ≠ [] ∧ NoDup l) d.

(** [h] is registered under key [k] of the index [d]. *)
Definition indexed `{Countable K} (d : gmap K (list Hook.t)) (k : K) (h : Hook.t) : Prop :=
  ∃ l, d !! k = Some l ∧ h ∈ l.

(** A plugin file with a hook of every kind that is indexed. *)
Definition plain_function (ref : nat) (name : string) (args : list string) : Function :=
  {| fn_ref := ref; fn_name := name; fn_args := args; fn_coroutine := false |}.

Definition full_module : ModuleCode :=
  {| marked_functions :=
       [[(HookType.command,
          {| fh_function := plain_function 5 "say" ["text"]; fh_kwargs := no_kwargs;
             fh_main_alias := "say"; fh_aliases := {["say"; "tell"]}; fh_doc := None;
             fh_regexes := ∅; fh_triggers := ∅; fh_types := ∅ |})];
        [(HookType.irc_raw,
          {| fh_function := plain_function 5 "on_message" ["text"]; fh_kwargs := no_kwargs;
             fh_main_alias := EmptyString; fh_aliases := ∅; fh_doc := None;
             fh_regexes := ∅; fh_triggers := {["PRIVMSG"; "NOTICE"]}; fh_types := ∅ |})];
        [(HookType.irc_raw,
          {| fh_function := plain_function 5 "on_anything" ["text"]; fh_kwargs := no_kwargs;
             fh_main_alias := EmptyString; fh_aliases := ∅; fh_doc := None;
             fh_regexes := ∅; fh_triggers := {["*"]}; fh_types := ∅ |})];
        [(HookType.event,
          {| fh_function := plain_function 5 "on_event" ["text"]; fh_kwargs := no_kwargs;
             fh_main_alias := EmptyString; fh_aliases := ∅; fh_doc := None;
             fh_regexes := ∅; fh_triggers := ∅; fh_types := {[1; 2]} |})];
        [(HookType.regex,
          {| fh_function := plain_function 5 "on_match" ["text"]; fh_kwargs := no_kwargs;
             fh_main_alias := EmptyString; fh_aliases := ∅; fh_doc := None;
             fh_regexes := {["^hi"; "bye$"]}; fh_triggers := ∅; fh_types := ∅ |})];
        [(HookType.sieve,
          {| fh_function := plain_function 10 "filter" ["event"]; fh_kwargs := no_kwargs;
             fh_main_alias := EmptyString; fh_aliases := ∅; fh_doc := None;
             fh_regexes := ∅; fh_triggers := ∅; fh_types := ∅ |})]];
     module_tables := [] |}.

Definition full_env : Env :=
  {| config := example_config;
     call := example_call;
     call_sieve := example_call_sieve;
     import_module := λ module_name,
       if bool_decide (module_name = "plugins.full") then Returns full_module
       else if bool_decide (module_name = "plugins.greet") then Returns greet_module_1
       else Raises (Exception "ImportError" "No module");
     Event_new := λ _, {| attrs := {["bot" := VObj 0]} |};
     abspath := λ path, "/bot/" +:+ path;
     table_exists := λ _, false |}.

(** [greet.py], then [full.py], loaded into an empty manager. *)
Definition full_loaded (v : variant) : World :=
  (load_plugin v full_env 0 "plugins/full.py"
     (load_plugin v full_env 0 "plugins/greet.py" fresh_world).1.2).1.2.

(** ** The registry with a plugin's hooks *)

(** A method that always returns, changing the manager by [f]. *)
Definition runs_as (c : M unit) (f : PluginManager → PluginManager) : Prop :=
  ∀ w, ∃ tr, c w = (Done tt, update_manager f w, tr).

(** An index from keys to hook lists after the hooks [hooks] that [sel]
    selects have been appended, one after the other, under each of their
    keys. *)
Definition add_hooks `{Countable K} (keys : Hook.t → gset K) (sel : Hook.t → bool)
    (hooks : list Hook.t) (d : gmap K (list Hook.t)) : gmap K (list Hook.t) :=
  foldl (λ d h,
           if sel h then foldl (λ d k, append_at k h d) d (elements (keys h)) else d)
        d hooks.

(** The entries of [regex_hooks] for a list of regex hooks. *)
Definition regex_entries (hooks : list Hook.t) : list (Regex * Hook.t) :=
  hooks ≫= λ h, (λ r, (r, h)) <$> elements (Hook.regexes h).

(** The manager after the five registration loops of [load_plugin] over the
    hook lists [ls]. *)
Definition registered (ls : Plugin.hook_lists) (m : PluginManager) : PluginManager :=
  {| plugins := plugins m;
     commands := foldl (λ cmds h, with_aliases h (Hook.aliases h) cmds) (commands m)
                   (Plugin.commands ls);
     raw_triggers := add_hooks Hook.triggers (λ h, negb (Hook.is_catch_all h))
                       (Plugin.raw_hooks ls) (raw_triggers m);
     catch_all_triggers :=
       catch_all_triggers m ++ filter (λ h, Hook.is_catch_all h = true) (Plugin.raw_hooks ls);
     event_type_hooks := add_hooks Hook.types (λ _, true) (Plugin.events ls)
                           (event_type_hooks m);
     regex_hooks := regex_hooks m ++ regex_entries (Plugin.regexes ls);
     sieves := sieves m ++ Plugin.sieves ls;
     _hook_waiting_queues := _hook_waiting_queues m |}.

(** Every hook in the indices was created before the counter reached [n]. *)
Definition ids_below (n : nat) (m : PluginManager) : Prop :=
  map_Forall (λ _ h, Hook.id h < n) (commands m) ∧
  map_Forall (λ _ l, Forall (λ h, Hook.id h < n) l) (raw_triggers m) ∧
  Forall (λ h, Hook.id h < n) (catch_all_triggers m) ∧
  map_Forall (λ _ l, Forall (λ h, Hook.id h < n) l) (event_type_hooks m) ∧
  Forall (λ entry, Hook.id entry.2 < n) (regex_hooks m) ∧
  Forall (λ h, Hook.id h < n) (sieves m).

(** The state of the registry that loading and unloading keep. *)
Definition registry_ok (w : World) : Prop :=
  well_indexed (manager w) ∧ ids_below (next_id w) (manager w).

(** The hooks of a plugin were created while the counter went from [n0] to
    [n], each once. *)
Definition list_fresh (n0 n : nat) (l : list Hook.t) : Prop :=
  NoDup (Hook.id <$> l) ∧ Forall (λ h, n0 ≤ Hook.id h < n) l.

Definition lists_fresh (n0 n : nat) (ls : Plugin.hook_lists) : Prop :=
  list_fresh n0 n (Plugin.commands ls) ∧ list_fresh n0 n (Plugin.raw_hooks ls) ∧
  list_fresh n0 n (Plugin.events ls) ∧ list_fresh n0 n (Plugin.regexes ls) ∧
  list_fresh n0 n (Plugin.sieves ls).

(** The plugin's hooks are registered wherever [_unload] will look for them. *)
Definition plugin_registered (ls : Plugin.hook_lists) (m : PluginManager) : Prop :=
  Forall (λ h, if Hook.is_catch_all h then h ∈ catch_all_triggers m
               else ∀ trigger, trigger ∈ Hook.triggers h → indexed (raw_triggers m) trigger h)
    (Plugin.raw_hooks ls) ∧
  Forall (λ h, ∀ event_type, event_type ∈ Hook.types h →
               indexed (event_type_hooks m) event_type h) (Plugin.events ls) ∧
  Forall (λ h, ∀ regex, regex ∈ Hook.regexes h → (regex, h) ∈ regex_hooks m)
    (Plugin.regexes ls) ∧
  Forall (λ h, h ∈ sieves m) (Plugin.sieves ls) ∧
  NoDup (Plugin.raw_hooks ls) ∧ NoDup (Plugin.events ls) ∧
  NoDup (Plugin.regexes ls) ∧ NoDup (Plugin.sieves ls).

(** What [register_raw] does to the manager. *)
Definition register_raw_in (h : Hook.t) (m : PluginManager) : PluginManager :=
  if Hook.is_catch_all h then set_catch_all_triggers (λ l, l ++ [h]) m
  else foldl (λ m trigger, set_raw_triggers (append_at trigger h) m) m
         (elements (Hook.triggers h)).

(** Only the wait queues and the identity counter may differ. *)
Definition same_registry (w w' : World) : Prop :=
  next_id w ≤ next_id w' ∧
  plugins (manager w') = plugins (manager w) ∧
  commands (manager w') = commands (manager w) ∧
  raw_triggers (manager w') = raw_triggers (manager w) ∧
  catch_all_triggers (manager w') = catch_all_triggers (manager w) ∧
  event_type_hooks (manager w') = event_type_hooks (manager w) ∧
  regex_hooks (manager w') = regex_hooks (manager w) ∧
  sieves (manager w') = sieves (manager w).

(** The world before [full.py] is loaded: only [greet.py] is. *)
Definition before_full (v : variant) : World :=
  (load_plugin v full_env 0 "plugins/greet.py" fresh_world).1.2.

(** Every plugin is filed under its own [file_name]. *)
Definition keyed_by_file_name (m : PluginManager) : Prop :=
  map_Forall (λ name plugin, PluginInfo.file_name (Plugin.info plugin) = name) (plugins m).

(** The plugins of internal hooks are the same before and after, and the
    plugins stay filed under their names. *)
Definition keeps_internal (w w' : World) : Prop :=
  keyed_by_file_name (manager w) →
  keyed_by_file_name (manager w') ∧
  ∀ file, plugins (manager w') !! ("internal/" +:+ file)
          = plugins (manager w) !! ("internal/" +:+ file).

(** [plugins] once [add_hook] has looked up or created the plugin of [file]. *)
Definition with_internal_plugin (env : Env) (file : string) (m : PluginManager)
    : PluginManager :=
  match plugins m !! ("internal/" +:+ basename file) with
  | Some _ => m
  | None =>
      set_plugins <["internal/" +:+ basename file :=
                      {| Plugin.info :=
                           {| PluginInfo.file_path := abspath env file;
                              PluginInfo.file_name := "internal/" +:+ basename file;
                              PluginInfo.title :=
                                splitext_root ("internal/" +:+ basename file) |};
                         Plugin.hooks := None |}]> m
  end.

(** A world with one internal sieve. *)
Definition internal_world : World :=
  (add_hook cloudbot full_env HookType.sieve "/bot/cloudbot/core.py" setup_func_hook
     fresh_world).1.2.

(** The environment with [config["disabled_plugins"]] replaced. *)
Definition with_disabled (disabled : option (list string)) (env : Env) : Env :=
  {| config := {| plugin_loading := plugin_loading (config env);
                  disabled_plugins := disabled;
                  show_plugin_loading := show_plugin_loading (config env) |};
     call := call env;
     call_sieve := call_sieve env;
     import_module := import_module env;
     Event_new := Event_new env;
     abspath := abspath env;
     table_exists := table_exists env |}.

(** Two methods that run alike from every world. *)
Definition same_run {A} (c c' : M A) : Prop := ∀ w, c w = c' w.

(** * Properties *)

(** ** Reasoning about runs *)

Lemma bind_done {A B} (c : M A) (k : A → M B) w a w1 t1 :
  c w = (Done a, w1, t1) →
  bind c k w = (let '(r, w2, t2) := k a w1 in (r, w2, t1 ++ t2)).
Proof. intros Hc. unfold bind. by rewrite Hc. Qed.

Lemma bind_raise {A B} (c : M A) (k : A → M B) w e w1 t1 :
  c w = (Raise e, w1, t1) → bind c k w = (Raise e, w1, t1).
Proof. intros Hc. unfold bind. by rewrite Hc. Qed.

Lemma bind_blocked {A B} (c : M A) (k : A → M B) w w1 t1 :
  c w = (Blocked, w1, t1) → bind c k w = (Blocked, w1, t1).
Proof. intros Hc. unfold bind. by rewrite Hc. Qed.

Lemma first_missing_exists event required name :
  name ∈ required → attrs event !! name = None →
  ∃ missing, first_missing event required = Some missing ∧
             missing ∈ required ∧ attrs event !! missing = None.
Proof.
  induction required as [|a rest IH]; intros Hin Hnone.
  - by apply elem_of_nil in Hin.
  - simpl. destruct (attrs event !! a) eqn:Ha.
    + apply elem_of_cons in Hin as [->|Hin]; [congruence|].
      destruct (IH Hin Hnone) as (missing & ? & ? & ?).
      exists missing. split_and!; [done | by apply list_elem_of_further | done].
    + exists a. split_and!; [done | apply list_elem_of_here | done].
Qed.

Lemma first_missing_bound event required :
  first_missing event required = None → is_Some (bound_parameters event required).
Proof.
  induction required as [|a rest IH]; simpl; [eauto|].
  destruct (attrs event !! a); [|done]. intros H. destruct (IH H) as [ps ->]. eauto.
Qed.

Lemma bound_first_missing event required ps :
  bound_parameters event required = Some ps → first_missing event required = None.
Proof.
  revert ps. induction required as [|a rest IH]; simpl; [done|]. intros ps.
  destruct (attrs event !! a); [|done].
  destruct (bound_parameters event rest); [|done]. eauto.
Qed.

Lemma prepare_parameters_from_missing hook event required ps w missing :
  first_missing event required = Some missing →
  _prepare_parameters_from hook event required ps w
  = (Done None, w, missing_parameter_logs hook event missing).
Proof.
  revert ps. induction required as [|a rest IH]; intros ps; simpl; [done|].
  destruct (attrs event !! a); [apply IH | by intros [= ->]].
Qed.

Lemma prepare_parameters_from_bound hook event required ps w values :
  bound_parameters event required = Some values →
  _prepare_parameters_from hook event required ps w = (Done (Some (ps ++ values)), w, []).
Proof.
  revert ps values. induction required as [|a rest IH]; intros ps values; simpl.
  - intros [= <-]. by rewrite app_nil_r.
  - destruct (attrs event !! a) as [x|]; [|done].
    destruct (bound_parameters event rest) as [xs|] eqn:Hrest; [|done].
    intros [= <-]. rewrite (IH _ xs eq_refl). by rewrite <- app_assoc.
Qed.

Lemma prepare_parameters_missing hook event w missing :
  first_missing event (Hook.required_args hook) = Some missing →
  _prepare_parameters hook event w = (Done None, w, missing_parameter_logs hook event missing).
Proof. apply prepare_parameters_from_missing. Qed.

Lemma prepare_parameters_bound hook event w values :
  bound_parameters event (Hook.required_args hook) = Some values →
  _prepare_parameters hook event w = (Done (Some values), w, []).
Proof. intros H. unfold _prepare_parameters. by rewrite (prepare_parameters_from_bound _ _ _ _ _ _ H). Qed.

(** obrbot: a missing parameter is logged, nothing is called, the hook reports
    failure. *)
Lemma obrbot_execute_hook_missing env hook event w missing :
  first_missing event (Hook.required_args hook) = Some missing →
  _execute_hook obrbot env hook event w
  = (Done false, w, missing_parameter_logs hook event missing).
Proof.
  intros H. unfold _execute_hook.
  rewrite (bind_done _ _ _ _ _ _ (prepare_parameters_missing _ _ _ _ H)). done.
Qed.

(** cloudbot: the same condition is logged and nothing is called, but the hook
    reports success. *)
Lemma cloudbot_execute_hook_missing env hook event w missing :
  first_missing event (Hook.required_args hook) = Some missing →
  _execute_hook cloudbot env hook event w
  = (Done true, w, Prepare (Hook.threaded hook) :: missing_parameter_logs hook event missing).
Proof.
  intros H. unfold _execute_hook, _execute_hook_prepared, try_except, bind. simpl.
  rewrite (prepare_parameters_missing _ _ _ _ H). done.
Qed.

(** ** Execution of a hook *)

Lemma for_each_emit {A} (f : A → effect) (l : list A) w :
  for_each l (λ x, emit (f x)) w = (Done tt, w, map f l).
Proof.
  induction l as [|x l IH]; [done|]. simpl. unfold bind. simpl. by rewrite IH.
Qed.

(** [send_result] leaves the world alone. *)
Lemma send_result_world v out w :
  ∃ r tr, send_result v out w = (r, w, tr) ∧ r ≠ Blocked ∧ invokes tr = false.
Proof.
  destruct v, out as [|items|items|str]; simpl; try (by eexists _, _);
    try (destruct items as [|first others]; [by eexists _, _|]);
    unfold bind; simpl; rewrite for_each_emit; simpl; eexists _, _; split_and!; try done.
  all: induction others; simpl; auto.
Qed.

(** [_execute_hook], case by case. *)
Lemma execute_hook_run v env hook event w :
  _execute_hook v env hook event w =
  match first_missing event (Hook.required_args hook) with
  | Some missing =>
      (Done (match v with cloudbot => true | obrbot => false end), w,
       prepare_effects v hook ++ missing_parameter_logs hook event missing)
  | None =>
      match bound_parameters event (Hook.required_args hook) with
      | None => (Done false, w, [])
      | Some parameters =>
          match call env (Hook.function hook) parameters with
          | Raises _ =>
              (Done false, w,
               prepare_effects v hook ++ [Call hook parameters] ++ close_effects v hook ++
               [hook_error_log hook])
          | Returns out =>
              let '(r, _, tr) := send_result v out w in
              (match r with Done _ => Done true | Raise e => Raise e | Blocked => Blocked end, w,
               prepare_effects v hook ++ [Call hook parameters] ++ close_effects v hook ++ tr)
          end
      end
  end.
Proof.
  destruct (first_missing event (Hook.required_args hook)) as [missing|] eqn:Hmiss.
  - destruct v.
    + by rewrite (cloudbot_execute_hook_missing _ _ _ _ _ Hmiss).
    + by rewrite (obrbot_execute_hook_missing _ _ _ _ _ Hmiss).
  - destruct (first_missing_bound _ _ Hmiss) as [ps Hps]. rewrite Hps.
    destruct v; unfold _execute_hook, _execute_hook_prepared, try_except, try_finally,
      call_function, bind; simpl; rewrite (prepare_parameters_bound _ _ _ _ Hps); simpl;
      destruct (call env (Hook.function hook) ps) as [out|e]; simpl; try done;
      destruct out as [|[|first others]|[|first others]|str]; simpl; try done;
      unfold bind; simpl; rewrite for_each_emit; simpl; by rewrite ?app_nil_r.
Qed.

(** The world is the same after [_execute_hook], whatever happened. *)
Lemma execute_hook_world v env hook event w r w' tr :
  _execute_hook v env hook event w = (r, w', tr) → w' = w ∧ r ≠ Blocked.
Proof.
  rewrite execute_hook_run.
  destruct (first_missing _ _); [by intros [= <- <- <-]|].
  destruct (bound_parameters _ _) as [ps|]; [|by intros [= <- <- <-]].
  destruct (call env _ ps) as [out|e]; [|by intros [= <- <- <-]].
  destruct (send_result_world v out w) as (r1 & tr1 & -> & Hr1 & _).
  intros [= <- <- <-]. split; [done|]. by destruct r1.
Qed.

(** ** The sieve stage *)

Lemma sieve_run v env sieve event hook w :
  _sieve v env sieve event hook w
  = (Done (sieve_output v env sieve event hook), w,
     CallSieve sieve event hook ::
     (if sieve_raised v env sieve event hook then [sieve_error_log sieve hook] else [])).
Proof.
  unfold _sieve, sieve_output, sieve_raised, bind. simpl.
  by destruct (call_sieve env _ _ _).
Qed.

Lemma run_sieves_stage v env hook sieves event w :
  run_sieves v env sieves event hook w
  = (Done (sieve_stage v env hook sieves event).1, w, (sieve_stage v env hook sieves event).2).
Proof.
  revert event. induction sieves as [|sieve rest IH]; intros event; [done|].
  simpl. rewrite (bind_done _ _ _ _ _ _ (sieve_run _ _ _ _ _ _)).
  destruct (sieve_output v env sieve event hook) as [event'|]; simpl.
  - rewrite IH. by destruct (sieve_stage v env hook rest event').
  - by rewrite app_nil_r.
Qed.

Lemma sieve_stage_effects v env hook sieves event :
  Forall (λ x, is_sieve_effect x = true) (sieve_stage v env hook sieves event).2.
Proof.
  revert event. induction sieves as [|sieve rest IH]; intros event; simpl; [constructor|].
  destruct (sieve_output v env sieve event hook) as [event'|]; simpl.
  - specialize (IH event'). destruct (sieve_stage v env hook rest event'). simpl in *.
    constructor; [done|]. destruct (sieve_raised _ _ _ _ _); simpl; [constructor|]; done.
  - constructor; [done|]. destruct (sieve_raised _ _ _ _ _); [constructor|]; by constructor.
Qed.

Lemma sieve_calls_app tr1 tr2 : sieve_calls (tr1 ++ tr2) = sieve_calls tr1 ++ sieve_calls tr2.
Proof. unfold sieve_calls. apply omap_app. Qed.

(** Sieves that pass the event on are applied one after the other, and the
    stage continues behind them with the event they produced. *)
Lemma sieve_stage_chain v env hook pre rest event event' :
  sieve_chain v env hook pre event event' →
  ∃ tr, sieve_calls tr = pre ∧
        sieve_stage v env hook (pre ++ rest) event
        = ((sieve_stage v env hook rest event').1, tr ++ (sieve_stage v env hook rest event').2).
Proof.
  induction 1 as [event|sieve pre event event1 event2 Hout _ (tr & Hcalls & IH)].
  - exists []. simpl. by destruct (sieve_stage v env hook rest event).
  - eexists (_ :: _ ++ tr). simpl. rewrite Hout, IH. split; [|by rewrite <- app_assoc].
    rewrite sieve_calls_app, Hcalls. by destruct (sieve_raised _ _ _ _ _).
Qed.

Lemma sieve_effect_not_call tr :
  Forall (λ x, is_sieve_effect x = true) tr → invokes tr = false ∧ NoticeDoc ∉ tr.
Proof.
  induction 1 as [|x tr Hx _ [IH1 IH2]]; simpl.
  - split; [done|]. by intros ?%elem_of_nil.
  - split.
    + rewrite IH1. by destruct x.
    + intros [<-|?]%elem_of_cons; [done|]. by apply IH2.
Qed.

(** ** [launch], stage by stage *)

Lemma send_result_indep v out w1 w2 :
  send_result v out w2 = (let '(r, _, tr) := send_result v out w1 in (r, w2, tr)).
Proof.
  destruct v, out as [|[|first others]|[|first others]|str]; simpl; try done;
    unfold bind; simpl; by rewrite !for_each_emit.
Qed.

Lemma execute_hook_indep v env hook event w1 w2 :
  _execute_hook v env hook event w2
  = (let '(r, _, tr) := _execute_hook v env hook event w1 in (r, w2, tr)).
Proof.
  rewrite !execute_hook_run.
  destruct (first_missing _ _); [done|].
  destruct (bound_parameters _ _) as [ps|]; [|done].
  destruct (call env _ ps) as [out|e]; [|done].
  rewrite (send_result_indep v out w1 w2).
  by destruct (send_result v out w1) as [[r ?] tr].
Qed.

Lemma wants_help_run hook event w :
  wants_help hook event w = ((wants_help hook event w).1.1, w, []).
Proof.
  unfold wants_help.
  destruct (bool_decide _ && Hook.auto_help hook); [|done].
  by destruct (attrs event !! "text").
Qed.

Lemma with_queues_same w : with_queues (_hook_waiting_queues (manager w)) w = w.
Proof. by destruct w as [[] ?]. Qed.

Lemma with_queues_twice qs1 qs2 w : with_queues qs2 (with_queues qs1 w) = with_queues qs2 w.
Proof. by destruct w as [[] ?]. Qed.

Lemma let_triple {A B C} (x : A * B * C) : (let '(a, b, c) := x in (a, b, c)) = x.
Proof. by destruct x as [[? ?] ?]. Qed.

Lemma launch_run v env task hook event w :
  launch v env task hook event w =
  let '(sieved, str) :=
    if skips_sieves v (Hook.type hook) then (Some event, [])
    else sieve_stage v env hook (sieves (manager w)) event in
  match sieved with
  | None => (Done false, w, str)
  | Some event' =>
      match (wants_help hook event' w).1.1 with
      | Raise e => (Raise e, w, str)
      | Blocked => (Blocked, w, str)
      | Done true => (Done false, w, str ++ [NoticeDoc])
      | Done false =>
          let qs := _hook_waiting_queues (manager w) in
          let '(r, _, tr) := _execute_hook v env hook event' w in
          if Hook.single_thread hook then
            match qs !! queue_key hook with
            | Some queue =>
                (Blocked,
                 with_queues (<[queue_key hook := Some (default [] queue ++ [task])]> qs) w, str)
            | None =>
                match r with
                | Done b => (Done b, w, str ++ tr)
                | other => (other, with_queues (<[queue_key hook := None]> qs) w, str ++ tr)
                end
            end
          else (r, w, str ++ tr)
      end
  end.
Proof.
  unfold launch. unfold bind at 1. simpl.
  match goal with |- context [bind (if _ then _ else _) ?K] => set (k := K) end.
  assert (Hnone : k None w = (Done false, w, [])) by done.
  assert (Hsome : ∀ event', k (Some event') w =
    match (wants_help hook event' w).1.1 with
    | Raise e => (Raise e, w, [])
    | Blocked => (Blocked, w, [])
    | Done true => (Done false, w, [NoticeDoc])
    | Done false =>
        let qs := _hook_waiting_queues (manager w) in
        let '(r, _, tr) := _execute_hook v env hook event' w in
        if Hook.single_thread hook then
          match qs !! queue_key hook with
          | Some queue =>
              (Blocked,
               with_queues (<[queue_key hook := Some (default [] queue ++ [task])]> qs) w, [])
          | None =>
              match r with
              | Done b => (Done b, w, tr)
              | other => (other, with_queues (<[queue_key hook := None]> qs) w, tr)
              end
          end
        else (r, w, tr)
    end).
  { intros event'. subst k. simpl. unfold bind at 1. rewrite wants_help_run.
    destruct ((wants_help hook event' w).1.1) as [[|]| |]; try done.
    destruct (Hook.single_thread hook).
    - unfold bind at 1. simpl. unfold enter_queue.
      destruct (_hook_waiting_queues (manager w) !! queue_key hook) as [queue|] eqn:Hq.
      + unfold bind; simpl. by destruct (_execute_hook v env hook event' w) as [[] ?].
      + unfold bind at 1. simpl. unfold bind at 1. simpl.
        unfold run_single_thread. unfold bind at 1.
        rewrite (execute_hook_indep v env hook event' w).
        destruct (_execute_hook v env hook event' w) as [[r w1] tr]. simpl.
        destruct r as [b| |]; try done.
        unfold bind, leave_queue; simpl. rewrite lookup_insert_eq. simpl.
        rewrite delete_insert_id by done.
        rewrite app_nil_r. f_equal. f_equal. by destruct w as [[] ?].
    - simpl. pose proof (execute_hook_world v env hook event' w) as Hw.
      destruct (_execute_hook v env hook event' w) as [[r w1] tr].
      destruct (Hw _ _ _ eq_refl) as [Hw1 _]. by subst w1. }
  clearbody k.
  rewrite let_triple.
  destruct (skips_sieves v (Hook.type hook)).
  - unfold bind. simpl. rewrite Hsome. rewrite let_triple.
    destruct ((wants_help hook event w).1.1) as [[|]| |]; try done.
  - unfold bind. rewrite run_sieves_stage.
    destruct (sieve_stage v env hook (sieves (manager w)) event) as [[event'|] str]; simpl.
    + rewrite Hsome.
      destruct ((wants_help hook event' w).1.1) as [[|]| |]; try (by rewrite ?app_nil_r).
      destruct (_execute_hook v env hook event' w) as [[r w1] tr].
      destruct (Hook.single_thread hook); [|done]. cbv zeta.
      destruct (_hook_waiting_queues (manager w) !! queue_key hook); simpl;
        [by rewrite app_nil_r|]. by destruct r.
    + rewrite Hnone. by rewrite app_nil_r.
Qed.

(** ** Sieve rejection *)

Lemma sieve_stage_rejects v env hook pre sieve post event event' :
  sieve_chain v env hook pre event event' →
  sieve_output v env sieve event' hook = None →
  ∃ tr, sieve_stage v env hook (pre ++ sieve :: post) event = (None, tr) ∧
        sieve_calls tr = pre ++ [sieve].
Proof.
  intros Hchain Hnone.
  destruct (sieve_stage_chain v env hook pre (sieve :: post) event event' Hchain)
    as (tr & Hcalls & ->).
  simpl. rewrite Hnone. simpl. eexists. split; [done|].
  rewrite sieve_calls_app, Hcalls. by destruct (sieve_raised _ _ _ _ _).
Qed.

(** C5. When some sieve, applied in registration order to a non-lifecycle
    hook's event, produces no event, [launch] returns [False] and leaves the
    manager as it was; the sieves applied are exactly those up to and including
    the rejecting one, the help notice is not sent and no callable is invoked. *)
Theorem sieve_rejection_stops_dispatch v env task hook event w pre sieve post event' :
  skips_sieves v (Hook.type hook) = false →
  sieves (manager w) = pre ++ sieve :: post →
  sieve_chain v env hook pre event event' →
  sieve_output v env sieve event' hook = None →
  ∃ tr, launch v env task hook event w = (Done false, w, tr) ∧
        sieve_calls tr = pre ++ [sieve] ∧
        (NoticeDoc ∉ tr) ∧ invokes tr = false.
Proof.
  intros Hskip Hsieves Hchain Hnone.
  destruct (sieve_stage_rejects v env hook pre sieve post event event' Hchain Hnone)
    as (tr & Hstage & Hcalls).
  pose proof (sieve_stage_effects v env hook (pre ++ sieve :: post) event) as Heff.
  rewrite Hstage in Heff. simpl in Heff.
  destruct (sieve_effect_not_call tr Heff) as [Hinv Hdoc].
  exists tr. rewrite launch_run, Hskip, Hsieves, Hstage. done.
Qed.

(** ** The help short-circuit *)

(** C9. A command hook with auto-help and a doc string, dispatched with an
    event that passes the sieves and carries no invocation text: the
    documentation is sent, [launch] returns [False] and the callable is not
    invoked. *)
Theorem auto_help_short_circuits v env task hook event event' w text documentation :
  Hook.type hook = HookType.command →
  Hook.auto_help hook = true →
  Hook.doc hook = Some documentation →
  sieve_chain v env hook (sieves (manager w)) event event' →
  attrs event' !! "text" = Some text →
  truthy text = false →
  ∃ tr, launch v env task hook event w = (Done false, w, tr ++ [NoticeDoc]) ∧
        sieve_calls tr = sieves (manager w) ∧
        invokes (tr ++ [NoticeDoc]) = false.
Proof.
  intros Htype Hauto Hdoc Hchain Htext Hfalsy.
  destruct (sieve_stage_chain v env hook _ [] event event' Hchain) as (tr & Hcalls & Hstage).
  rewrite app_nil_r in Hstage. simpl in Hstage. rewrite app_nil_r in Hstage.
  pose proof (sieve_stage_effects v env hook (sieves (manager w)) event) as Heff.
  rewrite Hstage in Heff. simpl in Heff.
  destruct (sieve_effect_not_call tr Heff) as [Hinv _].
  exists tr. rewrite launch_run.
  assert (skips_sieves v (Hook.type hook) = false) as -> by (rewrite Htype; by destruct v).
  rewrite Hstage. unfold wants_help. rewrite Htype, Hauto, Htext, Hfalsy, Hdoc. simpl.
  split_and!; [done..|]. unfold invokes in *. rewrite existsb_app, Hinv. done.
Qed.

(** ** Exceptions of callables *)

Lemma send_result_replies v out w :
  Forall (λ x, is_reply x = true) (send_result v out w).2.
Proof.
  apply Forall_forall. intros x.
  destruct v, out as [|[|first others]|[|first others]|str]; simpl;
    unfold bind; simpl; rewrite ?for_each_emit; simpl; rewrite ?app_nil_r;
    rewrite ?elem_of_cons, ?elem_of_nil, ?list_elem_of_fmap;
    intros Hin; destruct_or?; destruct_and?; subst; try done;
    by destruct Hin as (? & -> & _).
Qed.





(** ** Examples of dispatch *)

Example basename_plugins : basename "plugins/prefixes.py" = "prefixes.py".
Proof. reflexivity. Qed.

Example splitext_prefixes : splitext_root "prefixes.py" = "prefixes".
Proof. reflexivity. Qed.

Example splitext_internal : splitext_root "internal/bot.py" = "internal/bot".
Proof. reflexivity. Qed.

Example splitext_hidden : splitext_root "dir.d/.bashrc" = "dir.d/.bashrc".
Proof. reflexivity. Qed.

(** The end-to-end property of the specification: [echo] replies with its
    input. *)
Example echo_replies_hello v :
  (launch v example_env 0 echo_command (command_event "hello") (world_with_sieves [])).1.1
  = Done true ∧
  lines_sent (launch v example_env 0 echo_command (command_event "hello")
                (world_with_sieves [])).2 = ["hello"].
Proof. by destruct v. Qed.

Lemma sieve_rejection_witness :
  ∃ tr, launch obrbot example_env 0 echo_command (command_event "hello")
          (world_with_sieves [passing_sieve; rejecting_sieve; later_sieve])
        = (Done false, world_with_sieves [passing_sieve; rejecting_sieve; later_sieve], tr) ∧
        sieve_calls tr = [passing_sieve] ++ [rejecting_sieve] ∧
        (NoticeDoc ∉ tr) ∧ invokes tr = false.
Proof.
  apply (sieve_rejection_stops_dispatch obrbot example_env 0 echo_command
           (command_event "hello") _ [passing_sieve] rejecting_sieve [later_sieve]
           (command_event "hello")).
  - reflexivity.
  - reflexivity.
  - eapply sieve_chain_cons; [reflexivity | apply sieve_chain_nil].
  - reflexivity.
Defined.

Lemma auto_help_witness :
  ∃ tr, launch cloudbot example_env 0 echo_command (command_event EmptyString)
          (world_with_sieves [passing_sieve])
        = (Done false, world_with_sieves [passing_sieve], tr ++ [NoticeDoc]) ∧
        sieve_calls tr = sieves (manager (world_with_sieves [passing_sieve])) ∧
        invokes (tr ++ [NoticeDoc]) = false.
Proof.
  apply (auto_help_short_circuits cloudbot example_env 0 echo_command
           (command_event EmptyString) (command_event EmptyString) _
           (VStr EmptyString) "<text> - says it").
  - reflexivity.
  - reflexivity.
  - reflexivity.
  - eapply sieve_chain_cons; [reflexivity | apply sieve_chain_nil].
  - reflexivity.
  - reflexivity.
Defined.


(** ** Missing parameters *)

(** C1, at a hook that asks for [chan] and an event without it: cloudbot logs
    the missing parameter and does not call the hook, but [launch] returns
    [True]. *)
Theorem cloudbot_missing_parameter_returns_true :
  launch cloudbot example_env 0 chan_command event_without_chan (world_with_sieves [])
  = (Done true, world_with_sieves [],
     Prepare true :: missing_parameter_logs chan_command event_without_chan "chan").
Proof. reflexivity. Qed.

(** The same dispatch in obrbot returns [False]. *)
Lemma obrbot_missing_parameter_returns_false :
  launch obrbot example_env 0 chan_command event_without_chan (world_with_sieves [])
  = (Done false, world_with_sieves [],
     missing_parameter_logs chan_command event_without_chan "chan").
Proof. reflexivity. Qed.

(** In general: once [launch] has logged a missing parameter, it has called no
    hook, and what it returns depends on the implementation. *)
Lemma execute_hook_missing_logged v env hook event w r w' tr template args :
  _execute_hook v env hook event w = (r, w', tr) →
  Log ERROR template args ∈ tr →
  r = Done (match v with cloudbot => true | obrbot => false end) ∧ invokes tr = false.
Proof.
  rewrite execute_hook_run.
  destruct (first_missing _ _) as [missing|].
  { intros [= <- <- <-] _. by destruct v. }
  destruct (bound_parameters _ _) as [ps|]; [|intros [= <- <- <-]; set_solver].
  destruct (call env _ ps) as [out|e].
  - pose proof (send_result_replies v out w) as Hrep.
    destruct (send_result v out w) as [[r1 w2] tr1]. simpl in Hrep.
    intros [= <- <- <-] Hin.
    assert (Log ERROR template args ∈ tr1) as Hin1 by (destruct v; set_solver).
    rewrite Forall_forall in Hrep. by apply Hrep in Hin1.
  - intros [= <- <- <-] Hin. unfold hook_error_log in Hin. destruct v; set_solver.
Qed.

Lemma launch_missing_parameter v env task hook event w r w' tr template args :
  launch v env task hook event w = (r, w', tr) →
  Log ERROR template args ∈ tr →
  r = Done (match v with cloudbot => true | obrbot => false end) ∧ invokes tr = false.
Proof.
  rewrite launch_run.
  set (stage := if skips_sieves v (Hook.type hook) then (Some event, [])
                else sieve_stage v env hook (sieves (manager w)) event).
  assert (Heff : Forall (λ x, is_sieve_effect x = true) stage.2).
  { subst stage. destruct (skips_sieves _ _); [constructor|apply sieve_stage_effects]. }
  clearbody stage. destruct stage as [sieved str]. simpl in Heff.
  destruct (sieve_effect_not_call str Heff) as [Hinv _].
  assert (Hnolog : Log ERROR template args ∉ str).
  { rewrite Forall_forall in Heff. intros Hin. by apply Heff in Hin. }
  destruct sieved as [event'|]; [|by intros [= <- <- <-]].
  destruct ((wants_help hook event' w).1.1) as [[|]|e0|];
    try (intros [= <- <- <-]; set_solver).
  cbv zeta.
  destruct (_execute_hook v env hook event' w) as [[r1 w1] tr1] eqn:Hexec.
  assert (Hcase : Log ERROR template args ∈ str ++ tr1 →
            r1 = Done (match v with cloudbot => true | obrbot => false end) ∧
            invokes (str ++ tr1) = false).
  { intros [Hin|Hin]%elem_of_app; [done|].
    destruct (execute_hook_missing_logged _ _ _ _ _ _ _ _ _ _ Hexec Hin) as [-> Hinv1].
    split; [done|]. unfold invokes in *. by rewrite existsb_app, Hinv, Hinv1. }
  destruct (Hook.single_thread hook).
  - destruct (_hook_waiting_queues (manager w) !! queue_key hook).
    + by intros [= <- <- <-].
    + destruct r1 as [b| |]; intros [= <- <- <-] Hin; by destruct (Hcase Hin).
  - intros [= <- <- <-] Hin. by destruct (Hcase Hin).
Qed.

(** ** Replies *)

Lemma append_empty_r (s : string) : s +:+ EmptyString = s.
Proof.
  induction s as [|a s IH]; [done|].
  change (String a (s +:+ EmptyString) = String a s). by rewrite IH.
Qed.

Lemma append_char_assoc (cur : string) a s :
  (cur +:+ String a EmptyString) +:+ s = cur +:+ String a s.
Proof.
  induction cur as [|b cur IH]; [done|].
  change (String b ((cur +:+ String a EmptyString) +:+ s) = String b (cur +:+ String a s)).
  by rewrite IH.
Qed.

Lemma split_on_no_separator c s cur :
  (∀ i, String.get i s ≠ Some c) → split_on c s cur = [cur +:+ s].
Proof.
  revert cur. induction s as [|a s IH]; intros cur Hno; simpl.
  - by rewrite append_empty_r.
  - destruct (bool_decide_reflect (a = c)) as [->|Hne].
    + by specialize (Hno 0).
    + rewrite IH; [|intros i; apply (Hno (S i))]. by rewrite append_char_assoc.
Qed.

(** A text without a newline is one line. *)
Lemma split_lines_one_line s :
  (∀ i, String.get i s ≠ Some newline) → split_lines s = [s].
Proof. intros H. unfold split_lines. by rewrite split_on_no_separator. Qed.

(** C8, as the code has it. The result of a successful call is sent right
    after the call: a non-empty list or tuple as its first element through
    [reply] and the others as follow-up lines ([message] per line in cloudbot,
    further arguments of the one [reply] in obrbot); any other non-null result
    stringified through one [reply], whole in cloudbot and split at newlines in
    obrbot. *)
Theorem result_is_sent_as_reply v env hook event w parameters out sent :
  bound_parameters event (Hook.required_args hook) = Some parameters →
  call env (Hook.function hook) parameters = Returns out →
  replies_for v out = Some sent →
  _execute_hook v env hook event w
  = (Done true, w,
     prepare_effects v hook ++ [Call hook parameters] ++ close_effects v hook ++ sent).
Proof.
  intros Hps Hcall Hsent. rewrite execute_hook_run.
  rewrite (bound_first_missing _ _ _ Hps), Hps, Hcall.
  destruct v, out as [|[|first others]|[|first others]|str]; simpl in *;
    simplify_eq; try done; unfold bind; simpl; by rewrite for_each_emit.
Qed.

Lemma result_is_sent_witness :
  _execute_hook cloudbot example_env list_command (command_event "x") (world_with_sieves [])
  = (Done true, world_with_sieves [],
     prepare_effects cloudbot list_command ++ [Call list_command []] ++
     close_effects cloudbot list_command ++ [Reply ["one"]; Message "two"; Message "three"]).
Proof.
  apply (result_is_sent_as_reply cloudbot example_env list_command (command_event "x")
           (world_with_sieves []) [] (RList ["one"; "two"; "three"])); reflexivity.
Defined.

(** C8 as stated fails: obrbot sends a text with a newline as two lines, not
    as the single stringified reply. *)
Lemma multiline_text_is_not_a_single_reply :
  ¬ (∀ v env hook event w parameters out,
       bound_parameters event (Hook.required_args hook) = Some parameters →
       call env (Hook.function hook) parameters = Returns out →
       out ≠ RNone →
       ∃ tr, _execute_hook v env hook event w = (Done true, w, tr) ∧
             lines_sent tr = expected_lines out).
Proof.
  intros Hclaim.
  destruct (Hclaim obrbot example_env lines_command (command_event "x") (world_with_sieves [])
              [] (RObject two_lines) eq_refl eq_refl) as (tr & Hrun & Hlines); [done|].
  vm_compute in Hrun. injection Hrun as <-. vm_compute in Hlines. discriminate.
Qed.

(** cloudbot's slip on the same claim: an empty list makes [launch] raise. *)
Lemma cloudbot_empty_list_raises :
  (_execute_hook cloudbot example_env (echo_hook 6 HookType.command 4 "none" [])
     (command_event "x") (world_with_sieves [])).1.1
  = Raise (IndexError "list index out of range").
Proof. reflexivity. Qed.

(** ** Command aliases *)

Lemma update_manager_id w : update_manager (λ m, m) w = w.
Proof. by destruct w. Qed.

Lemma set_commands_id m : set_commands (λ _, commands m) m = m.
Proof. by destruct m. Qed.

Lemma with_aliases_keeps command_hook aliases cmds alias registered :
  cmds !! alias = Some registered →
  with_aliases command_hook aliases cmds !! alias = Some registered.
Proof.
  revert cmds. induction aliases as [|a aliases IH]; intros cmds Hreg; simpl; [done|].
  apply IH. destruct (cmds !! a) eqn:Ha; [done|].
  rewrite lookup_insert_ne; [done|]. congruence.
Qed.

Lemma with_aliases_fresh command_hook aliases cmds alias :
  cmds !! alias = None →
  with_aliases command_hook aliases cmds !! alias
  = if bool_decide (alias ∈ aliases) then Some command_hook else None.
Proof.
  revert cmds. induction aliases as [|a aliases IH]; intros cmds Hnone; simpl; [done|].
  destruct (decide (a = alias)) as [->|Hne].
  - rewrite Hnone. rewrite bool_decide_eq_true_2 by apply list_elem_of_here.
    apply with_aliases_keeps. by rewrite lookup_insert_eq.
  - rewrite IH.
    + rewrite (bool_decide_ext (alias ∈ a :: aliases) (alias ∈ aliases)); [done|].
      rewrite elem_of_cons. naive_solver.
    + destruct (cmds !! a); [done|]. by rewrite lookup_insert_ne.
Qed.

(** [register_command] changes the command index only, to [with_aliases]. *)
Lemma register_command_run internal plugin command_hook w :
  ∃ tr, register_command internal plugin command_hook w
        = (Done tt,
           update_manager (set_commands (with_aliases command_hook (Hook.aliases command_hook))) w,
           tr) ∧
        (∀ alias registered,
           alias ∈ Hook.aliases command_hook →
           commands (manager w) !! alias = Some registered →
           conflict_warning internal plugin alias registered ∈ tr) ∧
        invokes tr = false.
Proof.
  unfold register_command. generalize (Hook.aliases command_hook) as aliases.
  intros aliases. revert w. induction aliases as [|a aliases IH]; intros w.
  { exists []. split_and!; [|by intros ?? ?%elem_of_nil|done].
    simpl. unfold ret. f_equal. f_equal. by destruct w as [[] ?]. }
  simpl. unfold bind at 1. unfold register_alias at 1. unfold bind at 1. simpl.
  destruct (commands (manager w) !! a) as [registered|] eqn:Ha; simpl.
  - destruct (IH w) as (tr & -> & Hwarn & Hinv). eexists. split_and!.
    + f_equal. f_equal. destruct w as [[] ?]. unfold update_manager, set_commands. simpl in *.
      by rewrite Ha.
    + intros alias reg [->|Hin]%elem_of_cons Hreg.
      * rewrite Ha in Hreg. injection Hreg as <-. apply list_elem_of_here.
      * apply list_elem_of_further. by apply Hwarn.
    + done.
  - destruct (IH {| manager := set_commands <[a:=command_hook]> (manager w);
                    next_id := next_id w |}) as (tr & -> & Hwarn & Hinv).
    exists tr. split_and!.
    + f_equal. f_equal. destruct w as [[] ?]. unfold update_manager, set_commands. simpl in *.
      by rewrite Ha.
    + intros alias reg [->|Hin]%elem_of_cons Hreg; [congruence|].
      apply Hwarn; [done|]. simpl.
      rewrite lookup_insert_ne; [done|]. congruence.
    + done.
Qed.

(** C3. Registering a command hook under an alias that is already in the
    command index keeps the existing mapping, rejects the new one with a
    warning, and leaves every other existing mapping as it was; an alias never
    maps to two hooks. *)
Theorem first_registrant_keeps_alias internal plugin command_hook w alias registered :
  commands (manager w) !! alias = Some registered →
  alias ∈ Hook.aliases command_hook →
  ∃ w' tr,
    register_command internal plugin command_hook w = (Done tt, w', tr) ∧
    commands (manager w') !! alias = Some registered ∧
    conflict_warning internal plugin alias registered ∈ tr ∧
    (∀ a h, commands (manager w) !! a = Some h → commands (manager w') !! a = Some h) ∧
    (∀ a h1 h2, commands (manager w') !! a = Some h1 →
                commands (manager w') !! a = Some h2 → h1 = h2).
Proof.
  intros Hreg Hin.
  destruct (register_command_run internal plugin command_hook w) as (tr & Hrun & Hwarn & _).
  eexists _, tr. split; [exact Hrun|]. simpl. split_and!.
  - by apply with_aliases_keeps.
  - by apply Hwarn.
  - intros a h. apply with_aliases_keeps.
  - intros a h1 h2 H1 H2. congruence.
Qed.

Lemma first_registrant_witness :
  ∃ w' tr,
    register_command false echo_plugin (echo_hook 7 HookType.command 5 "echo" ["text"])
      (update_manager (set_commands <["echo" := echo_command]>) (world_with_sieves []))
    = (Done tt, w', tr) ∧
    commands (manager w') !! "echo" = Some echo_command ∧
    conflict_warning false echo_plugin "echo" echo_command ∈ tr ∧
    (∀ a h, commands (manager (update_manager (set_commands <["echo" := echo_command]>)
                                 (world_with_sieves []))) !! a = Some h →
            commands (manager w') !! a = Some h) ∧
    (∀ a h1 h2, commands (manager w') !! a = Some h1 →
                commands (manager w') !! a = Some h2 → h1 = h2).
Proof.
  apply (first_registrant_keeps_alias false echo_plugin
           (echo_hook 7 HookType.command 5 "echo" ["text"]) _ "echo" echo_command).
  - reflexivity.
  - apply list_elem_of_here.
Defined.

(** ** Internal hooks *)

(** C10. [add_hook] with a kind it refuses, from a file that has no synthetic
    plugin yet, raises the [ValueError] after it has put the new synthetic
    plugin (without hooks) into [plugins]; nothing else changes and no hook is
    built. *)
Theorem add_hook_refusal_leaves_plugin v env hook_type file func_hook w e :
  refused_internally v hook_type = Some e →
  plugins (manager w) !! ("internal/" +:+ basename file) = None →
  add_hook v env hook_type file func_hook w
  = (Raise e,
     update_manager (set_plugins <["internal/" +:+ basename file := synthetic_plugin env file]>) w,
     []) ∧
  exc_class e = "ValueError" ∧
  plugins (manager w) ≠
  plugins (manager (update_manager
    (set_plugins <["internal/" +:+ basename file := synthetic_plugin env file]>) w)).
Proof.
  intros Hrefused Hnone. split_and!.
  - unfold add_hook. unfold bind at 1. simpl. rewrite Hnone.
    destruct v, hook_type; simpl in Hrefused; simplify_eq; reflexivity.
  - destruct v, hook_type; simpl in Hrefused; by simplify_eq.
  - simpl. intros Heq.
    assert (plugins (manager w) !! ("internal/" +:+ basename file)
            = Some (synthetic_plugin env file)) as Hsome
      by (rewrite Heq; apply lookup_insert_eq).
    congruence.
Qed.

Lemma add_hook_refusal_witness :
  add_hook obrbot example_env HookType.command "/bot/obrbot/bot.py" example_func_hook
    (world_with_sieves [])
  = (Raise (ValueError "command hooks not allowed"),
     update_manager (set_plugins <["internal/" +:+ basename "/bot/obrbot/bot.py" :=
                                     synthetic_plugin example_env "/bot/obrbot/bot.py"]>)
       (world_with_sieves []),
     []) ∧
  exc_class (ValueError "command hooks not allowed") = "ValueError" ∧
  plugins (manager (world_with_sieves [])) ≠
  plugins (manager (update_manager
    (set_plugins <["internal/" +:+ basename "/bot/obrbot/bot.py" :=
                     synthetic_plugin example_env "/bot/obrbot/bot.py"]>)
    (world_with_sieves []))).
Proof.
  apply (add_hook_refusal_leaves_plugin obrbot example_env HookType.command
           "/bot/obrbot/bot.py" example_func_hook (world_with_sieves [])); reflexivity.
Defined.

(** ** Single-concurrency hooks *)

Lemma of_key_app k l1 l2 : of_key k (l1 ++ l2) = of_key k l1 ++ of_key k l2.
Proof. unfold of_key. by rewrite filter_app, fmap_app. Qed.

Lemma of_key_same k t : of_key k [(t, k)] = [t].
Proof. unfold of_key. rewrite filter_cons_True by done. done. Qed.

Lemma of_key_other k k' t : k ≠ k' → of_key k' [(t, k)] = [].
Proof. intros Hne. unfold of_key. rewrite filter_cons_False by (simpl; congruence). done. Qed.

(** A step on one key leaves the invariant of every other key alone. *)
Lemma key_inv_frame s s' k' :
  waiting_queues s' !! k' = waiting_queues s !! k' →
  (∀ t ph, phases s' !! t = Some (k', ph) ↔ phases s !! t = Some (k', ph)) →
  of_key k' (arrivals s') = of_key k' (arrivals s) →
  of_key k' (starts s') = of_key k' (starts s) →
  key_inv s k' → key_inv s' k'.
Proof.
  intros Hq Hph Ha Hs. unfold key_inv. rewrite Hq, Ha, Hs.
  destruct (waiting_queues s !! k') as [q|].
  - intros (h & ph_h & Hh & Hcase & Hord & Hothers & Hqueue & Hnodup).
    exists h, ph_h. split_and!; try done.
    + by apply Hph.
    + intros t ph Ht. apply Hph in Ht. by apply Hothers.
    + intros t Ht. apply Hph. by apply Hqueue.
  - intros [Hfin Hord]. split; [|done]. intros t ph Ht. apply Hph in Ht. by apply (Hfin t).
Qed.

Lemma arrive_inv t k s :
  phases s !! t = None → (∀ k', key_inv s k') → ∀ k', key_inv (arrive t k s) k'.
Proof.
  intros Hnew Hinv k'. specialize (Hinv k') as Hk'.
  unfold arrive, enter_queue.
  destruct (decide (k' = k)) as [->|Hne].
  - unfold key_inv in *.
    destruct (waiting_queues s !! k) as [q|] eqn:Hq; simpl.
    + rewrite lookup_insert_eq.
      destruct Hk' as (h & ph_h & Hh & Hcase & Hord & Hothers & Hqueue & Hnodup).
      assert (t ≠ h) by congruence.
      exists h, ph_h. split_and!; try done.
      * by rewrite lookup_insert_ne.
      * rewrite of_key_app, of_key_same, Hord. by rewrite <- !app_assoc.
      * intros t' ph. destruct (decide (t' = t)) as [->|Hne'].
        -- rewrite lookup_insert_eq. intros [= <-] _. right. split; [done|].
           apply elem_of_app. right. apply list_elem_of_here.
        -- rewrite lookup_insert_ne by done. intros Ht' Hh'.
           destruct (Hothers _ _ Ht' Hh') as [?|[? ?]]; [by left|right].
           split; [done|]. apply elem_of_app. by left.
      * intros t' [Hin|Hin]%elem_of_app.
        -- rewrite lookup_insert_ne; [by apply Hqueue|].
           intros ->. apply Hqueue in Hin. congruence.
        -- apply list_elem_of_singleton in Hin as ->. by rewrite lookup_insert_eq.
      * apply NoDup_app. split_and!; [done| |apply NoDup_singleton].
        intros t' Hin ->%list_elem_of_singleton. apply Hqueue in Hin. congruence.
    + rewrite lookup_insert_eq. destruct Hk' as [Hfin Hord].
      exists t, Running. split_and!; simpl.
      * by rewrite lookup_insert_eq.
      * by left.
      * rewrite !of_key_app, of_key_same, Hord. by rewrite app_nil_r.
      * intros t' ph Ht' Hne'. rewrite lookup_insert_ne in Ht' by done.
        left. by apply (Hfin t').
      * by intros t' ?%elem_of_nil.
      * constructor.
  - apply (key_inv_frame s); [| | | |done].
    + destruct (waiting_queues s !! k); simpl; by rewrite lookup_insert_ne.
    + intros t' ph. destruct (waiting_queues s !! k); simpl.
      all: destruct (decide (t' = t)) as [->|?];
        [rewrite lookup_insert_eq, Hnew; naive_solver | by rewrite lookup_insert_ne].
    + destruct (waiting_queues s !! k); simpl;
        rewrite of_key_app, of_key_other by done; by rewrite app_nil_r.
    + destruct (waiting_queues s !! k); simpl; [done|].
      rewrite of_key_app, of_key_other by done; by rewrite app_nil_r.
Qed.

(** The holder of a key: a dispatch that is running (or woken) is the one the
    invariant names. *)
Lemma key_inv_holder s k t ph :
  key_inv s k → phases s !! t = Some (k, ph) → ph = Running ∨ ph = Woken ∨ ph = Crashed →
  ∃ q, waiting_queues s !! k = Some q ∧
       of_key k (arrivals s)
       = of_key k (starts s) ++ (if decide (ph = Woken) then [t] else []) ++ default [] q ∧
       (∀ t' ph', phases s !! t' = Some (k, ph') → t' ≠ t →
                  ph' = Finished ∨ (ph' = Waiting ∧ t' ∈ default [] q)) ∧
       (∀ t', t' ∈ default [] q → phases s !! t' = Some (k, Waiting)) ∧
       NoDup (default [] q).
Proof.
  unfold key_inv. intros Hinv Ht Hph.
  destruct (waiting_queues s !! k) as [q|].
  - destruct Hinv as (h & ph_h & Hh & Hcase & Hord & Hothers & Hqueue & Hnodup).
    destruct (decide (t = h)) as [->|Hne].
    + rewrite Hh in Ht. injection Ht as <-. by exists q.
    + destruct (Hothers _ _ Ht Hne) as [->|[-> _]]; naive_solver.
  - destruct Hinv as [Hfin _]. apply Hfin in Ht. naive_solver.
Qed.

Lemma resume_inv t k s :
  phases s !! t = Some (k, Woken) → (∀ k', key_inv s k') → ∀ k', key_inv (resume t k s) k'.
Proof.
  intros Ht Hinv k'. specialize (Hinv k') as Hk'.
  destruct (decide (k' = k)) as [->|Hne].
  - destruct (key_inv_holder _ _ _ _ Hk' Ht) as (q & Hq & Hord & Hothers & Hqueue & Hnodup);
      [by right; left|].
    unfold key_inv, resume. simpl. rewrite Hq.
    exists t, Running. split_and!; simpl; try done.
    + by rewrite lookup_insert_eq.
    + by left.
    + rewrite of_key_app, of_key_same, Hord. simpl. by rewrite <- app_assoc.
    + intros t' ph'. destruct (decide (t' = t)) as [->|?]; [done|].
      rewrite lookup_insert_ne by done. eauto.
    + intros t' Hin. rewrite lookup_insert_ne; [by apply Hqueue|].
      intros ->. apply Hqueue in Hin. congruence.
  - apply (key_inv_frame s); simpl; [done| | |by rewrite of_key_app, of_key_other, app_nil_r|done].
    + intros t' ph. destruct (decide (t' = t)) as [->|?];
        [rewrite lookup_insert_eq, Ht; naive_solver | by rewrite lookup_insert_ne].
    + done.
Qed.

Lemma crash_inv t k s :
  phases s !! t = Some (k, Running) → (∀ k', key_inv s k') → ∀ k', key_inv (crash t k s) k'.
Proof.
  intros Ht Hinv k'. specialize (Hinv k') as Hk'.
  destruct (decide (k' = k)) as [->|Hne].
  - destruct (key_inv_holder _ _ _ _ Hk' Ht) as (q & Hq & Hord & Hothers & Hqueue & Hnodup);
      [by left|].
    unfold key_inv, crash. simpl. rewrite Hq.
    exists t, Crashed. split_and!; simpl; try done.
    + by rewrite lookup_insert_eq.
    + by right; left.
    + intros t' ph'. destruct (decide (t' = t)) as [->|?]; [done|].
      rewrite lookup_insert_ne by done. eauto.
    + intros t' Hin. rewrite lookup_insert_ne; [by apply Hqueue|].
      intros ->. apply Hqueue in Hin. congruence.
  - apply (key_inv_frame s); simpl; [done| |done|done|done].
    intros t' ph. destruct (decide (t' = t)) as [->|?];
      [rewrite lookup_insert_eq, Ht; naive_solver | by rewrite lookup_insert_ne].
Qed.

Lemma finish_inv t k s s' :
  phases s !! t = Some (k, Running) → finish t k s = Some s' →
  (∀ k', key_inv s k') → ∀ k', key_inv s' k'.
Proof.
  intros Ht Hfinish Hinv k'. specialize (Hinv k') as Hk'.
  destruct (key_inv_holder _ _ _ _ (Hinv k) Ht) as (q & Hq & Hord & Hothers & Hqueue & Hnodup);
    [by left|].
  simpl in Hord.
  unfold finish, leave_queue in Hfinish. rewrite Hq in Hfinish.
  destruct (decide (k' = k)) as [->|Hne].
  - destruct q as [[|next rest]|]; injection Hfinish as <-; unfold key_inv; simpl in *.
    + rewrite lookup_delete_eq. split; [|by rewrite Hord, app_nil_r].
      intros t' ph'. destruct (decide (t' = t)) as [->|?].
      * rewrite lookup_insert_eq. by intros [= <-].
      * rewrite lookup_insert_ne by done. intros Ht'.
        destruct (Hothers _ _ Ht') as [?|[_ ?%elem_of_nil]]; done.
    + rewrite lookup_insert_eq.
      assert (next ≠ t).
      { intros ->. specialize (Hqueue t (list_elem_of_here _ _)). congruence. }
      apply NoDup_cons in Hnodup as [Hnotin Hnodup].
      exists next, Woken. split_and!; simpl; try done.
      * by rewrite lookup_insert_eq.
      * by right; right.
      * intros t' ph' Ht' Hne'. rewrite lookup_insert_ne in Ht' by done.
        destruct (decide (t' = t)) as [->|?].
        -- rewrite lookup_insert_eq in Ht'. injection Ht' as <-. by left.
        -- rewrite lookup_insert_ne in Ht' by done.
           destruct (Hothers _ _ Ht') as [?|[? Hin]]; [done|by left|right].
           split; [done|]. apply elem_of_cons in Hin as [?|?]; done.
      * intros t' Hin.
        rewrite !lookup_insert_ne; [apply Hqueue; by apply list_elem_of_further| |].
        -- intros Heq. specialize (Hqueue t' (list_elem_of_further _ _ _ Hin)).
           rewrite Heq in *. congruence.
        -- intros Heq. by rewrite Heq in *.
    + rewrite lookup_delete_eq. split; [|by rewrite Hord, app_nil_r].
      intros t' ph'. destruct (decide (t' = t)) as [->|?].
      * rewrite lookup_insert_eq. by intros [= <-].
      * rewrite lookup_insert_ne by done. intros Ht'.
        destruct (Hothers _ _ Ht') as [?|[_ ?%elem_of_nil]]; done.
  - assert (Hframe : ∀ t' ph, <[t := (k, Finished)]> (phases s) !! t' = Some (k', ph)
                               ↔ phases s !! t' = Some (k', ph)).
    { intros t' ph. destruct (decide (t' = t)) as [->|?];
        [rewrite lookup_insert_eq, Ht; naive_solver | by rewrite lookup_insert_ne]. }
    destruct q as [[|next rest]|]; injection Hfinish as <-;
      apply (key_inv_frame s); simpl; try done;
      try (by rewrite lookup_delete_ne); try (by rewrite lookup_insert_ne).
    intros t' ph. destruct (decide (t' = next)) as [->|?].
    + rewrite lookup_insert_eq, (Hqueue next (list_elem_of_here _ _)). naive_solver.
    + by rewrite lookup_insert_ne.
Qed.

(** A running dispatch can always leave the section: its key is in the
    queues. *)
Lemma finish_possible t k s :
  (∀ k', key_inv s k') → phases s !! t = Some (k, Running) → is_Some (finish t k s).
Proof.
  intros Hinv Ht.
  destruct (key_inv_holder _ _ _ _ (Hinv k) Ht) as (q & Hq & _); [by left|].
  unfold finish, leave_queue. rewrite Hq. destruct q as [[|? ?]|]; eauto.
Qed.

Lemma reachable_inv s : reachable s → ∀ k, key_inv s k.
Proof.
  induction 1 as [|s s' _ IH Hstep].
  - intros k. unfold key_inv. simpl. rewrite lookup_empty. split; [|done].
    intros t ph. by rewrite lookup_empty.
  - destruct Hstep.
    + by apply arrive_inv.
    + by apply resume_inv.
    + by eapply finish_inv.
    + by apply crash_inv.
Qed.


Lemma loop_5_reachable : reachable loop_5.
Proof.
  apply (reachable_step loop_4); [|by apply step_resume].
  apply (reachable_step loop_3); [|by apply (step_finish 1 slow_key)].
  apply (reachable_step loop_2); [|by apply step_arrive].
  apply (reachable_step loop_1); [|by apply step_arrive].
  apply (reachable_step loop_init); [|by apply step_arrive].
  apply reachable_init.
Defined.

Example loop_5_order :
  of_key slow_key (arrivals loop_5) = [1; 2; 3] ∧ of_key slow_key (starts loop_5) = [1; 2] ∧
  running loop_5 2 slow_key ∧ waiting_queues loop_5 !! slow_key = Some (Some [3]).
Proof. by vm_compute. Qed.


(** ** Composing properties of methods *)

Lemma bind_inv {A B} (c : M A) (k : A → M B) w r w' tr :
  bind c k w = (r, w', tr) →
  (∃ a w1 t1 t2, c w = (Done a, w1, t1) ∧ k a w1 = (r, w', t2) ∧ tr = t1 ++ t2) ∨
  (∃ e, c w = (Raise e, w', tr) ∧ r = Raise e) ∨
  (c w = (Blocked, w', tr) ∧ r = Blocked).
Proof.
  unfold bind. destruct (c w) as [[[a|e|] w1] t1].
  - destruct (k a w1) as [[r2 w2] t2] eqn:Hk. intros [= <- <- <-]. left. by exists a, w1, t1, t2.
  - intros [= <- <- <-]. right; left. by exists e.
  - intros [= <- <- <-]. by right; right.
Qed.

Section satisfies.
Context (P : World → World → Prop) (Q : effect → Prop).
Context `{!Reflexive P, !Transitive P}.

Lemma satisfies_ret {A} (a : A) : satisfies P Q (ret a).
Proof. intros w r w' tr [= <- <- <-]. by split. Qed.

Lemma satisfies_raise {A} e : satisfies P Q (@raise A e).
Proof. intros w r w' tr [= <- <- <-]. by split. Qed.

Lemma satisfies_block {A} : satisfies P Q (@block A).
Proof. intros w r w' tr [= <- <- <-]. by split. Qed.

Lemma satisfies_get : satisfies P Q get_manager.
Proof. intros w r w' tr [= <- <- <-]. by split. Qed.

Lemma satisfies_emit x : Q x → satisfies P Q (emit x).
Proof. intros Hx w r w' tr [= <- <- <-]. split; [done|]. by constructor. Qed.

Lemma satisfies_bind {A B} (c : M A) (k : A → M B) :
  satisfies P Q c → (∀ a, satisfies P Q (k a)) → satisfies P Q (bind c k).
Proof.
  intros Hc Hk w r w' tr
    [(a & w1 & t1 & t2 & Hrun & Hrest & ->)|[(e & Hrun & _)|[Hrun _]]]%bind_inv.
  - destruct (Hc _ _ _ _ Hrun) as [? ?]. destruct (Hk _ _ _ _ _ Hrest) as [? ?].
    split; [by etrans|]. by apply Forall_app.
  - by apply (Hc _ _ _ _ Hrun).
  - by apply (Hc _ _ _ _ Hrun).
Qed.

Lemma satisfies_for_each {A} (l : list A) (body : A → M unit) :
  (∀ x, x ∈ l → satisfies P Q (body x)) → satisfies P Q (for_each l body).
Proof.
  induction l as [|x l IH]; intros Hbody; simpl; [apply satisfies_ret|].
  apply satisfies_bind; [apply Hbody, list_elem_of_here|].
  intros _. apply IH. intros y Hy. by apply Hbody, list_elem_of_further.
Qed.

Lemma satisfies_when b (c : M unit) : satisfies P Q c → satisfies P Q (when b c).
Proof. destruct b; [done|]. intros _. apply satisfies_ret. Qed.

Lemma satisfies_try_except {A} (c : M A) (handler : exn → M A) :
  satisfies P Q c → (∀ e, satisfies P Q (handler e)) → satisfies P Q (try_except c handler).
Proof.
  intros Hc Hh w r w' tr. unfold try_except.
  destruct (c w) as [[[a|e|] w1] t1] eqn:Hrun.
  - intros [= <- <- <-]. by apply (Hc _ _ _ _ Hrun).
  - destruct (handler e w1) as [[r2 w2] t2] eqn:Hhandler. intros [= <- <- <-].
    destruct (Hc _ _ _ _ Hrun) as [? ?]. destruct (Hh _ _ _ _ _ Hhandler) as [? ?].
    split; [by etrans|]. by apply Forall_app.
  - intros [= <- <- <-]. by apply (Hc _ _ _ _ Hrun).
Qed.
End satisfies.

Lemma satisfies_modify (P : World → World → Prop) Q f :
  (∀ w, P w (update_manager f w)) → satisfies P Q (modify f).
Proof. intros HP w r w' tr [= <- <- <-]. split; [apply HP|done]. Qed.

Lemma satisfies_fresh (P : World → World → Prop) Q :
  (∀ w, P w {| manager := manager w; next_id := S (next_id w) |}) → satisfies P Q fresh.
Proof. intros HP w r w' tr [= <- <- <-]. split; [apply HP|done]. Qed.

Lemma satisfies_weaken {A} (P P' : World → World → Prop) (Q Q' : effect → Prop) (c : M A) :
  (∀ w w', P w w' → P' w w') → (∀ x, Q x → Q' x) → satisfies P Q c → satisfies P' Q' c.
Proof.
  intros HP HQ Hc w r w' tr Hrun. destruct (Hc _ _ _ _ Hrun) as [? Hall].
  split; [by apply HP|]. eapply Forall_impl; [exact Hall|done].
Qed.

#[local] Instance same_manager_refl : Reflexive same_manager.
Proof. by intros w. Qed.

#[local] Instance same_manager_trans : Transitive same_manager.
Proof. unfold same_manager. intros w1 w2 w3 H1 H2. congruence. Qed.

#[local] Instance any_world_refl : Reflexive any_world.
Proof. done. Qed.

#[local] Instance any_world_trans : Transitive any_world.
Proof. done. Qed.

Lemma satisfies_try_finally {A} (P : World → World → Prop) Q `{!Reflexive P, !Transitive P}
    (c : M A) (f : M unit) :
  satisfies P Q c → satisfies P Q f → satisfies P Q (try_finally c f).
Proof.
  intros Hc Hf w r w' tr. unfold try_finally.
  destruct (c w) as [[[a|e|] w1] t1] eqn:Hrun.
  - destruct (f w1) as [[r2 w2] t2] eqn:Hfin. intros [= <- <- <-].
    destruct (Hc _ _ _ _ Hrun) as [? ?]. destruct (Hf _ _ _ _ Hfin) as [? ?].
    split; [by etrans|]. by apply Forall_app.
  - destruct (f w1) as [[r2 w2] t2] eqn:Hfin. intros [= <- <- <-].
    destruct (Hc _ _ _ _ Hrun) as [? ?]. destruct (Hf _ _ _ _ Hfin) as [? ?].
    split; [by etrans|]. by apply Forall_app.
  - intros [= <- <- <-]. by apply (Hc _ _ _ _ Hrun).
Qed.

(** Applies the composition lemmas as far as the syntax of the method goes. *)
Ltac satisfy_step :=
  lazymatch goal with
  | |- satisfies _ _ (ret _) => apply satisfies_ret
  | |- satisfies _ _ (raise _) => apply satisfies_raise
  | |- satisfies _ _ block => apply satisfies_block
  | |- satisfies _ _ get_manager => apply satisfies_get
  | |- satisfies _ _ (emit _) => apply satisfies_emit
  | |- satisfies _ _ (bind _ _) => apply satisfies_bind
  | |- satisfies _ _ (for_each _ _) => apply satisfies_for_each
  | |- satisfies _ _ (when _ _) => apply satisfies_when
  | |- satisfies _ _ (try_except _ _) => apply satisfies_try_except
  | |- satisfies _ _ (try_finally _ _) => apply satisfies_try_finally
  | |- satisfies _ _ (modify _) => apply satisfies_modify
  | |- satisfies _ _ fresh => apply satisfies_fresh
  | |- satisfies _ _ (if _ then _ else _) => case_match
  | |- satisfies _ _ (match _ with _ => _ end) => case_match
  | |- satisfies _ _ (let '(_, _) := _ in _) => case_match
  | |- Transitive _ => apply _
  | |- Reflexive _ => apply _
  | |- satisfies _ _ _ => fail
  | |- ∀ _, _ => intro
  end.

Ltac satisfy := repeat satisfy_step; try done.

(** ** What the stages of [load_plugin] log and change *)

Lemma prepare_parameters_quiet hook event required ps :
  satisfies eq quiet (_prepare_parameters_from hook event required ps).
Proof.
  revert ps. induction required as [|a rest IH]; intros ps; simpl; [satisfy|].
  destruct (attrs event !! a); [apply IH|satisfy].
Qed.

Lemma send_result_quiet v out : satisfies eq quiet (send_result v out).
Proof. destruct v, out as [|[|??]|[|??]|?]; simpl; satisfy. Qed.

Lemma execute_hook_quiet v env hook event : satisfies eq quiet (_execute_hook v env hook event).
Proof.
  unfold _execute_hook, _execute_hook_prepared, call_function, log_hook_error, _prepare_parameters.
  destruct v; satisfy; try apply prepare_parameters_quiet; try apply send_result_quiet.
Qed.

Lemma sieve_quiet v env sieve event hook : satisfies eq quiet (_sieve v env sieve event hook).
Proof. unfold _sieve. satisfy. Qed.

Lemma run_sieves_quiet v env sieves event hook :
  satisfies eq quiet (run_sieves v env sieves event hook).
Proof.
  revert event. induction sieves as [|sieve rest IH]; intros event; simpl; satisfy.
  apply sieve_quiet.
Qed.

Lemma wants_help_quiet hook event : satisfies eq quiet (wants_help hook event).
Proof. unfold wants_help. satisfy. Qed.

Lemma eq_any {A} (c : M A) Q : satisfies eq Q c → satisfies any_world Q c.
Proof. by apply satisfies_weaken. Qed.

Lemma launch_quiet v env task hook event :
  satisfies any_world quiet (launch v env task hook event).
Proof.
  unfold launch, run_single_thread. satisfy;
    first [apply eq_any, run_sieves_quiet | apply eq_any, wants_help_quiet
          | apply eq_any, execute_hook_quiet].
Qed.

(** A dispatch that returns leaves the world as it found it. *)
Lemma launch_done v env task hook event w b w' tr :
  launch v env task hook event w = (Done b, w', tr) → w' = w.
Proof.
  rewrite launch_run.
  destruct (if skips_sieves v (Hook.type hook) then _ else _) as [[event'|] str];
    [|by intros [= _ <- _]].
  destruct ((wants_help hook event' w).1.1) as [[|]| |]; try by intros [= _ <- _].
  cbv zeta. destruct (_execute_hook v env hook event' w) as [[r1 w1] tr1].
  destruct (Hook.single_thread hook); [|by intros [= _ <- _]].
  destruct (_ !! _); [done|]. destruct r1; try done. by intros [= _ <- _].
Qed.

Lemma run_on_load_hooks_quiet v env task hooks :
  satisfies any_world quiet (run_on_load_hooks v env task hooks).
Proof.
  induction hooks as [|hook rest IH]; simpl; satisfy. apply launch_quiet.
Qed.

Lemma run_on_load_hooks_done v env task hooks w b w' tr :
  run_on_load_hooks v env task hooks w = (Done b, w', tr) → w' = w.
Proof.
  revert w tr. induction hooks as [|hook rest IH]; intros w tr; simpl.
  { by intros [= _ <- _]. }
  intros [(success & w1 & t1 & t2 & Hrun & Hrest & ->)|[(e & _ & ?)|[_ ?]]]%bind_inv;
    try done.
  apply launch_done in Hrun as ->.
  destruct success; [by eapply IH|]. by injection Hrest as _ <- _.
Qed.

Lemma new_hook_quiet v t plugin fh : satisfies same_manager quiet (new_hook v t plugin fh).
Proof. unfold new_hook. satisfy. Qed.

Lemma find_hooks_of_quiet v parent func_hooks ls :
  satisfies same_manager quiet (find_hooks_of v parent func_hooks ls).
Proof.
  revert ls. induction func_hooks as [|[hook_type func_hook] rest IH]; intros ls; simpl; satisfy.
  apply new_hook_quiet.
Qed.

Lemma find_hooks_from_quiet v parent functions ls :
  satisfies same_manager quiet (find_hooks_from v parent functions ls).
Proof.
  revert ls. induction functions as [|func_hooks rest IH]; intros ls; simpl; satisfy.
  apply find_hooks_of_quiet.
Qed.

Lemma new_plugin_quiet v info code : satisfies same_manager quiet (new_plugin v info code).
Proof. unfold new_plugin, find_hooks. satisfy. apply find_hooks_from_quiet. Qed.

Lemma plugin_enabled_quiet v env file_name title :
  satisfies eq quiet (plugin_enabled v env file_name title).
Proof. unfold plugin_enabled. satisfy. Qed.

Lemma create_tables_quiet env info tables : satisfies eq quiet (create_tables env info tables).
Proof. unfold create_tables. satisfy. Qed.

Lemma unregister_tables_quiet info tables : satisfies eq quiet (unregister_tables info tables).
Proof. unfold unregister_tables. satisfy. Qed.

Lemma log_hook_quiet env hook : satisfies eq quiet (_log_hook env hook).
Proof. unfold _log_hook. satisfy. Qed.

Lemma register_hooks_quiet env info ls : satisfies any_world quiet (register_hooks env info ls).
Proof.
  unfold register_hooks, register_command, register_alias, register_raw, register_event,
    register_regex, register_sieve.
  satisfy; try apply eq_any, log_hook_quiet.
Qed.

Lemma unload_quiet v env path : satisfies any_world quiet (_unload v env path).
Proof.
  unfold _unload, unregister_alias, unregister_raw, unregister_event, unregister_regex,
    unregister_sieve.
  satisfy; try apply eq_any, unregister_tables_quiet.
Qed.

(** ** A failed on-load hook *)

Lemma quiet_not_warning v title tr : Forall quiet tr → on_load_warning v title ∉ tr.
Proof.
  rewrite Forall_forall. intros Hall Hin. apply Hall in Hin. by destruct v.
Qed.

Lemma new_plugin_shape v info code w plugin w' tr :
  new_plugin v info code w = (Done plugin, w', tr) →
  Plugin.info plugin = info ∧
  ∃ ls, Plugin.hooks plugin = Some ls ∧
        Plugin.tables ls = match v with cloudbot => module_tables code | obrbot => [] end.
Proof.
  unfold new_plugin.
  intros [(ls & w1 & t1 & t2 & _ & Hret & _)|[(e & _ & ?)|[_ ?]]]%bind_inv; [|done..].
  injection Hret as <- _ _. split; [done|]. by eexists.
Qed.

Lemma unregister_tables_run info tables w :
  ∃ tr, unregister_tables info tables w = (Done tt, w, tr) ∧
        ∀ table, table ∈ tables → MetadataRemove table ∈ tr.
Proof.
  unfold unregister_tables. destruct tables as [|t tables];
    [exists []; split; [done|by intros ? ?%elem_of_nil]|].
  eexists. unfold bind at 1. cbn [emit]. rewrite (for_each_emit MetadataRemove).
  split; [done|].
  intros table Hin. apply list_elem_of_further.
  by apply (list_elem_of_fmap_2 MetadataRemove).
Qed.

(** What [register_plugin] does when the on-load warning is in its trace. *)
Lemma register_plugin_failed v env task plugin w r w' tr ls :
  Plugin.hooks plugin = Some ls →
  register_plugin v env task plugin w = (r, w', tr) →
  on_load_warning v (PluginInfo.title (Plugin.info plugin)) ∈ tr →
  r = Done tt ∧ w' = w ∧
  (v = cloudbot → ∀ table, table ∈ Plugin.tables ls → MetadataRemove table ∈ tr).
Proof.
  intros Hls. unfold register_plugin. rewrite Hls.
  set (title := PluginInfo.title (Plugin.info plugin)).
  intros [(u & w1 & t1 & t2 & Hcreate & Hrest & ->)|[(e & Hcreate & _)|[Hcreate _]]]%bind_inv.
  2,3: assert (satisfies eq quiet (match v with
                  | cloudbot => create_tables env (Plugin.info plugin) (Plugin.tables ls)
                  | obrbot => ret tt end)) as Hq
         by (destruct v; [apply create_tables_quiet|satisfy]);
       destruct (Hq _ _ _ _ Hcreate) as [_ Hquiet]; intros Hin;
       by apply quiet_not_warning in Hin.
  assert (w1 = w ∧ Forall quiet t1) as [-> Hq1].
  { assert (satisfies eq quiet (match v with
              | cloudbot => create_tables env (Plugin.info plugin) (Plugin.tables ls)
              | obrbot => ret tt end)) as Hq
      by (destruct v; [apply create_tables_quiet|satisfy]).
    destruct (Hq _ _ _ _ Hcreate) as [<- ?]. done. }
  apply bind_inv in Hrest
    as [(loaded & w2 & t3 & t4 & Hload & Hrest & ->)|[(e & Hload & _)|[Hload _]]].
  2,3: destruct (run_on_load_hooks_quiet _ _ _ _ _ _ _ _ Hload) as [_ Hq2]; intros Hin;
       apply elem_of_app in Hin as [Hin|Hin]; by apply quiet_not_warning in Hin.
  destruct (run_on_load_hooks_quiet _ _ _ _ _ _ _ _ Hload) as [_ Hq2].
  apply run_on_load_hooks_done in Hload as ->.
  destruct loaded.
  - (* the hooks were registered: no on-load warning *)
    assert (satisfies any_world quiet
              (modify (set_plugins <[PluginInfo.file_name (Plugin.info plugin) := plugin]>) ;;
               register_hooks env (Plugin.info plugin) ls ;;
               modify (set_plugins <[PluginInfo.file_name (Plugin.info plugin) :=
                                       without_run_on_load plugin]>))) as Hq
      by (satisfy; apply register_hooks_quiet).
    destruct (Hq _ _ _ _ Hrest) as [_ Hq4]. intros Hin.
    apply elem_of_app in Hin as [Hin|Hin]; [by apply quiet_not_warning in Hin|].
    apply elem_of_app in Hin as [Hin|Hin]; by apply quiet_not_warning in Hin.
  - intros _. destruct v.
    + destruct (unregister_tables_run (Plugin.info plugin) (Plugin.tables ls) w)
        as (t5 & Hun & Htables).
      unfold bind in Hrest. simpl in Hrest. rewrite Hun in Hrest.
      injection Hrest as <- <- <-. split_and!; [done..|].
      intros _ table Hin. apply elem_of_app. right. apply elem_of_app. right.
      apply list_elem_of_further. by apply Htables.
    + injection Hrest as <- <- <-. by split_and!.
Qed.

(** C2, as the code has it. When [load_plugin] reports that an on-load hook
    failed, it returns normally, and the manager is what it was once the
    previous version of the file (if any) had been unloaded: no hook of the new
    plugin is indexed and the plugin is not in [plugins]. If the file was not
    loaded before, the manager is exactly as before the attempt. In cloudbot
    the tables of the module are unregistered from the metadata again. *)
Theorem failed_on_load_registers_nothing v env task path w r w' tr :
  load_plugin v env task path w = (r, w', tr) →
  on_load_warning v (splitext_root (basename path)) ∈ tr →
  r = Done tt ∧
  manager w' = manager (after_unload v env path w) ∧
  (plugins (manager w) !! basename path = None → manager w' = manager w) ∧
  (∀ code table,
     v = cloudbot →
     import_module env ("plugins." +:+ splitext_root (basename path)) = Returns code →
     table ∈ module_tables code → MetadataRemove table ∈ tr).
Proof.
  unfold load_plugin. set (title := splitext_root (basename path)).
  intros Hrun Hwarn.
  apply bind_inv in Hrun
    as [(enabled & w1 & t1 & t2 & Hen & Hrun & ->)|[(e & Hen & _)|[Hen _]]].
  2,3: destruct (plugin_enabled_quiet _ _ _ _ _ _ _ _ Hen) as [_ Hq];
       by apply quiet_not_warning in Hwarn.
  destruct (plugin_enabled_quiet _ _ _ _ _ _ _ _ Hen) as [<- Hq1].
  apply elem_of_app in Hwarn as [Hwarn|Hwarn]; [by apply quiet_not_warning in Hwarn|].
  destruct enabled; simpl in Hrun.
  2:{ injection Hrun as <- <- <-. by apply elem_of_nil in Hwarn. }
  apply bind_inv in Hrun as [(m & w2 & t3 & t4 & Hget & Hrun & ->)|[(e & ? & _)|[? _]]];
    [|done..].
  injection Hget as <- <- <-. simpl in Hwarn.
  assert (Hunload : ∀ ru wu tu,
            (if bool_decide (is_Some (plugins (manager w) !! basename path))
             then _unload v env (abspath env path) ;; ret tt else ret tt) w = (ru, wu, tu) →
            Forall quiet tu ∧ (ru = Done tt → wu = after_unload v env path w)).
  { intros ru wu tu. unfold after_unload. case_bool_decide.
    - intros [(b & w3 & t5 & t6 & Hun & Hret & ->)|[(e & Hun & ->)|[Hun ->]]]%bind_inv.
      + injection Hret as <- <- <-. destruct (unload_quiet _ _ _ _ _ _ _ Hun) as [_ ?].
        split; [by rewrite app_nil_r|]. by rewrite Hun.
      + by destruct (unload_quiet _ _ _ _ _ _ _ Hun) as [_ ?].
      + by destruct (unload_quiet _ _ _ _ _ _ _ Hun) as [_ ?].
    - by intros [= <- <- <-]. }
  apply bind_inv in Hrun as [(u & wu & tu & t5 & Hun & Hrun & ->)|[(e & Hun & _)|[Hun _]]].
  2,3: destruct (Hunload _ _ _ Hun) as [Hq _]; by apply quiet_not_warning in Hwarn.
  destruct (Hunload _ _ _ Hun) as [Hqu Hwu]. destruct u. specialize (Hwu eq_refl) as ->.
  apply elem_of_app in Hwarn as [Hwarn|Hwarn]; [by apply quiet_not_warning in Hwarn|].
  assert (Hfresh : plugins (manager w) !! basename path = None → after_unload v env path w = w).
  { intros Hnone. unfold after_unload. rewrite bool_decide_eq_false_2; [done|].
    rewrite Hnone. by intros [? ?]. }
  destruct (import_module env ("plugins." +:+ title)) as [code|e] eqn:Himport.
  2:{ injection Hrun as <- <- <-.
      apply list_elem_of_singleton in Hwarn. by destruct v. }
  apply bind_inv in Hrun as [(plugin & wp & tp & t6 & Hnew & Hrun & ->)|[(e & Hnew & _)|[Hnew _]]].
  2,3: destruct (new_plugin_quiet _ _ _ _ _ _ _ Hnew) as [_ Hq];
       by apply quiet_not_warning in Hwarn.
  destruct (new_plugin_quiet _ _ _ _ _ _ _ Hnew) as [Hmgr Hqp].
  apply elem_of_app in Hwarn as [Hwarn|Hwarn]; [by apply quiet_not_warning in Hwarn|].
  destruct (new_plugin_shape _ _ _ _ _ _ _ Hnew) as (Hinfo & ls & Hls & Htables).
  assert (PluginInfo.title (Plugin.info plugin) = title) as Htitle by by rewrite Hinfo.
  rewrite <- Htitle in Hwarn.
  destruct (register_plugin_failed _ _ _ _ _ _ _ _ _ Hls Hrun Hwarn) as (-> & -> & Hremoved).
  split_and!; [done|done| |].
  - intros Hnone. rewrite Hmgr. by rewrite Hfresh.
  - intros code' table -> [= <-] Hin.
    assert (MetadataRemove table ∈ t6) by (apply Hremoved; [done|]; by rewrite Htables).
    rewrite !elem_of_app. tauto.
Qed.

Example greet_loaded_commands :
  Hook.function_name <$> commands (manager greet_loaded) !! "hi" = Some "greet" ∧
  dom (plugins (manager greet_loaded)) = {["greet.py"]}.
Proof. by vm_compute. Qed.

(** C2 as stated fails on a reload: the previous version is unloaded before the
    new one is built, so after the failed attempt the registry is not what it
    was before. *)
Lemma failed_reload_changes_registry :
  ¬ (∀ v env task path w r w' tr,
       load_plugin v env task path w = (r, w', tr) →
       on_load_warning v (splitext_root (basename path)) ∈ tr →
       manager w' = manager w).
Proof.
  intros Hclaim.
  set (run := load_plugin cloudbot (env_with_greet greet_module_2) 0 "plugins/greet.py"
                greet_loaded).
  assert (Hrun : run = (run.1.1, run.1.2, run.2)) by by destruct run as [[? ?] ?].
  assert (Hwarn : on_load_warning cloudbot (splitext_root (basename "plugins/greet.py"))
                    ∈ run.2).
  { vm_compute. repeat constructor. }
  pose proof (Hclaim _ _ _ _ _ _ _ _ Hrun Hwarn) as Hsame.
  assert (Hhi : commands (manager run.1.2) !! "hi" = commands (manager greet_loaded) !! "hi")
    by by rewrite Hsame.
  vm_compute in Hhi. discriminate.
Qed.

Lemma failed_on_load_witness :
  let run := load_plugin cloudbot (env_with_greet greet_module_2) 0 "plugins/greet.py"
               fresh_world in
  run.1.1 = Done tt ∧
  manager run.1.2
  = manager (after_unload cloudbot (env_with_greet greet_module_2) "plugins/greet.py"
               fresh_world) ∧
  (plugins (manager fresh_world) !! basename "plugins/greet.py" = None →
   manager run.1.2 = manager fresh_world) ∧
  (∀ code table,
     cloudbot = cloudbot →
     import_module (env_with_greet greet_module_2)
       ("plugins." +:+ splitext_root (basename "plugins/greet.py")) = Returns code →
     table ∈ module_tables code → MetadataRemove table ∈ run.2).
Proof.
  intros run.
  assert (Hrun : run = (run.1.1, run.1.2, run.2)) by by destruct run as [[? ?] ?].
  assert (Hwarn : on_load_warning cloudbot (splitext_root (basename "plugins/greet.py"))
                    ∈ run.2).
  { vm_compute. repeat constructor. }
  exact (failed_on_load_registers_nothing cloudbot (env_with_greet greet_module_2) 0
           "plugins/greet.py" fresh_world _ _ _ Hrun Hwarn).
Defined.

(** ** More on dispatch *)








Lemma invokes_elem tr : invokes tr = true ↔ ∃ h ps, Call h ps ∈ tr.
Proof.
  unfold invokes. rewrite existsb_exists. split.
  - intros (x & Hin & Hx). destruct x; try done. eexists _, _. by apply list_elem_of_In.
  - intros (h & ps & Hin). exists (Call h ps). split; [by apply list_elem_of_In|done].
Qed.



(** ** The order of the stages *)





(** ** Preparing and closing the event *)

(** cloudbot prepares the event before every execution, and closes it exactly
    when the callable was called (also when the call raised): an execution
    cancelled for a missing parameter leaves the event prepared and not
    closed. *)
Theorem cloudbot_closes_iff_called env hook event w r w' tr :
  _execute_hook cloudbot env hook event w = (r, w', tr) →
  Prepare (Hook.threaded hook) ∈ tr ∧
  (Close (Hook.threaded hook) ∈ tr ↔ invokes tr = true).
Proof.
  rewrite execute_hook_run.
  destruct (first_missing _ _) as [missing|] eqn:Hmiss.
  { intros [= <- <- <-]. split; [set_solver|]. split; [set_solver|done]. }
  destruct (first_missing_bound _ _ Hmiss) as [ps ->].
  destruct (call env _ ps) as [out|e].
  - destruct (send_result cloudbot out w) as [[r1 w2] tr1].
    intros [= <- <- <-]. split; [set_solver|]. split; [done|set_solver].
  - intros [= <- <- <-]. split; [set_solver|]. split; [done|set_solver].
Qed.

Lemma cloudbot_closes_witness :
  Prepare (Hook.threaded chan_command)
    ∈ (_execute_hook cloudbot example_env chan_command event_without_chan fresh_world).2 ∧
  (Close (Hook.threaded chan_command)
     ∈ (_execute_hook cloudbot example_env chan_command event_without_chan fresh_world).2
   ↔ invokes (_execute_hook cloudbot example_env chan_command event_without_chan
                fresh_world).2 = true).
Proof.
  set (run := _execute_hook cloudbot example_env chan_command event_without_chan fresh_world).
  assert (Hrun : run = (run.1.1, run.1.2, run.2)) by by destruct run as [[? ?] ?].
  exact (cloudbot_closes_iff_called example_env chan_command event_without_chan fresh_world
           _ _ _ Hrun).
Defined.

(** ** Missing parameters, in general *)



(** ** More on single-concurrency hooks *)

(** After the execution of a single-concurrency hook, the code that releases
    the key finds it in the wait queues: the lookups do not raise
    [KeyError]. *)
Theorem release_never_fails s t k :
  reachable s → running s t k → ∃ s', finish t k s = Some s' ∧ step s s'.
Proof.
  intros Hreach Hrun.
  destruct (finish_possible t k s (reachable_inv s Hreach) Hrun) as [s' Hs'].
  exists s'. split; [done|]. by apply (step_finish t k).
Qed.

Lemma release_never_fails_witness :
  ∃ s', finish 2 slow_key loop_5 = Some s' ∧ step loop_5 s'.
Proof.
  apply (release_never_fails loop_5 2 slow_key); [apply loop_5_reachable|].
  vm_compute. reflexivity.
Defined.

(** A key is absent from the wait queues exactly when every dispatch of it
    that entered the single-concurrency section has left it: no key is left
    behind, and none is removed under a dispatch that runs or waits. *)
Theorem key_free_iff_idle s k :
  reachable s →
  waiting_queues s !! k = None ↔ (∀ t ph, phases s !! t = Some (k, ph) → ph = Finished).
Proof.
  intros Hreach. pose proof (reachable_inv s Hreach k) as Hinv. unfold key_inv in Hinv.
  destruct (waiting_queues s !! k) as [q|].
  - destruct Hinv as (h & ph_h & Hh & Hcase & _). split; [done|].
    intros Hall. specialize (Hall _ _ Hh). subst ph_h. by destruct Hcase as [?|[?|?]].
  - by destruct Hinv as [Hall _].
Qed.

Lemma key_free_iff_idle_witness :
  waiting_queues loop_5 !! slow_key = None
  ↔ (∀ t ph, phases loop_5 !! t = Some (slow_key, ph) → ph = Finished).
Proof. apply (key_free_iff_idle loop_5 slow_key), loop_5_reachable. Defined.

Lemma crashed_step s s1 h k :
  (∀ k', key_inv s k') → phases s !! h = Some (k, Crashed) → step s s1 →
  phases s1 !! h = Some (k, Crashed) ∧ of_key k (starts s1) = of_key k (starts s).
Proof.
  intros Hinv Hh Hstep.
  destruct (key_inv_holder _ _ _ _ (Hinv k) Hh) as (q & Hq & _ & Hothers & _); [by right; right|].
  assert (Hne : ∀ t k0 ph, phases s !! t = Some (k0, ph) → ph ≠ Crashed → t ≠ h).
  { intros t k0 ph Ht Hph ->. rewrite Hh in Ht. by injection Ht as _ <-. }
  assert (Hidle : ∀ t ph, phases s !! t = Some (k, ph) → ph = Running ∨ ph = Woken → False).
  { intros t ph Ht Hph.
    assert (t ≠ h) as Hth by (apply (Hne t k ph Ht); by destruct Hph as [->| ->]).
    destruct (Hothers _ _ Ht Hth) as [->|[-> _]]; by destruct Hph. }
  destruct Hstep as [t k0 s Hnew|t k0 s Ht|t k0 s s1 Ht Hfin|t k0 s Ht].
  - assert (t ≠ h) by (intros ->; by rewrite Hh in Hnew).
    unfold arrive, enter_queue. destruct (decide (k0 = k)) as [->|Hk].
    + rewrite Hq. simpl. by rewrite lookup_insert_ne.
    + destruct (waiting_queues s !! k0); simpl; rewrite lookup_insert_ne by done;
        (split; [done|]); [done|].
      by rewrite of_key_app, (of_key_other k0 k t Hk), app_nil_r.
  - destruct (decide (k0 = k)) as [->|Hk]; [destruct (Hidle _ _ Ht); by right|].
    assert (t ≠ h) by by apply (Hne t k0 Woken Ht).
    unfold resume. simpl. rewrite lookup_insert_ne by done. split; [done|].
    by rewrite of_key_app, (of_key_other k0 k t Hk), app_nil_r.
  - assert (t ≠ h) by by apply (Hne t k0 Running Ht).
    unfold finish, leave_queue in Hfin.
    pose proof (Hinv k0) as Hk0. unfold key_inv in Hk0.
    destruct (waiting_queues s !! k0) as [[[|next rest]|]|]; simplify_eq/=;
      rewrite ?lookup_insert_ne by done; try done.
    destruct Hk0 as (h0 & ph0 & _ & _ & _ & _ & Hqueue & _).
    assert (next ≠ h).
    { apply (Hne next k0 Waiting); [|done]. apply Hqueue. simpl. apply list_elem_of_here. }
    by rewrite !lookup_insert_ne by done.
  - assert (t ≠ h) by by apply (Hne t k0 Running Ht).
    unfold crash. simpl. by rewrite lookup_insert_ne.
Qed.

(** When an exception has escaped the execution of a single-concurrency hook,
    the key stays taken for good: whatever the loop does next, no execution of
    that key begins again. *)
Theorem crashed_execution_locks_key s s' h k :
  reachable s → phases s !! h = Some (k, Crashed) → rtc step s s' →
  phases s' !! h = Some (k, Crashed) ∧
  of_key k (starts s') = of_key k (starts s) ∧
  (∀ t, ¬ running s' t k).
Proof.
  intros Hreach Hh Hsteps. revert Hreach Hh.
  induction Hsteps as [s|s s1 s' Hstep _ IH]; intros Hreach Hh.
  - split; [done|]. split; [done|]. intros t Ht. unfold running in Ht.
    destruct (key_inv_holder _ _ _ _ (reachable_inv s Hreach k) Hh)
      as (q & _ & _ & Hothers & _); [by right; right|].
    destruct (decide (t = h)) as [->|Hne]; [by rewrite Hh in Ht|].
    destruct (Hothers _ _ Ht Hne) as [?|[? _]]; done.
  - destruct (crashed_step s s1 h k (reachable_inv s Hreach) Hh Hstep) as [Hh1 Hstarts].
    destruct (IH (reachable_step _ _ Hreach Hstep) Hh1) as (? & -> & ?). done.
Qed.

Lemma loop_crashed_reachable : reachable loop_crashed.
Proof.
  apply (reachable_step loop_3); [|by apply step_crash].
  apply (reachable_step loop_2); [|by apply step_arrive].
  apply (reachable_step loop_1); [|by apply step_arrive].
  apply (reachable_step loop_init); [|by apply step_arrive].
  apply reachable_init.
Defined.

Lemma crashed_execution_witness :
  phases loop_after_crash !! 1 = Some (slow_key, Crashed) ∧
  of_key slow_key (starts loop_after_crash) = of_key slow_key (starts loop_crashed) ∧
  (∀ t, ¬ running loop_after_crash t slow_key).
Proof.
  apply (crashed_execution_locks_key loop_crashed loop_after_crash 1 slow_key).
  - apply loop_crashed_reachable.
  - vm_compute. reflexivity.
  - apply rtc_once. by apply step_arrive.
Defined.

(** ** Refused and failed loads *)

(** cloudbot's whitelist or blacklist refuses a plugin before anything else
    happens: one message is logged and the manager is unchanged; a version of
    the file loaded earlier is not unloaded. *)
Theorem cloudbot_policy_refuses_load env task path w pl :
  plugin_loading (config env) = Some pl →
  (if default false (use_whitelist pl)
   then splitext_root (basename path) ∉ default [] (whitelist pl)
   else splitext_root (basename path) ∈ default [] (blacklist pl)) →
  ∃ reason, load_plugin cloudbot env task path w
            = (Done tt, w, [Log INFO reason [AStr (basename path)]]).
Proof.
  intros Hpl Hpolicy. unfold load_plugin, plugin_enabled. rewrite Hpl.
  destruct (default false (use_whitelist pl)).
  - rewrite bool_decide_eq_false_2 by done. by eexists.
  - rewrite bool_decide_eq_true_2 by done. by eexists.
Qed.

Lemma cloudbot_policy_witness :
  ∃ reason, load_plugin cloudbot (blacklist_env ["greet"]) 0 "plugins/greet.py" greet_loaded
            = (Done tt, greet_loaded, [Log INFO reason [AStr (basename "plugins/greet.py")]]).
Proof.
  apply (cloudbot_policy_refuses_load (blacklist_env ["greet"]) 0 "plugins/greet.py" greet_loaded
           {| use_whitelist := None; whitelist := None; blacklist := Some ["greet"] |});
    [reflexivity|].
  vm_compute. repeat constructor.
Defined.

(** When the import of a file that is not loaded fails, [load_plugin] returns
    normally with the manager unchanged and nothing called; it logs the
    failure (or, in cloudbot, the refusal of the plugin by the configured
    policy, which comes first). *)
Theorem failed_import_changes_nothing v env task path w e :
  import_module env ("plugins." +:+ splitext_root (basename path)) = Raises e →
  plugins (manager w) !! basename path = None →
  load_plugin v env task path w
  = (Done tt, w, [Log EXCEPTION "Error loading {}:" [AStr (basename path)]]) ∨
  (v = cloudbot ∧ is_Some (plugin_loading (config env)) ∧
   ∃ reason, load_plugin v env task path w
             = (Done tt, w, [Log INFO reason [AStr (basename path)]])).
Proof.
  intros Himport Hnone. unfold load_plugin.
  assert (Hrest : ∀ w0 : World, w0 = w →
    (let* m := get_manager in
     (if bool_decide (is_Some (plugins m !! basename path))
      then _unload v env (abspath env path);; ret tt else ret tt) ;;
     match import_module env ("plugins." +:+ splitext_root (basename path)) with
     | Returns plugin_module =>
         let* plugin := new_plugin v
           {| PluginInfo.file_path := abspath env path; PluginInfo.file_name := basename path;
              PluginInfo.title := splitext_root (basename path) |} plugin_module in
         register_plugin v env task plugin
     | Raises _ => emit (Log EXCEPTION "Error loading {}:" [AStr (basename path)])
     end) w0 = (Done tt, w, [Log EXCEPTION "Error loading {}:" [AStr (basename path)]])).
  { intros w0 ->. unfold bind at 1. simpl. rewrite Himport, Hnone.
    rewrite bool_decide_eq_false_2 by (by intros [? ?]). done. }
  unfold plugin_enabled.
  destruct v; [|left; unfold bind at 1; simpl; by rewrite Hrest].
  destruct (plugin_loading (config env)) as [pl|] eqn:Hpl;
    [|left; unfold bind at 1; simpl; by rewrite Hrest].
  destruct (default false (use_whitelist pl)); case_bool_decide;
    first [left; unfold bind at 1; simpl; by rewrite Hrest
          |right; split; [done|]; split; [by eexists|]; by eexists].
Qed.

Lemma failed_import_witness :
  load_plugin obrbot example_env 0 "plugins/nothing.py" fresh_world
  = (Done tt, fresh_world,
     [Log EXCEPTION "Error loading {}:" [AStr (basename "plugins/nothing.py")]]) ∨
  (obrbot = cloudbot ∧ is_Some (plugin_loading (config example_env)) ∧
   ∃ reason, load_plugin obrbot example_env 0 "plugins/nothing.py" fresh_world
             = (Done tt, fresh_world, [Log INFO reason [AStr (basename "plugins/nothing.py")]])).
Proof.
  apply (failed_import_changes_nothing obrbot example_env 0 "plugins/nothing.py" fresh_world
           (Exception "ImportError" "No module")); reflexivity.
Defined.

(** ** The aliases of a command hook *)

Lemma remove_first_perm {A} `{EqDecision A} (x : A) (l l' : list A) :
  remove_first x l = Some l' → l ≡ₚ x :: l'.
Proof.
  revert l'. induction l as [|y l IH]; intros l'; simpl; [done|].
  destruct (decide (y = x)) as [->|Hne].
  - by intros [= ->].
  - destruct (remove_first x l) as [rest|]; [|done]. intros [= <-].
    rewrite (IH rest eq_refl). apply Permutation_swap.
Qed.

Lemma remove_first_none {A} `{EqDecision A} (x : A) (l : list A) :
  remove_first x l = None ↔ x ∉ l.
Proof.
  induction l as [|y l IH]; simpl.
  - split; [intros _ ?%elem_of_nil|]; done.
  - destruct (decide (y = x)) as [->|Hne].
    + split; [done|]. intros Hnot. destruct Hnot. apply list_elem_of_here.
    + destruct (remove_first x l) as [rest|].
      * split; [done|]. intros Hnot. exfalso. apply not_elem_of_cons in Hnot as [_ Hnot].
        by apply IH in Hnot.
      * split; [|done]. intros _. apply not_elem_of_cons. split; [done|]. by apply IH.
Qed.

(** The alias list of a command hook is the decorator's alias set without
    repetition, with the main alias moved to the front; when the main alias is
    not in the set, the constructor raises and no hook is built. *)
Theorem command_hook_aliases v plugin fh w r w' tr :
  new_hook v HookType.command plugin fh w = (r, w', tr) →
  if bool_decide (fh_main_alias fh ∈ fh_aliases fh) then
    ∃ hook, r = Done hook ∧
            Hook.name hook = fh_main_alias fh ∧
            head (Hook.aliases hook) = Some (fh_main_alias fh) ∧
            NoDup (Hook.aliases hook) ∧
            (∀ alias, alias ∈ Hook.aliases hook ↔ alias ∈ fh_aliases fh)
  else r = Raise not_in_list ∧ w' = w ∧ tr = [].
Proof.
  unfold new_hook. simpl.
  destruct (remove_first (fh_main_alias fh) (elements (fh_aliases fh))) as [others|] eqn:Hrem.
  - apply remove_first_perm in Hrem as Hperm.
    rewrite bool_decide_eq_true_2
      by (apply elem_of_elements; rewrite Hperm; apply list_elem_of_here).
    unfold bind, fresh, ret, emit. simpl.
    destruct (leftover_kwargs _ _ _); simpl; intros [= <- _ _];
      (eexists; split; [done|]; simpl; split_and!; [done..| |];
       [rewrite <- Hperm; apply NoDup_elements
       |intros alias; by rewrite <- Hperm, elem_of_elements]).
  - apply remove_first_none in Hrem.
    rewrite bool_decide_eq_false_2 by (by rewrite <- elem_of_elements).
    by intros [= <- <- <-].
Qed.

Lemma command_hook_aliases_witness :
  ∃ hook, (new_hook obrbot HookType.command echo_plugin greet_func_hook fresh_world).1.1
          = Done hook ∧
          Hook.name hook = fh_main_alias greet_func_hook ∧
          head (Hook.aliases hook) = Some (fh_main_alias greet_func_hook) ∧
          NoDup (Hook.aliases hook) ∧
          (∀ alias, alias ∈ Hook.aliases hook ↔ alias ∈ fh_aliases greet_func_hook).
Proof.
  set (run := new_hook obrbot HookType.command echo_plugin greet_func_hook fresh_world).
  assert (Hrun : run = (run.1.1, run.1.2, run.2)) by by destruct run as [[? ?] ?].
  exact (command_hook_aliases obrbot echo_plugin greet_func_hook fresh_world _ _ _ Hrun).
Defined.

(** ** Replies split at newlines *)

Lemma split_on_nonempty c s cur : split_on c s cur ≠ [].
Proof.
  revert cur. induction s as [|a s IH]; intros cur; simpl; [done|].
  case_bool_decide; [done|apply IH].
Qed.

Lemma split_on_join c s cur :
  join (String c EmptyString) (split_on c s cur) = cur +:+ s.
Proof.
  revert cur. induction s as [|a s IH]; intros cur; simpl.
  - by rewrite append_empty_r.
  - destruct (bool_decide_reflect (a = c)) as [->|Hne].
    + specialize (IH EmptyString). pose proof (split_on_nonempty c s EmptyString) as Hne.
      destruct (split_on c s EmptyString) as [|line rest]; [done|].
      change (join (String c EmptyString) (cur :: line :: rest))
        with (cur +:+ String c EmptyString +:+ join (String c EmptyString) (line :: rest)).
      by rewrite IH.
    + by rewrite IH, append_char_assoc.
Qed.

Lemma get_append_char cur a c :
  (∀ i, String.get i cur ≠ Some c) → a ≠ c →
  ∀ i, String.get i (cur +:+ String a EmptyString) ≠ Some c.
Proof.
  induction cur as [|b cur IH]; intros Hcur Hne i; simpl.
  - destruct i; simpl; [congruence|done].
  - destruct i; simpl; [apply (Hcur 0)|]. apply IH; [|done]. intros j. apply (Hcur (S j)).
Qed.

Lemma split_on_lines c s cur :
  (∀ i, String.get i cur ≠ Some c) →
  Forall (λ line, ∀ i, String.get i line ≠ Some c) (split_on c s cur).
Proof.
  revert cur. induction s as [|a s IH]; intros cur Hcur; simpl.
  - by constructor.
  - destruct (bool_decide_reflect (a = c)) as [->|Hne].
    + constructor; [done|]. apply IH. by intros [|?].
    + apply IH. by apply get_append_char.
Qed.

(** The lines obrbot sends for a text result are the text cut at its newlines:
    they go out in one [reply], no line contains a newline, and joined by
    newlines they give the text back. *)
Theorem obrbot_reply_lines_round_trip env hook event w parameters text :
  bound_parameters event (Hook.required_args hook) = Some parameters →
  call env (Hook.function hook) parameters = Returns (RObject text) →
  ∃ lines,
    _execute_hook obrbot env hook event w
    = (Done true, w, [Call hook parameters; Reply lines]) ∧
    join (String newline EmptyString) lines = text ∧
    Forall (λ line, ∀ i, String.get i line ≠ Some newline) lines.
Proof.
  intros Hps Hcall. exists (split_lines text).
  rewrite execute_hook_run, (bound_first_missing _ _ _ Hps), Hps, Hcall.
  split; [done|]. unfold split_lines. split.
  - by rewrite split_on_join.
  - apply split_on_lines. by intros [|?].
Qed.

Lemma obrbot_reply_lines_witness :
  ∃ lines,
    _execute_hook obrbot example_env lines_command (command_event "x") fresh_world
    = (Done true, fresh_world, [Call lines_command []; Reply lines]) ∧
    join (String newline EmptyString) lines = two_lines ∧
    Forall (λ line, ∀ i, String.get i line ≠ Some newline) lines.
Proof.
  apply (obrbot_reply_lines_round_trip example_env lines_command (command_event "x")
           fresh_world [] two_lines); reflexivity.
Defined.

(** ** Unloading *)

Lemma filter_all {A} (P : A → Prop) `{∀ x, Decision (P x)} (l : list A) :
  Forall P l → filter P l = l.
Proof.
  induction 1 as [|x l Hx _ IH]; [done|]. by rewrite filter_cons_True, IH.
Qed.

Lemma remove_first_filter {A} `{EqDecision A} (x : A) (l l' : list A) :
  NoDup l → remove_first x l = Some l' → l' = filter (λ y, y ≠ x) l.
Proof.
  intros Hnd. revert l'. induction Hnd as [|y l Hy Hnd IH]; intros l'; simpl; [done|].
  destruct (decide (y = x)) as [->|Hne].
  - intros [= <-]. rewrite filter_cons_False by (by intros ?).
    symmetry. apply filter_all. apply Forall_forall. intros z Hz ->. done.
  - destruct (remove_first x l) as [rest|]; [|done]. intros [= <-].
    rewrite filter_cons_True by done. by rewrite (IH rest eq_refl).
Qed.

Lemma filter_without_one hooks h (l : list Hook.t) :
  filter (λ y, y ≠ h) (without hooks l) = without (hooks ++ [h]) l.
Proof.
  unfold without. rewrite list_filter_filter. apply list_filter_iff.
  intros y. set_solver.
Qed.

Lemma without_nil l : without [] l = l.
Proof. apply filter_all. apply Forall_forall. intros h _. apply not_elem_of_nil. Qed.

Lemma without_absent hooks h l : h ∉ l → without (hooks ++ [h]) l = without hooks l.
Proof.
  intros Hh. rewrite <- filter_without_one. apply filter_all, Forall_forall.
  intros y Hy ->. apply list_elem_of_filter in Hy as [_ Hy]. done.
Qed.

Lemma without_sub hooks l h : h ∈ without hooks l → h ∈ l.
Proof. unfold without. by intros [_ ?]%list_elem_of_filter. Qed.

Lemma NoDup_without hooks l : NoDup l → NoDup (without hooks l).
Proof. apply NoDup_filter. Qed.

(** *** Sieves *)

Lemma unregister_sieve_run sieve_hook w r w' tr :
  unregister_sieve sieve_hook w = (r, w', tr) →
  NoDup (sieves (manager w)) →
  r = Done tt →
  w' = update_manager (set_sieves (filter (λ y, y ≠ sieve_hook))) w ∧ tr = [].
Proof.
  unfold unregister_sieve, bind. simpl.
  destruct (remove_first sieve_hook (sieves (manager w))) as [l|] eqn:Hrem; simpl.
  - intros [= <- <- <-] Hnd _. apply (remove_first_filter _ _ _ Hnd) in Hrem as ->. done.
  - by intros [= <- <- <-] _ ?.
Qed.

Lemma unregister_sieves_run hooks w w' tr :
  for_each hooks unregister_sieve w = (Done tt, w', tr) →
  NoDup (sieves (manager w)) →
  w' = update_manager (set_sieves (without hooks)) w ∧ tr = [].
Proof.
  assert (Hgen : ∀ done w1 w' tr,
    for_each hooks unregister_sieve w1 = (Done tt, w', tr) →
    NoDup (sieves (manager w)) →
    w1 = update_manager (set_sieves (without done)) w →
    w' = update_manager (set_sieves (without (done ++ hooks))) w ∧ tr = []).
  { induction hooks as [|h hooks IH]; intros done w1 w2 tr0; simpl.
    - intros [= <- <-] _ ->. by rewrite app_nil_r.
    - intros [(u & w3 & t1 & t2 & Hone & Hrest & ->)|[(e & _ & ?)|[_ ?]]]%bind_inv Hnd ->;
        [|done..].
      apply unregister_sieve_run in Hone as [-> ->]; [|by apply NoDup_without|by destruct u].
      destruct (IH (done ++ [h]) _ _ _ Hrest Hnd) as [-> ->].
      + unfold update_manager, set_sieves. simpl. by rewrite filter_without_one.
      + split; [|done]. by rewrite <- app_assoc. }
  intros Hrun Hnd. apply (Hgen [] w w' tr Hrun Hnd).
  unfold update_manager, set_sieves. rewrite without_nil. by destruct w as [[] ?].
Qed.

(** *** Regexes *)

Lemma filter_not_in_snoc {A} `{EqDecision A} (xs : list A) (x : A) (l : list A) :
  filter (λ y, y ≠ x) (filter (λ y, y ∉ xs) l) = filter (λ y, y ∉ xs ++ [x]) l.
Proof. rewrite list_filter_filter. apply list_filter_iff. intros y. set_solver. Qed.

Lemma filter_not_in_nil {A} `{EqDecision A} (l : list A) : filter (λ y, y ∉ []) l = l.
Proof. apply filter_all, Forall_forall. intros y _. apply not_elem_of_nil. Qed.

Lemma set_regex_hooks_id w :
  update_manager (set_regex_hooks (λ l, l)) w = w.
Proof. by destruct w as [[] ?]. Qed.

Lemma unregister_regexes_of hook regexes done w1 w w' tr :
  for_each regexes (λ regex_match,
    let* m := get_manager in
    match remove_first (regex_match, hook) (regex_hooks m) with
    | Some l => modify (set_regex_hooks (λ _, l))
    | None => raise not_in_list
    end) w1 = (Done tt, w', tr) →
  NoDup (regex_hooks (manager w)) →
  w1 = update_manager (set_regex_hooks (filter (λ y, y ∉ done))) w →
  w' = update_manager
         (set_regex_hooks (filter (λ y, y ∉ done ++ ((λ r, (r, hook)) <$> regexes)))) w ∧
  tr = [].
Proof.
  revert done w1 tr. induction regexes as [|r regexes IH]; intros done w1 tr; simpl.
  - intros [= <- <-] _ ->. by rewrite app_nil_r.
  - intros [(u & w3 & t1 & t2 & Hone & Hrest & ->)|[(e & _ & ?)|[_ ?]]]%bind_inv Hnd ->;
      [|done..].
    destruct u. unfold bind in Hone. simpl in Hone.
    destruct (remove_first (r, hook) _) as [l|] eqn:Hrem; [|done].
    apply remove_first_filter in Hrem; [|by apply NoDup_filter]. subst l.
    injection Hone as <- <-.
    destruct (IH (done ++ [(r, hook)]) _ _ Hrest Hnd) as [-> ->].
    + unfold update_manager, set_regex_hooks. simpl. by rewrite filter_not_in_snoc.
    + split; [|done]. by rewrite <- app_assoc.
Qed.

(** The registrations of a list of regex hooks. *)
Lemma unregister_regexes_run hooks w w' tr :
  for_each hooks unregister_regex w = (Done tt, w', tr) →
  NoDup (regex_hooks (manager w)) →
  w' = update_manager
         (set_regex_hooks
            (filter (λ y, y ∉ hooks ≫= λ h, (λ r, (r, h)) <$> elements (Hook.regexes h)))) w ∧
  tr = [].
Proof.
  assert (Hgen : ∀ done w1 w' tr,
    for_each hooks unregister_regex w1 = (Done tt, w', tr) →
    NoDup (regex_hooks (manager w)) →
    w1 = update_manager (set_regex_hooks (filter (λ y, y ∉ done))) w →
    w' = update_manager
           (set_regex_hooks
              (filter (λ y, y ∉ done ++
                              (hooks ≫= λ h, (λ r, (r, h)) <$> elements (Hook.regexes h))))) w ∧
    tr = []).
  { induction hooks as [|h hooks IH]; intros done w1 w2 tr0; simpl.
    - intros [= <- <-] _ ->. by rewrite app_nil_r.
    - intros [(u & w3 & t1 & t2 & Hone & Hrest & ->)|[(e & _ & ?)|[_ ?]]]%bind_inv Hnd Hw1;
        [|done..].
      destruct u. unfold unregister_regex in Hone.
      destruct (unregister_regexes_of _ _ _ _ _ _ _ Hone Hnd Hw1) as [-> ->].
      destruct (IH _ _ _ _ Hrest Hnd eq_refl) as [-> ->].
      split; [|done]. by rewrite <- app_assoc. }
  intros Hrun Hnd. apply (Hgen [] w w' tr Hrun Hnd).
  destruct w as [[] ?]. unfold update_manager, set_regex_hooks. cbn -[filter].
  do 2 f_equal. symmetry. apply filter_not_in_nil.
Qed.

Lemma regex_entries_of_hooks (hooks : list Hook.t) (l : list (Regex * Hook.t)) :
  Forall (λ entry, entry.1 ∈ Hook.regexes entry.2) l →
  filter (λ y, y ∉ hooks ≫= λ h, (λ r, (r, h)) <$> elements (Hook.regexes h)) l
  = filter (λ entry, entry.2 ∉ hooks) l.
Proof.
  intros Hwf. induction Hwf as [|[r h] l Hin _ IH]; [done|]. simpl in Hin.
  assert ((r, h) ∈ hooks ≫= (λ h, (λ r, (r, h)) <$> elements (Hook.regexes h)) ↔ h ∈ hooks)
    as Hiff.
  { rewrite list_elem_of_bind. split.
    - intros (h' & [r' [[= -> ->] _]]%list_elem_of_fmap & ?). done.
    - intros Hh. exists h. split; [|done]. apply list_elem_of_fmap. exists r.
      split; [done|]. by apply elem_of_elements. }
  destruct (decide (h ∈ hooks)) as [Hh|Hh].
  - rewrite !filter_cons_False; [done|simpl; tauto|tauto].
  - rewrite !filter_cons_True; [by rewrite IH|simpl; tauto|tauto].
Qed.

(** *** Commands *)

Lemma unregister_aliases_lookup hook aliases w :
  ∃ cmds, for_each aliases (unregister_alias hook) w
          = (Done tt, update_manager (set_commands (λ _, cmds)) w, []) ∧
    (∀ alias x, cmds !! alias = Some x →
       commands (manager w) !! alias = Some x ∧ (x = hook → alias ∉ aliases)) ∧
    (∀ alias x, commands (manager w) !! alias = Some x → x ≠ hook → cmds !! alias = Some x).
Proof.
  revert w. induction aliases as [|a aliases IH]; intros w; simpl.
  - exists (commands (manager w)). split; [by destruct w as [[] ?]|].
    split; [|done]. intros alias x ?. split; [done|]. intros _. apply not_elem_of_nil.
  - unfold bind at 1. unfold unregister_alias at 1. unfold bind at 1. simpl.
    destruct (commands (manager w) !! a) as [registered|] eqn:Ha; simpl.
    + destruct (decide (registered = hook)) as [->|Hne]; simpl.
      * destruct (IH (update_manager (set_commands (delete a)) w)) as (cmds & Hrun & H1 & H2).
        unfold update_manager in Hrun. simpl in Hrun. rewrite Hrun.
        exists cmds. split; [done|]. simpl in H1, H2. split.
        -- intros alias x Hx. destruct (H1 _ _ Hx) as [Hd Hal].
           apply lookup_delete_Some in Hd as [Hna Hd]. split; [done|].
           intros Hxh. apply not_elem_of_cons. split; [done|]. by apply Hal.
        -- intros alias x Hx Hxh. apply H2; [|done]. rewrite lookup_delete_ne; [done|].
           intros <-. congruence.
      * destruct (IH w) as (cmds & Hrun & H1 & H2). rewrite Hrun.
        exists cmds. split; [done|]. split; [|done].
        intros alias x Hx. destruct (H1 _ _ Hx) as [Hd Hal]. split; [done|].
        intros ->. apply not_elem_of_cons. split; [|by apply Hal]. intros ->. congruence.
    + destruct (IH w) as (cmds & Hrun & H1 & H2). rewrite Hrun.
      exists cmds. split; [done|]. split; [|done].
      intros alias x Hx. destruct (H1 _ _ Hx) as [Hd Hal]. split; [done|].
      intros ->. apply not_elem_of_cons. split; [|by apply Hal]. intros ->. congruence.
Qed.

Lemma unregister_command_run hook w :
  (∀ alias, commands (manager w) !! alias = Some hook → alias ∈ Hook.aliases hook) →
  for_each (Hook.aliases hook) (unregister_alias hook) w
  = (Done tt, update_manager (set_commands (filter (λ entry, entry.2 ≠ hook))) w, []).
Proof.
  intros Hwf.
  destruct (unregister_aliases_lookup hook (Hook.aliases hook) w) as (cmds & -> & H1 & H2).
  do 2 f_equal. unfold update_manager, set_commands. do 2 f_equal.
  apply map_eq. intros alias. apply option_eq. intros x.
  rewrite map_lookup_filter_Some. simpl. split.
  - intros Hx. destruct (H1 _ _ Hx) as [Hc Hal]. split; [done|].
    intros ->. apply Hal; [done|]. by apply Hwf.
  - intros [Hc Hne]. by apply H2.
Qed.

Lemma unregister_commands_run hooks w :
  map_Forall (λ alias hook, alias ∈ Hook.aliases hook) (commands (manager w)) →
  for_each hooks (λ command_hook,
    for_each (Hook.aliases command_hook) (unregister_alias command_hook)) w
  = (Done tt, update_manager (set_commands (filter (λ entry, entry.2 ∉ hooks))) w, []).
Proof.
  intros Hwf.
  assert (Hgen : ∀ done w1,
    w1 = update_manager (set_commands (filter (λ entry, entry.2 ∉ done))) w →
    for_each hooks (λ command_hook,
      for_each (Hook.aliases command_hook) (unregister_alias command_hook)) w1
    = (Done tt,
       update_manager (set_commands (filter (λ entry, entry.2 ∉ done ++ hooks))) w, [])).
  { induction hooks as [|h hooks IH]; intros done w1 ->; simpl.
    - by rewrite app_nil_r.
    - unfold bind at 1. rewrite unregister_command_run.
      + rewrite (IH (done ++ [h])).
        * by rewrite <- app_assoc.
        * unfold update_manager, set_commands. simpl. do 2 f_equal.
          rewrite map_filter_filter. apply map_filter_ext. intros alias x _. simpl.
          set_solver.
      + simpl. intros alias [Hc _]%map_lookup_filter_Some. by apply (Hwf alias h). }
  apply (Hgen []). destruct w as [[] ?]. unfold update_manager, set_commands. simpl.
  do 2 f_equal. symmetry. apply map_filter_id. intros alias x _. apply not_elem_of_nil.
Qed.

(** *** Indices from keys to lists of hooks *)

Section keyed.
Context `{Countable K}.
Implicit Types (d : gmap K (list Hook.t)) (h : Hook.t) (k : K).

Lemma non_empty_Some {A} (l : list A) : l ≠ [] → non_empty l = Some l.
Proof. by destruct l. Qed.

Lemma non_empty_inv {A} (l l' : list A) : non_empty l = Some l' → l' = l ∧ l ≠ [].
Proof. destruct l; [done|]. by intros [= <-]. Qed.

Lemma remove_at_lookup k h d d' :
  lists_ok d → remove_at k h d = Returns d' →
  ∀ k', d' !! k' = if decide (k' = k)
                   then d !! k ≫= λ l, non_empty (filter (λ y, y ≠ h) l)
                   else d !! k'.
Proof.
  intros Hok. unfold remove_at. destruct (d !! k) as [l|] eqn:Hk; [|done].
  destruct (Hok _ _ Hk) as [_ Hnd].
  destruct (remove_first h l) as [l'|] eqn:Hrem; [|done].
  apply (remove_first_filter _ _ _ Hnd) in Hrem. subst l'. simpl.
  destruct (filter (λ y, y ≠ h) l) as [|x rest] eqn:Hf; intros [= <-] k';
    destruct (decide (k' = k)) as [->|Hne]; simpl;
    by rewrite ?lookup_delete_eq, ?lookup_delete_ne, ?lookup_insert_eq, ?lookup_insert_ne.
Qed.

Lemma remove_at_ok k h d d' : lists_ok d → remove_at k h d = Returns d' → lists_ok d'.
Proof.
  intros Hok Hrem k' l Hl. rewrite (remove_at_lookup _ _ _ _ Hok Hrem) in Hl.
  destruct (decide (k' = k)) as [->|Hne]; [|by apply (Hok k')].
  destruct (d !! k) as [l0|] eqn:Hk; [|done]. simpl in Hl.
  apply non_empty_inv in Hl as [-> Hne]. split; [done|].
  apply NoDup_filter. by destruct (Hok _ _ Hk).
Qed.

Lemma remove_at_all_lookup ks h d d' :
  NoDup ks → lists_ok d → remove_at_all ks h d = Returns d' →
  lists_ok d' ∧
  ∀ k', d' !! k' = if decide (k' ∈ ks)
                   then d !! k' ≫= λ l, non_empty (filter (λ y, y ≠ h) l)
                   else d !! k'.
Proof.
  intros Hnd. revert d. induction Hnd as [|k ks Hk Hnd IH]; intros d Hok; cbn [remove_at_all].
  - intros [= <-]. split; [done|]. intros k'. by rewrite decide_False by apply not_elem_of_nil.
  - destruct (remove_at k h d) as [d1|] eqn:Hrem; [|done]. intros Hrest.
    pose proof (remove_at_lookup _ _ _ _ Hok Hrem) as H1.
    destruct (IH d1 (remove_at_ok _ _ _ _ Hok Hrem) Hrest) as [Hok' H2].
    split; [done|]. intros k'. rewrite H2, H1.
    destruct (decide (k' = k)) as [->|Hne].
    + rewrite (decide_False (P := k ∈ ks)) by done.
      by rewrite (decide_True (P := k ∈ k :: ks)) by apply list_elem_of_here.
    + destruct (decide (k' ∈ ks)) as [Hin|Hnin].
      * by rewrite (decide_True (P := k' ∈ k :: ks)) by by apply list_elem_of_further.
      * rewrite (decide_False (P := k' ∈ k :: ks)); [done|].
        intros [?|?]%elem_of_cons; done.
Qed.

(** Removing a hook under all the keys it is indexed under prunes it from the
    index. *)
Lemma remove_at_all_prune (keys : gset K) h d d' :
  lists_ok d →
  (∀ k l, d !! k = Some l → h ∈ l → k ∈ keys) →
  remove_at_all (elements keys) h d = Returns d' →
  lists_ok d' ∧ d' = omap (λ l, non_empty (filter (λ y, y ≠ h) l)) d.
Proof.
  intros Hok Hkeys Hrem.
  destruct (remove_at_all_lookup _ _ _ _ (NoDup_elements keys) Hok Hrem) as [Hok' Hlook].
  split; [done|]. apply map_eq. intros k. rewrite Hlook, lookup_omap.
  destruct (decide (k ∈ elements keys)) as [Hin|Hnin]; [done|].
  destruct (d !! k) as [l|] eqn:Hk; [|done]. simpl.
  destruct (Hok _ _ Hk) as [Hne _].
  rewrite filter_all; [by rewrite non_empty_Some|].
  apply Forall_forall. intros y Hy ->. apply Hnin, elem_of_elements. by apply (Hkeys k l).
Qed.

Lemma prune_nil d : lists_ok d → prune [] d = d.
Proof.
  intros Hok. apply map_eq. intros k. unfold prune. rewrite lookup_omap.
  destruct (d !! k) as [l|] eqn:Hk; [|done]. simpl. rewrite without_nil.
  apply non_empty_Some. by destruct (Hok _ _ Hk).
Qed.

Lemma prune_ok hooks d : lists_ok d → lists_ok (prune hooks d).
Proof.
  intros Hok k l. unfold prune. rewrite lookup_omap.
  destruct (d !! k) as [l0|] eqn:Hk; [|done]. simpl.
  intros [-> Hne]%non_empty_inv. split; [done|]. apply NoDup_without. by destruct (Hok _ _ Hk).
Qed.

Lemma prune_lookup hooks d k l :
  prune hooks d !! k = Some l → ∃ l0, d !! k = Some l0 ∧ l = without hooks l0 ∧ l ≠ [].
Proof.
  unfold prune. rewrite lookup_omap. destruct (d !! k) as [l0|]; [|done]. simpl.
  intros [-> ?]%non_empty_inv. by exists l0.
Qed.

Lemma prune_snoc hooks h d :
  omap (λ l, non_empty (filter (λ y, y ≠ h) l)) (prune hooks d) = prune (hooks ++ [h]) d.
Proof.
  apply map_eq. intros k. unfold prune. rewrite !lookup_omap.
  destruct (d !! k) as [l|]; [|done]. simpl. rewrite <- filter_without_one.
  by destruct (without hooks l).
Qed.

Lemma prune_absent hooks h d :
  (∀ k l, d !! k = Some l → h ∉ l) → prune (hooks ++ [h]) d = prune hooks d.
Proof.
  intros Habs. apply map_eq. intros k. unfold prune. rewrite !lookup_omap.
  destruct (d !! k) as [l|] eqn:Hk; [|done]. simpl. by rewrite (without_absent _ _ _ (Habs _ _ Hk)).
Qed.
End keyed.

Section keyed_loops.
Context `{Countable K}.
Context (get : PluginManager → gmap K (list Hook.t)).
Context (set : (gmap K (list Hook.t) → gmap K (list Hook.t)) → PluginManager → PluginManager).
Context (get_set : ∀ f m, get (set f m) = f (get m)).
Context (set_set : ∀ f g m, set g (set f m) = set (λ d, g (f d)) m).
Context (set_get : ∀ m, set (λ _, get m) m = m).
Context (set_ext : ∀ f g m, f (get m) = g (get m) → set f m = set g m).

Lemma remove_keys_run h ks w w' tr :
  for_each ks (λ k,
    let* m := get_manager in
    match remove_at k h (get m) with
    | Returns d => modify (set (λ _, d))
    | Raises e => raise e
    end) w = (Done tt, w', tr) →
  ∃ d', remove_at_all ks h (get (manager w)) = Returns d' ∧
        w' = update_manager (set (λ _, d')) w ∧ tr = [].
Proof.
  revert w tr. induction ks as [|k ks IH]; intros w tr; simpl.
  - intros [= <- <-]. eexists. split; [done|]. split; [|done].
    unfold update_manager. rewrite set_get. by destruct w.
  - intros [(u & w1 & t1 & t2 & Hone & Hrest & ->)|[(e & _ & ?)|[_ ?]]]%bind_inv; [|done..].
    destruct u. unfold bind in Hone. simpl in Hone.
    destruct (remove_at k h (get (manager w))) as [d1|]; [|done].
    injection Hone as <- <-.
    destruct (IH _ _ Hrest) as (d' & Hrem & -> & ->). simpl in Hrem.
    rewrite get_set in Hrem. exists d'. split; [done|]. split; [|done].
    unfold update_manager. simpl. by rewrite set_set.
Qed.

(** One hook, removed under the keys [keys h] it is indexed under. *)
Lemma remove_hook_run (keys : Hook.t → gset K) h done w0 w w' tr :
  for_each (elements (keys h)) (λ k,
    let* m := get_manager in
    match remove_at k h (get m) with
    | Returns d => modify (set (λ _, d))
    | Raises e => raise e
    end) w = (Done tt, w', tr) →
  lists_ok (get (manager w0)) →
  (∀ k l, get (manager w0) !! k = Some l → h ∈ l → k ∈ keys h) →
  w = update_manager (set (prune done)) w0 →
  w' = update_manager (set (prune (done ++ [h]))) w0 ∧ tr = [].
Proof.
  intros Hrun Hok Hkeys ->.
  destruct (remove_keys_run _ _ _ _ _ Hrun) as (d' & Hrem & -> & ->). split; [|done].
  simpl in Hrem. rewrite get_set in Hrem.
  apply remove_at_all_prune in Hrem as [_ ->].
  - unfold update_manager. simpl. rewrite set_set. f_equal. apply set_ext. apply prune_snoc.
  - by apply prune_ok.
  - intros k l (l0 & Hl0 & -> & _)%prune_lookup Hin. apply (Hkeys k l0); [done|].
    by apply without_sub in Hin.
Qed.
End keyed_loops.

(** *** Events *)

Lemma set_event_type_hooks_get m : set_event_type_hooks (λ _, event_type_hooks m) m = m.
Proof. by destruct m. Qed.

Lemma set_event_type_hooks_ext f g m :
  f (event_type_hooks m) = g (event_type_hooks m) →
  set_event_type_hooks f m = set_event_type_hooks g m.
Proof. unfold set_event_type_hooks. by intros ->. Qed.

Lemma unregister_events_run hooks w w' tr :
  for_each hooks unregister_event w = (Done tt, w', tr) →
  map_Forall (λ event_type l, l ≠ [] ∧ NoDup l ∧ Forall (λ h, event_type ∈ Hook.types h) l)
    (event_type_hooks (manager w)) →
  w' = update_manager (set_event_type_hooks (prune hooks)) w ∧ tr = [].
Proof.
  intros Hrun Hwf.
  assert (Hok : lists_ok (event_type_hooks (manager w))).
  { intros k l Hl. destruct (Hwf k l Hl) as (? & ? & _). done. }
  assert (Hkeys : ∀ h k l, event_type_hooks (manager w) !! k = Some l → h ∈ l →
                           k ∈ Hook.types h).
  { intros h k l Hl Hin. destruct (Hwf k l Hl) as (_ & _ & Hall).
    rewrite Forall_forall in Hall. by apply Hall. }
  assert (Hgen : ∀ done w1 w' tr,
    for_each hooks unregister_event w1 = (Done tt, w', tr) →
    w1 = update_manager (set_event_type_hooks (prune done)) w →
    w' = update_manager (set_event_type_hooks (prune (done ++ hooks))) w ∧ tr = []).
  { clear Hrun. induction hooks as [|h hooks IH]; intros done w1 w2 tr0; simpl.
    - intros [= <- <-] ->. by rewrite app_nil_r.
    - intros [(u & w3 & t1 & t2 & Hone & Hrest & ->)|[(e & _ & ?)|[_ ?]]]%bind_inv Hw1;
        [|done..].
      destruct u. unfold unregister_event in Hone.
      destruct (remove_hook_run event_type_hooks set_event_type_hooks
                  (λ _ _, eq_refl) (λ _ _ _, eq_refl)
                  set_event_type_hooks_get set_event_type_hooks_ext
                  Hook.types h done w w1 w3 t1 Hone Hok (Hkeys h) Hw1) as [-> ->].
      destruct (IH _ _ _ _ Hrest eq_refl) as [-> ->]. by rewrite <- app_assoc. }
  apply (Hgen [] w w' tr Hrun).
  destruct w as [[] ?]. unfold update_manager, set_event_type_hooks. simpl in *.
  by rewrite prune_nil.
Qed.

(** *** Raw hooks *)

Lemma set_raw_triggers_get m : set_raw_triggers (λ _, raw_triggers m) m = m.
Proof. by destruct m. Qed.

Lemma set_raw_triggers_ext f g m :
  f (raw_triggers m) = g (raw_triggers m) → set_raw_triggers f m = set_raw_triggers g m.
Proof. unfold set_raw_triggers. by intros ->. Qed.

Lemma unregister_raws_run hooks w w' tr :
  for_each hooks unregister_raw w = (Done tt, w', tr) →
  map_Forall (λ trigger l,
      l ≠ [] ∧ NoDup l ∧
      Forall (λ h, trigger ∈ Hook.triggers h ∧ Hook.is_catch_all h = false) l)
    (raw_triggers (manager w)) →
  NoDup (catch_all_triggers (manager w)) →
  Forall (λ h, Hook.is_catch_all h = true) (catch_all_triggers (manager w)) →
  w' = update_manager
         (λ m, set_catch_all_triggers (without hooks) (set_raw_triggers (prune hooks) m)) w ∧
  tr = [].
Proof.
  intros Hrun Hwf Hnd Hall.
  assert (Hok : lists_ok (raw_triggers (manager w))).
  { intros k l Hl. destruct (Hwf k l Hl) as (? & ? & _). done. }
  assert (Hmem : ∀ h k l, raw_triggers (manager w) !! k = Some l → h ∈ l →
                          k ∈ Hook.triggers h ∧ Hook.is_catch_all h = false).
  { intros h k l Hl Hin. destruct (Hwf k l Hl) as (_ & _ & Hmem).
    rewrite Forall_forall in Hmem. by apply Hmem. }
  rewrite Forall_forall in Hall.
  assert (Hgen : ∀ done w1 w' tr,
    for_each hooks unregister_raw w1 = (Done tt, w', tr) →
    w1 = update_manager
           (λ m, set_catch_all_triggers (without done) (set_raw_triggers (prune done) m)) w →
    w' = update_manager
           (λ m, set_catch_all_triggers (without (done ++ hooks))
                   (set_raw_triggers (prune (done ++ hooks)) m)) w ∧ tr = []).
  { clear Hrun. induction hooks as [|h hooks IH]; intros done w1 w2 tr0; simpl.
    - intros [= <- <-] ->. by rewrite app_nil_r.
    - intros [(u & w3 & t1 & t2 & Hone & Hrest & ->)|[(e & _ & ?)|[_ ?]]]%bind_inv Hw1;
        [|done..].
      destruct u. unfold unregister_raw in Hone.
      destruct (Hook.is_catch_all h) eqn:Hcatch.
      + (* a catch-all hook: in no list of [raw_triggers] *)
        subst w1. unfold bind in Hone. simpl in Hone.
        destruct (remove_first h (without done (catch_all_triggers (manager w))))
          as [l|] eqn:Hrem; [|done].
        apply remove_first_filter in Hrem; [|by apply NoDup_without]. subst l.
        injection Hone as <- <-.
        assert (Hp : prune (done ++ [h]) (raw_triggers (manager w))
                     = prune done (raw_triggers (manager w))).
        { apply prune_absent. intros k l Hl Hin.
          destruct (Hmem h k l Hl Hin) as [_ ?]. congruence. }
        destruct (IH (done ++ [h]) _ _ _ Hrest) as [-> ->].
        * unfold update_manager, set_catch_all_triggers, set_raw_triggers.
          cbn [manager next_id plugins commands raw_triggers catch_all_triggers
               event_type_hooks regex_hooks sieves _hook_waiting_queues].
          by rewrite Hp, filter_without_one.
        * by rewrite <- app_assoc.
      + (* an ordinary raw hook: not in the catch-all list *)
        assert (Hw1' : w1 = update_manager (set_raw_triggers (prune done))
                              (update_manager (set_catch_all_triggers (without done)) w))
          by by subst w1.
        destruct (remove_hook_run raw_triggers set_raw_triggers
                    (λ _ _, eq_refl) (λ _ _ _, eq_refl)
                    set_raw_triggers_get set_raw_triggers_ext
                    Hook.triggers h done
                    (update_manager (set_catch_all_triggers (without done)) w)
                    w1 w3 t1 Hone Hok
                    (λ k l Hl Hin, proj1 (Hmem h k l Hl Hin)) Hw1') as [-> ->].
        assert (Hc : without (done ++ [h]) (catch_all_triggers (manager w))
                     = without done (catch_all_triggers (manager w))).
        { apply without_absent. intros Hin. apply Hall in Hin. congruence. }
        destruct (IH (done ++ [h]) _ _ _ Hrest) as [-> ->].
        * unfold update_manager, set_catch_all_triggers, set_raw_triggers.
          cbn [manager next_id plugins commands raw_triggers catch_all_triggers
               event_type_hooks regex_hooks sieves _hook_waiting_queues].
          by rewrite Hc.
        * by rewrite <- app_assoc. }
  apply (Hgen [] w w' tr Hrun).
  destruct w as [[] ?]. unfold update_manager, set_catch_all_triggers, set_raw_triggers.
  simpl in *. by rewrite prune_nil, without_nil.
Qed.

(** *** The whole of [_unload] *)

Lemma when_emit_run b x w : ∃ t, when b (emit x) w = (Done tt, w, t).
Proof. destruct b; by eexists. Qed.

Lemma unload_run v env path w w' tr :
  _unload v env path w = (Done true, w', tr) →
  well_indexed (manager w) →
  ∃ plugin ls,
    is_disabled env (splitext_root (basename path)) = false ∧
    plugins (manager w) !! basename path = Some plugin ∧
    Plugin.hooks plugin = Some ls ∧
    w' = update_manager (unloaded (PluginInfo.file_name (Plugin.info plugin)) ls) w.
Proof.
  intros Hrun (Hcmd & Hraw & [Hcnd Hcall] & Hev & [Hrnd Hrmem] & Hsnd).
  unfold _unload in Hrun.
  destruct (is_disabled env (splitext_root (basename path))); [done|].
  apply bind_inv in Hrun as [(m & w0 & t0 & t0' & Hget & Hrun & ->)|[(e & ? & _)|[? _]]];
    [|done..].
  injection Hget as <- <- <-.
  destruct (plugins (manager w) !! basename path) as [plugin|]; [|done].
  destruct (Plugin.hooks plugin) as [ls|] eqn:Hls; [|done].
  exists plugin, ls. split_and!; [done..|].
  apply bind_inv in Hrun as [(u1 & w1 & t1 & t1' & H1 & Hrun & ->)|[(e & ? & ?)|[? ?]]];
    [|done..].
  rewrite (unregister_commands_run _ _ Hcmd) in H1. injection H1 as <- <- <-.
  apply bind_inv in Hrun as [(u2 & w2 & t2 & t2' & H2 & Hrun & ->)|[(e & ? & ?)|[? ?]]];
    [|done..]. destruct u2.
  apply unregister_raws_run in H2 as [-> ->]; [|done..].
  apply bind_inv in Hrun as [(u3 & w3 & t3 & t3' & H3 & Hrun & ->)|[(e & ? & ?)|[? ?]]];
    [|done..]. destruct u3.
  apply unregister_events_run in H3 as [-> ->]; [|done].
  apply bind_inv in Hrun as [(u4 & w4 & t4 & t4' & H4 & Hrun & ->)|[(e & ? & ?)|[? ?]]];
    [|done..]. destruct u4.
  apply unregister_regexes_run in H4 as [-> ->]; [|done].
  apply bind_inv in Hrun as [(u5 & w5 & t5 & t5' & H5 & Hrun & ->)|[(e & ? & ?)|[? ?]]];
    [|done..]. destruct u5.
  apply unregister_sieves_run in H5 as [-> ->]; [|done].
  apply bind_inv in Hrun as [(u6 & w6 & t6 & t6' & H6 & Hrun & ->)|[(e & ? & ?)|[? ?]]];
    [|done..].
  assert (w6 = update_manager (set_sieves (without (Plugin.sieves ls)))
             (update_manager
                (set_regex_hooks
                   (filter (λ y, y ∉ Plugin.regexes ls ≫=
                                   λ h, (λ r, (r, h)) <$> elements (Hook.regexes h))))
                (update_manager (set_event_type_hooks (prune (Plugin.events ls)))
                   (update_manager
                      (λ m, set_catch_all_triggers (without (Plugin.raw_hooks ls))
                              (set_raw_triggers (prune (Plugin.raw_hooks ls)) m))
                      (update_manager
                         (set_commands (filter (λ entry, entry.2 ∉ Plugin.commands ls)))
                         w))))) as ->
      by (destruct v; [|by injection H6 as <- <-];
          match type of H6 with
          | unregister_tables ?i ?t ?w0 = _ =>
              destruct (unregister_tables_run i t w0) as (? & Heq & _);
              rewrite Heq in H6; by injection H6 as <- <-
          end).
  apply bind_inv in Hrun as [(u7 & w7 & t7 & t7' & H7 & Hrun & ->)|[(e & ? & ?)|[? ?]]];
    [|done..]. injection H7 as <- <- <-.
  apply bind_inv in Hrun as [(u8 & w8 & t8 & t8' & H8 & Hrun & ->)|[(e & ? & ?)|[? ?]]];
    [|done..].
  match type of H8 with
    | when ?b (emit ?x) ?w0 = _ =>
        destruct (when_emit_run b x w0) as (? & Heq); rewrite Heq in H8;
        injection H8 as <- <-
    end.
  injection Hrun as <- <-.
  clear -Hrmem. destruct w as [[pl cm rt ca ev rx sv q] n].
  cbv [unloaded update_manager set_plugins set_sieves set_regex_hooks
       set_event_type_hooks set_catch_all_triggers set_raw_triggers set_commands
       manager next_id plugins commands raw_triggers catch_all_triggers
       event_type_hooks regex_hooks sieves _hook_waiting_queues] in *.
  by rewrite (regex_entries_of_hooks _ _ Hrmem).
Qed.

Lemma Forall_filter_sub {A} (P Q : A → Prop) `{∀ x, Decision (Q x)} (l : list A) :
  Forall P l → Forall P (filter Q l).
Proof.
  rewrite !Forall_forall. intros Hall x [_ Hx]%list_elem_of_filter. by apply Hall.
Qed.

Lemma unloaded_well_indexed name ls m : well_indexed m → well_indexed (unloaded name ls m).
Proof.
  intros (Hcmd & Hraw & [Hcnd Hcall] & Hev & [Hrnd Hrmem] & Hsnd).
  unfold well_indexed, unloaded.
  cbn [plugins commands raw_triggers catch_all_triggers event_type_hooks regex_hooks sieves
       _hook_waiting_queues].
  split_and!.
  - intros alias h [Hh _]%map_lookup_filter_Some. by apply (Hcmd alias).
  - intros k l (l0 & Hl0 & -> & Hne)%prune_lookup.
    destruct (Hraw k l0 Hl0) as (_ & Hnd & Hall).
    split_and!; [done|by apply NoDup_without|by apply Forall_filter_sub].
  - by apply NoDup_without.
  - by apply Forall_filter_sub.
  - intros k l (l0 & Hl0 & -> & Hne)%prune_lookup.
    destruct (Hev k l0 Hl0) as (_ & Hnd & Hall).
    split_and!; [done|by apply NoDup_without|by apply Forall_filter_sub].
  - by apply NoDup_filter.
  - by apply Forall_filter_sub.
  - by apply NoDup_without.
Qed.

Lemma indexed_prune `{Countable K} hooks (d : gmap K (list Hook.t)) k h :
  indexed (prune hooks d) k h ↔ indexed d k h ∧ h ∉ hooks.
Proof.
  unfold indexed. split.
  - intros (l & (l0 & Hl0 & -> & _)%prune_lookup & Hin).
    apply list_elem_of_filter in Hin as [? ?]. split; [|done]. by exists l0.
  - intros [(l & Hl & Hin) Hh]. exists (without hooks l).
    assert (h ∈ without hooks l) as Hin' by by apply list_elem_of_filter.
    split; [|done]. unfold prune. rewrite lookup_omap, Hl. simpl.
    apply non_empty_Some. intros Hnil. rewrite Hnil in Hin'. by apply elem_of_nil in Hin'.
Qed.

(** From a well-indexed registry, a successful [_unload] removes the plugin
    and every registration of its hooks, and nothing else: an alias, trigger,
    event type, regex or sieve is registered afterwards exactly if it was
    before with a hook that is not the plugin's. *)
Theorem unload_removes_the_plugin_hooks v env path w w' tr :
  _unload v env path w = (Done true, w', tr) →
  well_indexed (manager w) →
  ∃ plugin ls,
    plugins (manager w) !! basename path = Some plugin ∧
    Plugin.hooks plugin = Some ls ∧
    plugins (manager w') = delete (PluginInfo.file_name (Plugin.info plugin)) (plugins (manager w)) ∧
    (∀ alias h, commands (manager w') !! alias = Some h ↔
                commands (manager w) !! alias = Some h ∧ h ∉ Plugin.commands ls) ∧
    (∀ trigger h, indexed (raw_triggers (manager w')) trigger h ↔
                  indexed (raw_triggers (manager w)) trigger h ∧ h ∉ Plugin.raw_hooks ls) ∧
    (∀ h, h ∈ catch_all_triggers (manager w') ↔
          h ∈ catch_all_triggers (manager w) ∧ h ∉ Plugin.raw_hooks ls) ∧
    (∀ event_type h, indexed (event_type_hooks (manager w')) event_type h ↔
                     indexed (event_type_hooks (manager w)) event_type h ∧
                     h ∉ Plugin.events ls) ∧
    (∀ regex h, (regex, h) ∈ regex_hooks (manager w') ↔
                (regex, h) ∈ regex_hooks (manager w) ∧ h ∉ Plugin.regexes ls) ∧
    (∀ h, h ∈ sieves (manager w') ↔ h ∈ sieves (manager w) ∧ h ∉ Plugin.sieves ls).
Proof.
  intros Hrun Hwf.
  destruct (unload_run _ _ _ _ _ _ Hrun Hwf) as (plugin & ls & _ & Hplugin & Hls & ->).
  exists plugin, ls. split_and!; [done..| | | | | |].
  - intros alias h. simpl. by rewrite map_lookup_filter_Some.
  - intros trigger h. apply indexed_prune.
  - intros h. simpl. unfold without. by rewrite list_elem_of_filter, (comm and).
  - intros event_type h. apply indexed_prune.
  - intros regex h. simpl. by rewrite list_elem_of_filter, (comm and).
  - intros h. simpl. unfold without. by rewrite list_elem_of_filter, (comm and).
Qed.

(** A successful [_unload] keeps the registry well indexed, and the indices
    are those before with the plugin's hooks filtered out: the order of the
    remaining registrations is unchanged. *)
Theorem unload_keeps_registry_well_indexed v env path w w' tr :
  _unload v env path w = (Done true, w', tr) →
  well_indexed (manager w) →
  well_indexed (manager w') ∧
  ∃ plugin ls,
    plugins (manager w) !! basename path = Some plugin ∧
    Plugin.hooks plugin = Some ls ∧
    manager w' = unloaded (PluginInfo.file_name (Plugin.info plugin)) ls (manager w).
Proof.
  intros Hrun Hwf.
  destruct (unload_run _ _ _ _ _ _ Hrun Hwf) as (plugin & ls & _ & Hplugin & Hls & ->).
  split; [by apply unloaded_well_indexed|]. by exists plugin, ls.
Qed.

Lemma full_loaded_well_indexed v : well_indexed (manager (full_loaded v)).
Proof.
  unfold well_indexed. destruct v; split_and!; compute_done.
Qed.

Lemma unload_removes_witness :
  let w := full_loaded cloudbot in
  let w' := (_unload cloudbot full_env "plugins/full.py" w).1.2 in
  ∃ plugin ls,
    plugins (manager w) !! basename "plugins/full.py" = Some plugin ∧
    Plugin.hooks plugin = Some ls ∧
    plugins (manager w') = delete (PluginInfo.file_name (Plugin.info plugin)) (plugins (manager w)) ∧
    (∀ alias h, commands (manager w') !! alias = Some h ↔
                commands (manager w) !! alias = Some h ∧ h ∉ Plugin.commands ls) ∧
    (∀ trigger h, indexed (raw_triggers (manager w')) trigger h ↔
                  indexed (raw_triggers (manager w)) trigger h ∧ h ∉ Plugin.raw_hooks ls) ∧
    (∀ h, h ∈ catch_all_triggers (manager w') ↔
          h ∈ catch_all_triggers (manager w) ∧ h ∉ Plugin.raw_hooks ls) ∧
    (∀ event_type h, indexed (event_type_hooks (manager w')) event_type h ↔
                     indexed (event_type_hooks (manager w)) event_type h ∧
                     h ∉ Plugin.events ls) ∧
    (∀ regex h, (regex, h) ∈ regex_hooks (manager w') ↔
                (regex, h) ∈ regex_hooks (manager w) ∧ h ∉ Plugin.regexes ls) ∧
    (∀ h, h ∈ sieves (manager w') ↔ h ∈ sieves (manager w) ∧ h ∉ Plugin.sieves ls).
Proof.
  intros w w'. subst w'.
  set (run := _unload cloudbot full_env "plugins/full.py" w).
  assert (Hrun : run = (Done true, run.1.2, run.2)) by (vm_compute; reflexivity).
  apply (unload_removes_the_plugin_hooks cloudbot full_env "plugins/full.py" w _ _ Hrun).
  unfold well_indexed. split_and!; compute_done.
Defined.

Lemma unload_keeps_witness :
  let w := full_loaded obrbot in
  let w' := (_unload obrbot full_env "plugins/full.py" w).1.2 in
  well_indexed (manager w') ∧
  ∃ plugin ls,
    plugins (manager w) !! basename "plugins/full.py" = Some plugin ∧
    Plugin.hooks plugin = Some ls ∧
    manager w' = unloaded (PluginInfo.file_name (Plugin.info plugin)) ls (manager w).
Proof.
  intros w w'. subst w'.
  set (run := _unload obrbot full_env "plugins/full.py" w).
  assert (Hrun : run = (Done true, run.1.2, run.2)) by (vm_compute; reflexivity).
  apply (unload_keeps_registry_well_indexed obrbot full_env "plugins/full.py" w _ _ Hrun).
  unfold well_indexed. split_and!; compute_done.
Defined.

(** ** Unloading does not fail *)

Lemma remove_first_Some {A} `{EqDecision A} (x : A) (l : list A) :
  x ∈ l → is_Some (remove_first x l).
Proof.
  intros Hin. destruct (remove_first x l) eqn:Hrem; [by eexists|].
  by apply remove_first_none in Hrem.
Qed.

Lemma unregister_sieves_ok hooks w :
  NoDup (sieves (manager w)) → NoDup hooks → Forall (λ h, h ∈ sieves (manager w)) hooks →
  for_each hooks unregister_sieve w
  = (Done tt, update_manager (set_sieves (without hooks)) w, []).
Proof.
  intros Hnd Hhooks Hin.
  cut (∃ w' tr, for_each hooks unregister_sieve w = (Done tt, w', tr)).
  { intros (w' & tr & Hrun). by destruct (unregister_sieves_run _ _ _ _ Hrun Hnd) as [-> ->]. }
  revert w Hnd Hin. induction Hhooks as [|h hooks Hh Hhooks IH]; intros w Hnd Hin; simpl.
  { by eexists _, _. }
  apply Forall_cons in Hin as [Hhin Hin].
  destruct (remove_first_Some h _ Hhin) as [l Hrem].
  assert (Hone : unregister_sieve h w = (Done tt, update_manager (set_sieves (λ _, l)) w, [])).
  { unfold unregister_sieve, bind. simpl. by rewrite Hrem. }
  apply (remove_first_filter _ _ _ Hnd) in Hrem. subst l.
  destruct (IH (update_manager (set_sieves (λ _, filter (λ y, y ≠ h) (sieves (manager w)))) w))
    as (w' & tr & Hrest).
  - simpl. by apply NoDup_filter.
  - simpl. rewrite Forall_forall in Hin |- *. intros y Hy.
    apply list_elem_of_filter. split; [by intros ->|by apply Hin].
  - exists w', tr. by rewrite (bind_done _ _ _ _ _ _ Hone), Hrest.
Qed.

Lemma unregister_regexes_ok hooks w :
  NoDup (regex_hooks (manager w)) → NoDup hooks →
  Forall (λ h, ∀ regex, regex ∈ Hook.regexes h → (regex, h) ∈ regex_hooks (manager w)) hooks →
  for_each hooks unregister_regex w
  = (Done tt, update_manager (set_regex_hooks (filter (λ y, y ∉ regex_entries hooks))) w, []).
Proof.
  intros Hnd Hhooks Hin.
  cut (∃ w' tr, for_each hooks unregister_regex w = (Done tt, w', tr)).
  { intros (w' & tr & Hrun). by destruct (unregister_regexes_run _ _ _ _ Hrun Hnd) as [-> ->]. }
  assert (Hinner : ∀ h regexes w,
    NoDup (regex_hooks (manager w)) → NoDup regexes →
    (∀ r, r ∈ regexes → (r, h) ∈ regex_hooks (manager w)) →
    ∃ l, for_each regexes (λ regex_match,
           let* m := get_manager in
           match remove_first (regex_match, h) (regex_hooks m) with
           | Some l => modify (set_regex_hooks (λ _, l))
           | None => raise not_in_list
           end) w = (Done tt, update_manager (set_regex_hooks (λ _, l)) w, []) ∧
         NoDup l ∧
         ∀ entry, entry ∈ l ↔ entry ∈ regex_hooks (manager w) ∧
                              ¬ (entry.2 = h ∧ entry.1 ∈ regexes)).
  { intros h regexes. induction regexes as [|r regexes IH]; intros w0 Hnd0 Hrs Hpresent; simpl.
    - exists (regex_hooks (manager w0)). split; [by destruct w0 as [[] ?]|]. split; [done|].
      intros entry. split; [|by intros [? _]]. intros ?. split; [done|].
      intros [_ ?%elem_of_nil]. done.
    - apply NoDup_cons in Hrs as [Hr Hrs].
      destruct (remove_first_Some (r, h) _ (Hpresent r (list_elem_of_here _ _))) as [l Hrem].
      pose proof (remove_first_filter _ _ _ Hnd0 Hrem) as ->.
      destruct (IH (update_manager
                      (set_regex_hooks (λ _, filter (λ y, y ≠ (r, h)) (regex_hooks (manager w0))))
                      w0)) as (l' & Hrun & Hnd' & Hl').
      + simpl. by apply NoDup_filter.
      + done.
      + intros r' Hr'. simpl. apply list_elem_of_filter. split.
        * intros [= ->]. done.
        * apply Hpresent. by apply list_elem_of_further.
      + exists l'. split; [|split; [done|]].
        * unfold bind at 1. unfold bind at 1. simpl. rewrite Hrem. simpl.
          unfold update_manager in Hrun. simpl in Hrun. by rewrite Hrun.
        * intros entry. rewrite Hl'. simpl. rewrite list_elem_of_filter, elem_of_cons.
          destruct entry as [r0 h0]. simpl. split.
          -- intros [[Hne Hin0] Hnot]. split; [done|]. intros [-> [->|?]]; [done|].
             by apply Hnot.
          -- intros [Hin0 Hnot]. split; [split; [|done]|].
             ++ intros [= -> ->]. apply Hnot. by split; [|left].
             ++ intros [-> ?]. apply Hnot. by split; [|right]. }
  revert w Hnd Hin. induction Hhooks as [|h hooks Hh Hhooks IH]; intros w Hnd Hin; simpl.
  { by eexists _, _. }
  apply Forall_cons in Hin as [Hhin Hin].
  destruct (Hinner h (elements (Hook.regexes h)) w Hnd (NoDup_elements _))
    as (l & Hone & Hndl & Hl).
  { intros r Hr. apply Hhin. by apply elem_of_elements. }
  destruct (IH (update_manager (set_regex_hooks (λ _, l)) w)) as (w' & tr & Hrest).
  - done.
  - simpl. rewrite Forall_forall in Hin |- *. intros y Hy r Hr. apply Hl.
    split; [by apply Hin|]. simpl. intros [-> _]. done.
  - exists w', tr. unfold unregister_regex at 1.
    by rewrite (bind_done _ _ _ _ _ _ Hone), Hrest.
Qed.

Section keyed_ok.
Context `{Countable K}.
Implicit Types (d : gmap K (list Hook.t)) (h : Hook.t) (k : K).

Lemma remove_at_all_ok ks h d :
  lists_ok d → NoDup ks → (∀ k, k ∈ ks → indexed d k h) →
  ∃ d', remove_at_all ks h d = Returns d'.
Proof.
  intros Hok Hnd. revert d Hok. induction Hnd as [|k ks Hk Hnd IH]; intros d Hok Hin;
    cbn [remove_at_all]; [by eexists|].
  destruct (Hin k (list_elem_of_here _ _)) as (l & Hl & Hhl).
  destruct (remove_first_Some h l Hhl) as [l' Hrem].
  assert (∃ d1, remove_at k h d = Returns d1) as [d1 Hd1].
  { unfold remove_at. rewrite Hl, Hrem. destruct l'; by eexists. }
  rewrite Hd1. apply IH; [by eapply remove_at_ok|].
  intros k' Hk'. destruct (Hin k' (list_elem_of_further _ _ _ Hk')) as (l0 & Hl0 & Hh0).
  exists l0. split; [|done]. rewrite (remove_at_lookup _ _ _ _ Hok Hd1).
  rewrite decide_False; [done|]. by intros ->.
Qed.

Context (get : PluginManager → gmap K (list Hook.t)).
Context (set : (gmap K (list Hook.t) → gmap K (list Hook.t)) → PluginManager → PluginManager).
Context (get_set : ∀ f m, get (set f m) = f (get m)).
Context (set_set : ∀ f g m, set g (set f m) = set (λ d, g (f d)) m).
Context (set_get : ∀ m, set (λ _, get m) m = m).

Lemma remove_keys_ok h ks w d' :
  remove_at_all ks h (get (manager w)) = Returns d' →
  for_each ks (λ k,
    let* m := get_manager in
    match remove_at k h (get m) with
    | Returns d => modify (set (λ _, d))
    | Raises e => raise e
    end) w = (Done tt, update_manager (set (λ _, d')) w, []).
Proof.
  revert w. induction ks as [|k ks IH]; intros w; cbn [remove_at_all for_each].
  { intros [= <-]. unfold update_manager. rewrite set_get. by destruct w. }
  destruct (remove_at k h (get (manager w))) as [d1|] eqn:Hd1; [|done].
  intros Hrest. unfold bind at 1. unfold bind at 1. simpl. rewrite Hd1. simpl.
  assert (Hrun := IH (update_manager (set (λ _, d1)) w)).
  unfold update_manager in Hrun. simpl in Hrun. rewrite get_set in Hrun.
  rewrite (Hrun Hrest). simpl. unfold update_manager. simpl. by rewrite set_set.
Qed.

(** One hook, registered under all the keys [keys h]: the loop over these
    keys returns. *)
Lemma remove_hook_ok (keys : Hook.t → gset K) h w :
  lists_ok (get (manager w)) →
  (∀ k, k ∈ keys h → indexed (get (manager w)) k h) →
  ∃ d', for_each (elements (keys h)) (λ k,
          let* m := get_manager in
          match remove_at k h (get m) with
          | Returns d => modify (set (λ _, d))
          | Raises e => raise e
          end) w = (Done tt, update_manager (set (λ _, d')) w, []).
Proof.
  intros Hok Hin.
  destruct (remove_at_all_ok (elements (keys h)) h (get (manager w)) Hok (NoDup_elements _))
    as [d' Hd'].
  { intros k Hk. apply Hin. by apply elem_of_elements. }
  exists d'. by apply remove_keys_ok.
Qed.
End keyed_ok.

Lemma unregister_events_ok hooks w :
  map_Forall (λ event_type l, l ≠ [] ∧ NoDup l ∧ Forall (λ h, event_type ∈ Hook.types h) l)
    (event_type_hooks (manager w)) →
  NoDup hooks →
  Forall (λ h, ∀ event_type, event_type ∈ Hook.types h →
               indexed (event_type_hooks (manager w)) event_type h) hooks →
  for_each hooks unregister_event w
  = (Done tt, update_manager (set_event_type_hooks (prune hooks)) w, []).
Proof.
  intros Hwf Hhooks Hin.
  cut (∃ w' tr, for_each hooks unregister_event w = (Done tt, w', tr)).
  { intros (w' & tr & Hrun). by destruct (unregister_events_run _ _ _ _ Hrun Hwf) as [-> ->]. }
  assert (Hok : lists_ok (event_type_hooks (manager w))).
  { intros k l Hl. destruct (Hwf k l Hl) as (? & ? & _). done. }
  assert (Hkeys : ∀ h k l, event_type_hooks (manager w) !! k = Some l → h ∈ l →
                           k ∈ Hook.types h).
  { intros h k l Hl Hhl. destruct (Hwf k l Hl) as (_ & _ & Hall).
    rewrite Forall_forall in Hall. by apply Hall. }
  assert (Hgen : ∀ done w1,
    w1 = update_manager (set_event_type_hooks (prune done)) w →
    (∀ h, h ∈ hooks → h ∉ done) →
    ∃ w' tr, for_each hooks unregister_event w1 = (Done tt, w', tr)).
  { clear Hwf. induction Hhooks as [|h hooks Hh Hhooks IH]; intros done w1 Hw1 Hdone; simpl.
    { by eexists _, _. }
    apply Forall_cons in Hin as [Hhin Hin].
    destruct (remove_hook_ok event_type_hooks set_event_type_hooks
                (λ _ _, eq_refl) (λ _ _ _, eq_refl) set_event_type_hooks_get
                Hook.types h w1) as [d' Hone].
    { subst w1. simpl. by apply prune_ok. }
    { intros k Hk. subst w1. simpl. apply indexed_prune. split; [by apply Hhin|].
      apply Hdone, list_elem_of_here. }
    destruct (remove_hook_run event_type_hooks set_event_type_hooks
                (λ _ _, eq_refl) (λ _ _ _, eq_refl)
                set_event_type_hooks_get set_event_type_hooks_ext
                Hook.types h done w w1 _ _ Hone Hok (Hkeys h) Hw1) as [Hw3 _].
    destruct (IH Hin (done ++ [h]) _ Hw3) as (w' & tr & Hrest).
    { intros y Hy. apply not_elem_of_app. split; [by apply Hdone, list_elem_of_further|].
      intros ->%list_elem_of_singleton. done. }
    exists w', tr. unfold unregister_event at 1.
    by rewrite (bind_done _ _ _ _ _ _ Hone), Hrest. }
  apply (Hgen [] w).
  - destruct w as [[] ?]. unfold update_manager, set_event_type_hooks. simpl in *.
    by rewrite prune_nil.
  - intros h _. apply not_elem_of_nil.
Qed.

Lemma unregister_raws_ok hooks w :
  map_Forall (λ trigger l,
      l ≠ [] ∧ NoDup l ∧
      Forall (λ h, trigger ∈ Hook.triggers h ∧ Hook.is_catch_all h = false) l)
    (raw_triggers (manager w)) →
  NoDup (catch_all_triggers (manager w)) →
  Forall (λ h, Hook.is_catch_all h = true) (catch_all_triggers (manager w)) →
  NoDup hooks →
  Forall (λ h, if Hook.is_catch_all h then h ∈ catch_all_triggers (manager w)
               else ∀ trigger, trigger ∈ Hook.triggers h →
                               indexed (raw_triggers (manager w)) trigger h) hooks →
  for_each hooks unregister_raw w
  = (Done tt,
     update_manager
       (λ m, set_catch_all_triggers (without hooks) (set_raw_triggers (prune hooks) m)) w, []).
Proof.
  intros Hwf Hnd Hall Hhooks Hin.
  cut (∃ w' tr, for_each hooks unregister_raw w = (Done tt, w', tr)).
  { intros (w' & tr & Hrun).
    by destruct (unregister_raws_run _ _ _ _ Hrun Hwf Hnd Hall) as [-> ->]. }
  assert (Hgen : ∀ w1,
    (∃ done, w1 = update_manager
                    (λ m, set_catch_all_triggers (without done)
                            (set_raw_triggers (prune done) m)) w ∧
             (∀ h, h ∈ hooks → h ∉ done)) →
    ∃ w' tr, for_each hooks unregister_raw w1 = (Done tt, w', tr)).
  { induction Hhooks as [|h hooks Hh Hhooks IH]; intros w1 (done & Hw1 & Hdone); simpl.
    { by eexists _, _. }
    apply Forall_cons in Hin as [Hhin Hin].
    destruct (unregister_raw h w1) as [[r1 w2] t1] eqn:Hone.
    assert (r1 = Done tt) as ->.
    { unfold unregister_raw in Hone. destruct (Hook.is_catch_all h) eqn:Hcatch.
      - unfold bind in Hone. simpl in Hone. subst w1. simpl in Hone.
        destruct (remove_first_Some h (without done (catch_all_triggers (manager w))))
          as [l Hl].
        { apply list_elem_of_filter. split; [apply Hdone, list_elem_of_here|done]. }
        rewrite Hl in Hone. simpl in Hone. by injection Hone as <- _ _.
      - destruct (remove_hook_ok raw_triggers set_raw_triggers
                    (λ _ _, eq_refl) (λ _ _ _, eq_refl) set_raw_triggers_get
                    Hook.triggers h w1) as [d' Hd'].
        + subst w1. simpl. apply prune_ok.
          intros k l Hl. destruct (Hwf k l Hl) as (? & ? & _). done.
        + intros k Hk. subst w1. simpl. apply indexed_prune. split; [by apply Hhin|].
          apply Hdone, list_elem_of_here.
        + rewrite Hd' in Hone. by injection Hone as <- _ _. }
    (* the world after this hook is again of the shape of the invariant *)
    assert (Hw2 : w2 = update_manager
                         (λ m, set_catch_all_triggers (without (done ++ [h]))
                                 (set_raw_triggers (prune (done ++ [h])) m)) w).
    { unfold unregister_raw in Hone. destruct (Hook.is_catch_all h) eqn:Hcatch.
      - unfold bind in Hone. simpl in Hone. subst w1. simpl in Hone.
        destruct (remove_first h (without done (catch_all_triggers (manager w))))
          as [l|] eqn:Hrem; [|done].
        apply remove_first_filter in Hrem; [|by apply NoDup_without]. subst l.
        injection Hone as <- <-.
        assert (Hp : prune (done ++ [h]) (raw_triggers (manager w))
                     = prune done (raw_triggers (manager w))).
        { apply prune_absent. intros k l Hl Hhl. destruct (Hwf k l Hl) as (_ & _ & Hmem).
          rewrite Forall_forall in Hmem. destruct (Hmem h Hhl) as [_ ?]. congruence. }
        unfold update_manager, set_catch_all_triggers, set_raw_triggers.
        cbn [manager next_id plugins commands raw_triggers catch_all_triggers
             event_type_hooks regex_hooks sieves _hook_waiting_queues].
        by rewrite Hp, filter_without_one.
      - assert (Hw1' : w1 = update_manager (set_raw_triggers (prune done))
                              (update_manager (set_catch_all_triggers (without done)) w))
          by by subst w1.
        assert (Hok : lists_ok (raw_triggers (manager w))).
        { intros k l Hl. destruct (Hwf k l Hl) as (? & ? & _). done. }
        destruct (remove_hook_run raw_triggers set_raw_triggers
                    (λ _ _, eq_refl) (λ _ _ _, eq_refl)
                    set_raw_triggers_get set_raw_triggers_ext
                    Hook.triggers h done
                    (update_manager (set_catch_all_triggers (without done)) w)
                    w1 w2 t1 Hone Hok) as [-> _].
        + intros k l Hl Hhl. destruct (Hwf k l Hl) as (_ & _ & Hmem).
          rewrite Forall_forall in Hmem. by destruct (Hmem h Hhl).
        + done.
        + assert (Hc : without (done ++ [h]) (catch_all_triggers (manager w))
                       = without done (catch_all_triggers (manager w))).
          { apply without_absent. intros Hhc. rewrite Forall_forall in Hall.
            apply Hall in Hhc. congruence. }
          unfold update_manager, set_catch_all_triggers, set_raw_triggers.
          cbn [manager next_id plugins commands raw_triggers catch_all_triggers
               event_type_hooks regex_hooks sieves _hook_waiting_queues].
          by rewrite Hc. }
    destruct (IH Hin w2) as (w' & tr & Hrest).
    { exists (done ++ [h]). split; [done|]. intros y Hy. apply not_elem_of_app.
      split; [by apply Hdone, list_elem_of_further|]. intros ->%list_elem_of_singleton. done. }
    exists w', (t1 ++ tr). by rewrite (bind_done _ _ _ _ _ _ Hone), Hrest. }
  apply Hgen. exists []. split.
  - destruct w as [[] ?]. unfold update_manager, set_catch_all_triggers, set_raw_triggers.
    simpl in *. rewrite prune_nil, without_nil; [done|].
    intros k l Hl. destruct (Hwf k l Hl) as (? & ? & _). done.
  - intros h _. apply not_elem_of_nil.
Qed.

Lemma unregister_tables_done info tables w :
  unregister_tables info tables w
  = (Done tt, w,
     match tables with
     | [] => []
     | _ => Log INFO "Unregistering tables for {}" [AStr (PluginInfo.title info)]
            :: map MetadataRemove tables
     end).
Proof.
  unfold unregister_tables. destruct tables as [|t tables]; [done|].
  unfold bind at 1. cbn [emit]. by rewrite (for_each_emit MetadataRemove).
Qed.

Lemma when_emit_done b x w : when b (emit x) w = (Done tt, w, if b then [x] else []).
Proof. by destruct b. Qed.

Lemma seq_done {A B} (c1 : M A) (c2 : M B) w a w1 t1 r w2 t2 :
  c1 w = (Done a, w1, t1) → c2 w1 = (r, w2, t2) → (c1 ;; c2) w = (r, w2, t1 ++ t2).
Proof. intros H1 H2. by rewrite (bind_done _ _ _ _ _ _ H1), H2. Qed.

(** From a well-indexed registry in which the plugin's hooks are registered,
    [_unload] returns [True]. *)
Lemma unload_ok v env path w plugin ls :
  is_disabled env (splitext_root (basename path)) = false →
  plugins (manager w) !! basename path = Some plugin →
  Plugin.hooks plugin = Some ls →
  well_indexed (manager w) →
  plugin_registered ls (manager w) →
  ∃ tr, _unload v env path w
        = (Done true,
           update_manager (unloaded (PluginInfo.file_name (Plugin.info plugin)) ls) w, tr).
Proof.
  intros Hdis Hplugin Hls Hwf Hreg.
  cut (∃ w' tr, _unload v env path w = (Done true, w', tr)).
  { intros (w' & tr & Hrun). exists tr.
    destruct (unload_run _ _ _ _ _ _ Hrun Hwf) as (plugin' & ls' & _ & Hplugin' & Hls' & ->).
    by simplify_eq. }
  destruct Hwf as (Hcmd & Hraw & [Hcnd Hcall] & Hev & [Hrnd Hrmem] & Hsnd).
  destruct Hreg as (Hpraw & Hpev & Hprx & Hpsv & Hnraw & Hnev & Hnrx & Hnsv).
  unfold _unload. rewrite Hdis. unfold bind at 1. simpl. rewrite Hplugin, Hls, let_triple.
  destruct v; eexists _, _.
  all: eapply seq_done; [by apply unregister_commands_run|].
  all: eapply seq_done; [by apply unregister_raws_ok|].
  all: eapply seq_done; [by apply unregister_events_ok|].
  all: eapply seq_done; [by apply unregister_regexes_ok|].
  all: eapply seq_done; [by apply unregister_sieves_ok|].
  all: eapply seq_done; [first [apply unregister_tables_done|reflexivity]|].
  all: eapply seq_done; [reflexivity|].
  all: eapply seq_done; [apply when_emit_done|].
  all: reflexivity.
Qed.

(** ** Registration *)

Lemma runs_as_modify f : runs_as (modify f) f.
Proof. intros w. by exists []. Qed.

Lemma runs_as_seq c1 c2 f g :
  runs_as c1 f → runs_as c2 g → runs_as (c1 ;; c2) (λ m, g (f m)).
Proof.
  intros H1 H2 w. destruct (H1 w) as (t1 & Hc1). destruct (H2 (update_manager f w)) as (t2 & Hc2).
  exists (t1 ++ t2). by rewrite (seq_done _ _ _ _ _ _ _ _ _ Hc1 Hc2).
Qed.

Lemma runs_as_ext c f g : (∀ m, f m = g m) → runs_as c f → runs_as c g.
Proof.
  intros Hfg Hc w. destruct (Hc w) as (tr & ->). exists tr. unfold update_manager.
  by rewrite Hfg.
Qed.

Lemma runs_as_for_each {A} (l : list A) body (F : A → PluginManager → PluginManager) :
  (∀ x, runs_as (body x) (F x)) →
  runs_as (for_each l body) (λ m, foldl (λ m x, F x m) m l).
Proof.
  intros Hbody. induction l as [|x l IH]; simpl.
  - intros w. exists []. by rewrite update_manager_id.
  - apply (runs_as_seq _ _ (F x) (λ m, foldl (λ m x, F x m) m l)); [apply Hbody|apply IH].
Qed.

Lemma runs_as_log env hook : runs_as (_log_hook env hook) (λ m, m).
Proof.
  intros w. unfold _log_hook. rewrite update_manager_id.
  destruct (show_plugin_loading (config env)); by eexists.
Qed.

Lemma runs_as_register_command internal info hook :
  runs_as (register_command internal info hook)
    (set_commands (with_aliases hook (Hook.aliases hook))).
Proof. intros w. destruct (register_command_run internal info hook w) as (tr & -> & _). by exists tr. Qed.

Lemma runs_as_register_raw h : runs_as (register_raw h) (register_raw_in h).
Proof.
  unfold register_raw, register_raw_in. destruct (Hook.is_catch_all h).
  - apply runs_as_modify.
  - apply (runs_as_for_each _ _ (λ trigger, set_raw_triggers (append_at trigger h))).
    intros trigger. apply runs_as_modify.
Qed.

Lemma runs_as_register_event h :
  runs_as (register_event h)
    (λ m, foldl (λ m t, set_event_type_hooks (append_at t h) m) m (elements (Hook.types h))).
Proof.
  apply (runs_as_for_each _ _ (λ t, set_event_type_hooks (append_at t h))).
  intros t. apply runs_as_modify.
Qed.

Lemma runs_as_register_regex h :
  runs_as (register_regex h)
    (λ m, foldl (λ m r, set_regex_hooks (λ l, l ++ [(r, h)]) m) m (elements (Hook.regexes h))).
Proof.
  apply (runs_as_for_each _ _ (λ r, set_regex_hooks (λ l, l ++ [(r, h)]))).
  intros r. apply runs_as_modify.
Qed.

Lemma foldl_set {X A} (set : (X → X) → PluginManager → PluginManager)
    (g : A → X → X) (l : list A) m :
  (∀ f g m, set g (set f m) = set (λ d, g (f d)) m) →
  (∀ m, set (λ d, d) m = m) →
  foldl (λ m x, set (g x) m) m l = set (λ d, foldl (λ d x, g x d) d l) m.
Proof.
  intros Hcomp Hid. revert m. induction l as [|x l IH]; intros m; simpl; [by rewrite Hid|].
  by rewrite IH, Hcomp.
Qed.

Lemma foldl_ext_in {A B} (f g : B → A → B) (l : list A) (b : B) :
  (∀ b x, f b x = g b x) → foldl f b l = foldl g b l.
Proof. intros Hfg. revert b. induction l as [|x l IH]; intros b; simpl; [done|]. by rewrite Hfg, IH. Qed.

Lemma set_commands_same m : set_commands (λ d, d) m = m.
Proof. by destruct m. Qed.
Lemma set_raw_triggers_same m : set_raw_triggers (λ d, d) m = m.
Proof. by destruct m. Qed.
Lemma set_catch_all_triggers_same m : set_catch_all_triggers (λ d, d) m = m.
Proof. by destruct m. Qed.
Lemma set_event_type_hooks_same m : set_event_type_hooks (λ d, d) m = m.
Proof. by destruct m. Qed.
Lemma set_regex_hooks_same m : set_regex_hooks (λ d, d) m = m.
Proof. by destruct m. Qed.
Lemma set_sieves_same m : set_sieves (λ d, d) m = m.
Proof. by destruct m. Qed.

Lemma foldl_snoc_list {A} (l0 l : list A) : foldl (λ acc x, acc ++ [x]) l0 l = l0 ++ l.
Proof.
  revert l0. induction l as [|x l IH]; intros l0; simpl; [by rewrite app_nil_r|].
  by rewrite IH, <- app_assoc.
Qed.

Lemma register_raws_in hooks m :
  foldl (λ m h, register_raw_in h m) m hooks
  = set_catch_all_triggers (λ l, l ++ filter (λ h, Hook.is_catch_all h = true) hooks)
      (set_raw_triggers
         (add_hooks Hook.triggers (λ h, negb (Hook.is_catch_all h)) hooks) m).
Proof.
  revert m. induction hooks as [|h hooks IH]; intros m; simpl.
  - destruct m. unfold set_catch_all_triggers, set_raw_triggers. simpl. by rewrite app_nil_r.
  - rewrite IH. unfold register_raw_in, add_hooks. simpl.
    destruct (Hook.is_catch_all h) eqn:Hcatch; simpl.
    + rewrite filter_cons_True by done. destruct m.
      unfold set_catch_all_triggers, set_raw_triggers. simpl. by rewrite <- app_assoc.
    + rewrite filter_cons_False by (by rewrite Hcatch).
      rewrite (foldl_set set_raw_triggers (λ trigger, append_at trigger h));
        [|done|apply set_raw_triggers_same].
      by destruct m.
Qed.

Lemma register_events_in hooks m :
  foldl (λ m h, foldl (λ m t, set_event_type_hooks (append_at t h) m) m
                  (elements (Hook.types h))) m hooks
  = set_event_type_hooks (add_hooks Hook.types (λ _, true) hooks) m.
Proof.
  rewrite (foldl_ext_in _
             (λ m h, set_event_type_hooks
                       (λ d, foldl (λ d t, append_at t h d) d (elements (Hook.types h))) m)).
  - by rewrite (foldl_set set_event_type_hooks
                  (λ h d, foldl (λ d t, append_at t h d) d (elements (Hook.types h))))
      by (done || apply set_event_type_hooks_same).
  - intros m0 h. by rewrite (foldl_set set_event_type_hooks (λ t, append_at t h))
      by (done || apply set_event_type_hooks_same).
Qed.

Lemma regex_entries_fold hooks (l0 : list (Regex * Hook.t)) :
  foldl (λ l h, foldl (λ l r, l ++ [(r, h)]) l (elements (Hook.regexes h))) l0 hooks
  = l0 ++ regex_entries hooks.
Proof.
  revert l0. induction hooks as [|h hooks IH]; intros l0; simpl; [by rewrite app_nil_r|].
  rewrite IH. unfold regex_entries. simpl. rewrite app_assoc. f_equal.
  generalize (elements (Hook.regexes h)) as rs. intros rs. revert l0.
  induction rs as [|r rs IHr]; intros l0; simpl; [by rewrite app_nil_r|].
  by rewrite IHr, <- app_assoc.
Qed.

Lemma register_regexes_in hooks m :
  foldl (λ m h, foldl (λ m r, set_regex_hooks (λ l, l ++ [(r, h)]) m) m
                  (elements (Hook.regexes h))) m hooks
  = set_regex_hooks (λ l, l ++ regex_entries hooks) m.
Proof.
  rewrite (foldl_ext_in _
             (λ m h, set_regex_hooks
                       (λ l, foldl (λ l r, l ++ [(r, h)]) l (elements (Hook.regexes h))) m)).
  - rewrite (foldl_set set_regex_hooks
               (λ h l, foldl (λ l r, l ++ [(r, h)]) l (elements (Hook.regexes h))))
      by (done || apply set_regex_hooks_same).
    unfold set_regex_hooks. by rewrite regex_entries_fold.
  - intros m0 h. by rewrite (foldl_set set_regex_hooks (λ r l, l ++ [(r, h)]))
      by (done || apply set_regex_hooks_same).
Qed.

(** The five registration loops always return, and leave [registered]. *)
Lemma register_hooks_runs env info ls : runs_as (register_hooks env info ls) (registered ls).
Proof.
  unfold register_hooks.
  eapply runs_as_ext; [|
    apply runs_as_seq; [apply (runs_as_for_each _ _
        (λ h, set_commands (with_aliases h (Hook.aliases h))));
        intros h; eapply runs_as_ext; [|apply runs_as_seq;
          [apply runs_as_register_command|apply runs_as_log]]; done|];
    apply runs_as_seq; [apply (runs_as_for_each _ _ register_raw_in);
        intros h; eapply runs_as_ext; [|apply runs_as_seq;
          [apply runs_as_register_raw|apply runs_as_log]]; done|];
    apply runs_as_seq; [apply (runs_as_for_each _ _
        (λ h m, foldl (λ m t, set_event_type_hooks (append_at t h) m) m
                  (elements (Hook.types h))));
        intros h; eapply runs_as_ext; [|apply runs_as_seq;
          [apply runs_as_register_event|apply runs_as_log]]; done|];
    apply runs_as_seq; [apply (runs_as_for_each _ _
        (λ h m, foldl (λ m r, set_regex_hooks (λ l, l ++ [(r, h)]) m) m
                  (elements (Hook.regexes h))));
        intros h; eapply runs_as_ext; [|apply runs_as_seq;
          [apply runs_as_register_regex|apply runs_as_log]]; done|];
    apply (runs_as_for_each _ _ (λ h, set_sieves (λ l, l ++ [h])));
        intros h; eapply runs_as_ext; [|apply runs_as_seq;
          [apply runs_as_modify|apply runs_as_log]]; done].
  intros m. simpl.
  rewrite (foldl_set set_commands (λ h, with_aliases h (Hook.aliases h)))
    by (done || apply set_commands_same).
  rewrite register_raws_in, register_events_in, register_regexes_in.
  rewrite (foldl_set set_sieves (λ h l, l ++ [h])) by (done || apply set_sieves_same).
  destruct m. unfold registered, set_commands, set_raw_triggers, set_catch_all_triggers,
    set_event_type_hooks, set_regex_hooks, set_sieves. simpl.
  by rewrite foldl_snoc_list.
Qed.

Lemma filter_none {A} (P : A → Prop) `{∀ x, Decision (P x)} (l : list A) :
  Forall (λ x, ¬ P x) l → filter P l = [].
Proof.
  induction 1 as [|x l Hx _ IH]; [done|]. by rewrite filter_cons_False, IH.
Qed.

Section add_hooks.
Context `{Countable K}.
Context (keys : Hook.t → gset K) (sel : Hook.t → bool).
Implicit Types (d : gmap K (list Hook.t)) (h : Hook.t) (k : K).

Lemma append_at_lookup k h d k' :
  append_at k h d !! k'
  = if decide (k' = k) then Some (default [] (d !! k) ++ [h]) else d !! k'.
Proof.
  unfold append_at. destruct (d !! k) as [l|] eqn:Hk; destruct (decide (k' = k)) as [->|Hne];
    by rewrite ?lookup_insert_eq, ?lookup_insert_ne.
Qed.

Lemma append_keys_lookup ks h d k' :
  NoDup ks →
  foldl (λ d k, append_at k h d) d ks !! k'
  = if decide (k' ∈ ks) then Some (default [] (d !! k') ++ [h]) else d !! k'.
Proof.
  intros Hnd. revert d. induction Hnd as [|k ks Hk Hnd IH]; intros d; cbn [foldl].
  { by rewrite decide_False by apply not_elem_of_nil. }
  rewrite IH, !append_at_lookup.
  destruct (decide (k' = k)) as [->|Hne].
  - rewrite (decide_False (P := k ∈ ks)) by done.
    by rewrite (decide_True (P := k ∈ k :: ks)) by apply list_elem_of_here.
  - destruct (decide (k' ∈ ks)) as [Hin|Hnin].
    + by rewrite (decide_True (P := k' ∈ k :: ks)) by by apply list_elem_of_further.
    + rewrite (decide_False (P := k' ∈ k :: ks)); [done|].
      intros [?|?]%elem_of_cons; done.
Qed.

Lemma add_hooks_cons h hooks d :
  add_hooks keys sel (h :: hooks) d
  = add_hooks keys sel hooks
      (if sel h then foldl (λ d k, append_at k h d) d (elements (keys h)) else d).
Proof. done. Qed.

Lemma add_hooks_lookup hooks d k :
  (∀ k l, d !! k = Some l → l ≠ []) →
  add_hooks keys sel hooks d !! k
  = non_empty (default [] (d !! k) ++ filter (λ h, sel h = true ∧ k ∈ keys h) hooks).
Proof.
  revert d. induction hooks as [|h hooks IH]; intros d Hne.
  - cbn [add_hooks foldl]. rewrite filter_nil, app_nil_r.
    destruct (d !! k) as [l|] eqn:Hk; [|done]. simpl. symmetry. apply non_empty_Some. by eapply Hne.
  - rewrite add_hooks_cons. destruct (sel h) eqn:Hsel.
    + rewrite IH.
      * rewrite append_keys_lookup by apply NoDup_elements.
        destruct (decide (k ∈ elements (keys h))) as [Hin|Hnin].
        -- rewrite filter_cons_True by (split; [done|by apply elem_of_elements]).
           simpl. by rewrite <- app_assoc.
        -- rewrite filter_cons_False; [done|]. intros [_ ?]. by apply Hnin, elem_of_elements.
      * intros k0 l. rewrite append_keys_lookup by apply NoDup_elements.
        destruct (decide (k0 ∈ elements (keys h))); [|by apply Hne].
        intros [= <-]. by destruct (default [] (d !! k0)).
    + rewrite IH by done. rewrite filter_cons_False; [done|]. intros [? _]. congruence.
Qed.

Lemma add_hooks_indexed hooks d k h :
  (∀ k l, d !! k = Some l → l ≠ []) →
  indexed (add_hooks keys sel hooks d) k h
  ↔ indexed d k h ∨ (h ∈ hooks ∧ sel h = true ∧ k ∈ keys h).
Proof.
  intros Hne. unfold indexed. rewrite add_hooks_lookup by done. split.
  - intros (l & [-> _]%non_empty_inv & [Hin|Hin]%elem_of_app).
    + left. destruct (d !! k) as [l0|]; [by exists l0|]. by apply elem_of_nil in Hin.
    + right. apply list_elem_of_filter in Hin. tauto.
  - intros Hcase.
    assert (h ∈ default [] (d !! k) ++ filter (λ h, sel h = true ∧ k ∈ keys h) hooks) as Hin.
    { apply elem_of_app. destruct Hcase as [(l & -> & ?)|(? & ? & ?)]; [by left|].
      right. by apply list_elem_of_filter. }
    eexists. split; [|exact Hin]. apply non_empty_Some. intros Hnil. rewrite Hnil in Hin.
    by apply elem_of_nil in Hin.
Qed.

(** Pruning the hooks just added gives the index back. *)
Lemma prune_add_hooks hooks d :
  (∀ k l, d !! k = Some l → l ≠ [] ∧ ∀ h, h ∈ l → h ∉ hooks) →
  prune hooks (add_hooks keys sel hooks d) = d.
Proof.
  intros Hd. apply map_eq. intros k. unfold prune. rewrite lookup_omap, add_hooks_lookup.
  2:{ intros k0 l Hl. by destruct (Hd k0 l Hl). }
  assert (Hw : without hooks
                 (default [] (d !! k) ++ filter (λ h, sel h = true ∧ k ∈ keys h) hooks)
               = default [] (d !! k)).
  { unfold without. rewrite filter_app. rewrite (filter_all _ (default [] (d !! k))).
    - rewrite (filter_none _ (filter _ hooks)); [by rewrite app_nil_r|].
      apply Forall_forall. intros h [_ Hin]%list_elem_of_filter. by intros Hnot.
    - apply Forall_forall. intros h Hin. destruct (d !! k) as [l|] eqn:Hk.
      + destruct (Hd k l Hk) as [_ Hl]. by apply Hl.
      + by apply elem_of_nil in Hin. }
  destruct (default [] (d !! k) ++ filter (λ h, sel h = true ∧ k ∈ keys h) hooks)
    as [|x rest] eqn:Happ.
  - simpl. apply app_eq_nil in Happ as [Hnil _].
    destruct (d !! k) as [l|] eqn:Hk; [|done]. simpl in Hnil. subst l.
    by destruct (Hd k [] Hk) as [? _].
  - cbn [non_empty option_bind mbind]. simpl. rewrite Hw.
    destruct (d !! k) as [l|] eqn:Hk; simpl.
    + apply non_empty_Some. by destruct (Hd k l Hk).
    + done.
Qed.
End add_hooks.

(** ** The hooks of a new plugin are new *)

Lemma list_fresh_nil n0 n : list_fresh n0 n [].
Proof. split; [constructor|done]. Qed.

Lemma list_fresh_mono n0 n n' l : n ≤ n' → list_fresh n0 n l → list_fresh n0 n' l.
Proof.
  intros Hle [Hnd Hall]. split; [done|]. eapply Forall_impl; [exact Hall|].
  intros h ?. simpl in *. lia.
Qed.

Lemma list_fresh_snoc n0 n l h :
  n0 ≤ n → Hook.id h = n → list_fresh n0 n l → list_fresh n0 (S n) (l ++ [h]).
Proof.
  intros Hle Hid [Hnd Hall]. split.
  - rewrite fmap_app. apply NoDup_app. split; [done|]. split; [|apply NoDup_singleton].
    intros i Hi [->|?%elem_of_nil]%elem_of_cons; [|done].
    apply list_elem_of_fmap in Hi as (h' & Hid' & Hh').
    rewrite Forall_forall in Hall. apply Hall in Hh'. lia.
  - apply Forall_app. split.
    + eapply Forall_impl; [exact Hall|]. intros h' ?. simpl in *. lia.
    + apply Forall_singleton. lia.
Qed.

Lemma list_fresh_NoDup n0 n l : list_fresh n0 n l → NoDup l.
Proof. intros [Hnd _]. by apply NoDup_fmap_1 in Hnd. Qed.

Lemma new_hook_fresh v t info fh w h w' tr :
  new_hook v t info fh w = (Done h, w', tr) →
  Hook.id h = next_id w ∧ next_id w' = S (next_id w).
Proof.
  unfold new_hook.
  intros [(aliases & w1 & t1 & t2 & Hal & Hrun & ->)|[(e & ? & ?)|[? ?]]]%bind_inv; [|done..].
  assert (w1 = w) as ->.
  { destruct (bool_decide (t = HookType.command)); [|by injection Hal as _ <- _].
    destruct (remove_first _ _); [|done]. by injection Hal as _ <- _. }
  unfold bind in Hrun. simpl in Hrun.
  destruct (leftover_kwargs _ _ _); simpl in Hrun; by injection Hrun as <- <- _.
Qed.

Lemma append_hook_fresh n0 n t h ls :
  n0 ≤ n → Hook.id h = n → lists_fresh n0 n ls → lists_fresh n0 (S n) (append_hook t h ls).
Proof.
  intros Hle Hid (H1 & H2 & H3 & H4 & H5). unfold lists_fresh, append_hook. simpl.
  split_and!; case_bool_decide;
    first [by apply list_fresh_snoc | by apply (list_fresh_mono n0 n); [lia|]].
Qed.

Lemma find_hooks_of_fresh v parent func_hooks n0 ls w ls' w' tr :
  find_hooks_of v parent func_hooks ls w = (Done ls', w', tr) →
  n0 ≤ next_id w → lists_fresh n0 (next_id w) ls →
  next_id w ≤ next_id w' ∧ lists_fresh n0 (next_id w') ls'.
Proof.
  revert ls w tr. induction func_hooks as [|[t fh] rest IH]; intros ls w tr; simpl.
  - intros [= <- <- <-]. by split.
  - destruct (valid_type v t); [|done].
    intros [(h & w1 & t1 & t2 & Hnew & Hrest & ->)|[(e & ? & ?)|[? ?]]]%bind_inv Hle Hfresh;
      [|done..].
    apply new_hook_fresh in Hnew as [Hid Hnext].
    destruct (IH _ _ _ Hrest) as [Hle' Hfresh'].
    + lia.
    + rewrite Hnext. by apply append_hook_fresh.
    + split; [lia|done].
Qed.

Lemma find_hooks_from_fresh v parent functions n0 ls w ls' w' tr :
  find_hooks_from v parent functions ls w = (Done ls', w', tr) →
  n0 ≤ next_id w → lists_fresh n0 (next_id w) ls →
  next_id w ≤ next_id w' ∧ lists_fresh n0 (next_id w') ls'.
Proof.
  revert ls w tr. induction functions as [|fhs rest IH]; intros ls w tr; simpl.
  - intros [= <- <- <-]. by split.
  - intros [(ls1 & w1 & t1 & t2 & Hof & Hrest & ->)|[(e & ? & ?)|[? ?]]]%bind_inv Hle Hfresh;
      [|done..].
    destruct (find_hooks_of_fresh _ _ _ _ _ _ _ _ _ Hof Hle Hfresh) as [Hle1 Hfresh1].
    destruct (IH _ _ _ Hrest) as [Hle' Hfresh']; [lia|done|]. split; [lia|done].
Qed.

Lemma new_plugin_fresh v info code w plugin w' tr :
  new_plugin v info code w = (Done plugin, w', tr) →
  ∃ ls, Plugin.hooks plugin = Some ls ∧ Plugin.info plugin = info ∧
        next_id w ≤ next_id w' ∧ lists_fresh (next_id w) (next_id w') ls ∧
        manager w' = manager w.
Proof.
  intros Hnew. destruct (new_plugin_quiet _ _ _ _ _ _ _ Hnew) as [Hmgr _].
  unfold new_plugin, find_hooks in Hnew.
  apply bind_inv in Hnew as [(ls & w1 & t1 & t2 & Hfind & Hret & ->)|[(e & ? & ?)|[? ?]]];
    [|done..].
  injection Hret as <- <- _.
  destruct (find_hooks_from_fresh v info _ (next_id w) _ _ _ _ _ Hfind) as [Hle Hfresh].
  - done.
  - unfold lists_fresh, no_hooks. simpl. split_and!; apply list_fresh_nil.
  - eexists. split; [done|]. split; [done|]. split; [done|]. split; [|done].
    destruct Hfresh as (? & ? & ? & ? & ?). by split_and!.
Qed.

Section add_hooks_wf.
Context `{Countable K}.
Context (keys : Hook.t → gset K) (sel : Hook.t → bool).
Implicit Types (d : gmap K (list Hook.t)) (h : Hook.t) (k : K).

Lemma add_hooks_lists (Q : K → Hook.t → Prop) hooks d :
  (∀ k l, d !! k = Some l → l ≠ [] ∧ NoDup l ∧ Forall (Q k) l) →
  NoDup hooks →
  (∀ h k l, h ∈ hooks → d !! k = Some l → h ∉ l) →
  (∀ h k, sel h = true → k ∈ keys h → Q k h) →
  ∀ k l, add_hooks keys sel hooks d !! k = Some l → l ≠ [] ∧ NoDup l ∧ Forall (Q k) l.
Proof.
  intros Hd Hnd Hnew HQ k l. rewrite add_hooks_lookup.
  2:{ intros k0 l0 Hl0. by destruct (Hd k0 l0 Hl0). }
  intros [-> Hne]%non_empty_inv. split; [done|].
  assert (Hold : NoDup (default [] (d !! k)) ∧ Forall (Q k) (default [] (d !! k)) ∧
                 ∀ h, h ∈ hooks → h ∉ default [] (d !! k)).
  { destruct (d !! k) as [l0|] eqn:Hk; simpl.
    - destruct (Hd k l0 Hk) as (_ & ? & ?). split_and!; [done..|]. intros h Hh. by eapply Hnew.
    - split_and!; [constructor|done|]. intros h _. apply not_elem_of_nil. }
  destruct Hold as (Hnd0 & HQ0 & Hdisj). split.
  - apply NoDup_app. split; [done|]. split; [|by apply NoDup_filter].
    intros h Hh [_ Hin]%list_elem_of_filter. by apply (Hdisj h).
  - apply Forall_app. split; [done|]. apply Forall_forall.
    intros h [[? ?] _]%list_elem_of_filter. by apply HQ.
Qed.

Lemma add_hooks_Forall (P : Hook.t → Prop) hooks d :
  (∀ k l, d !! k = Some l → l ≠ []) →
  (∀ k l, d !! k = Some l → Forall P l) →
  Forall P hooks →
  ∀ k l, add_hooks keys sel hooks d !! k = Some l → Forall P l.
Proof.
  intros Hne Hd Hhooks k l. rewrite add_hooks_lookup by done.
  intros [-> _]%non_empty_inv. apply Forall_app. split.
  - destruct (d !! k) as [l0|] eqn:Hk; simpl; [by eapply Hd|done].
  - by apply Forall_filter_sub.
Qed.
End add_hooks_wf.

Lemma with_aliases_Forall (P : string → Hook.t → Prop) h aliases cmds :
  map_Forall P cmds → (∀ alias, alias ∈ aliases → P alias h) →
  map_Forall P (with_aliases h aliases cmds).
Proof.
  revert cmds. induction aliases as [|a aliases IH]; intros cmds Hc Hal; [done|].
  unfold with_aliases. cbn [foldl]. apply IH.
  - destruct (cmds !! a); [done|]. apply map_Forall_insert_2; [|done].
    apply Hal, list_elem_of_here.
  - intros alias Hin. by apply Hal, list_elem_of_further.
Qed.

Lemma register_commands_Forall (P : string → Hook.t → Prop) hooks cmds :
  map_Forall P cmds →
  Forall (λ h, ∀ alias, alias ∈ Hook.aliases h → P alias h) hooks →
  map_Forall P (foldl (λ cmds h, with_aliases h (Hook.aliases h) cmds) cmds hooks).
Proof.
  intros Hc Hhooks. revert cmds Hc. induction Hhooks as [|h hooks Hh _ IH]; intros cmds Hc;
    [done|].
  cbn [foldl]. apply IH. by apply with_aliases_Forall.
Qed.

Lemma old_not_new n0 n (l hooks : list Hook.t) h :
  Forall (λ h, Hook.id h < n0) l → list_fresh n0 n hooks → h ∈ hooks → h ∉ l.
Proof.
  intros Hold [_ Hnew] Hin Hin'. rewrite Forall_forall in Hold, Hnew.
  apply Hold in Hin'. apply Hnew in Hin. lia.
Qed.

Lemma list_fresh_below n0 n l : list_fresh n0 n l → Forall (λ h, Hook.id h < n) l.
Proof. intros [_ Hall]. eapply Forall_impl; [exact Hall|]. intros h ?. simpl in *. lia. Qed.

Lemma Forall_below_mono n0 n (l : list Hook.t) :
  n0 ≤ n → Forall (λ h, Hook.id h < n0) l → Forall (λ h, Hook.id h < n) l.
Proof. intros Hle Hall. eapply Forall_impl; [exact Hall|]. intros h ?. simpl in *. lia. Qed.

Lemma NoDup_regex_entries hooks : NoDup hooks → NoDup (regex_entries hooks).
Proof.
  intros Hnd. unfold regex_entries. apply NoDup_bind; [| |done].
  - intros h1 h2 [r h] _ _ (r1 & [= -> ->] & _)%list_elem_of_fmap
      (r2 & [= _ <-] & _)%list_elem_of_fmap. done.
  - intros h _. apply NoDup_fmap_2; [|apply NoDup_elements]. by intros r1 r2 [= ->].
Qed.

Lemma elem_of_regex_entries hooks r h :
  (r, h) ∈ regex_entries hooks ↔ h ∈ hooks ∧ r ∈ Hook.regexes h.
Proof.
  unfold regex_entries. rewrite list_elem_of_bind. split.
  - intros (h' & (r' & [= -> ->] & Hr)%list_elem_of_fmap & Hh).
    split; [done|]. by apply elem_of_elements.
  - intros [Hh Hr]. exists h. split; [|done]. apply list_elem_of_fmap. exists r.
    split; [done|]. by apply elem_of_elements.
Qed.

Lemma without_app_new (old hooks new : list Hook.t) :
  (∀ h, h ∈ old → h ∉ hooks) → (∀ h, h ∈ new → h ∈ hooks) →
  without hooks (old ++ new) = old.
Proof.
  intros Hold Hnew. unfold without. rewrite filter_app, filter_all, filter_none.
  - by rewrite app_nil_r.
  - apply Forall_forall. intros h Hh Hnot. by apply Hnot, Hnew.
  - apply Forall_forall. intros h Hh. by apply Hold.
Qed.

Lemma register_commands_lookup hooks cmds alias x :
  foldl (λ cmds h, with_aliases h (Hook.aliases h) cmds) cmds hooks !! alias = Some x →
  cmds !! alias = Some x ∨ x ∈ hooks.
Proof.
  revert cmds. induction hooks as [|h hooks IH]; intros cmds; cbn [foldl]; [by left|].
  intros [Hx|Hx]%IH; [|right; by apply list_elem_of_further].
  destruct (cmds !! alias) as [y|] eqn:Hy.
  - rewrite (with_aliases_keeps _ _ _ _ _ Hy) in Hx. by left.
  - rewrite (with_aliases_fresh _ _ _ _ Hy) in Hx. case_bool_decide; [|done].
    injection Hx as <-. right. apply list_elem_of_here.
Qed.

Lemma register_commands_keeps hooks cmds alias x :
  cmds !! alias = Some x →
  foldl (λ cmds h, with_aliases h (Hook.aliases h) cmds) cmds hooks !! alias = Some x.
Proof.
  revert cmds. induction hooks as [|h hooks IH]; intros cmds Hx; cbn [foldl]; [done|].
  apply IH. by apply with_aliases_keeps.
Qed.

(** The registry after the registration loops: still well indexed, with the
    plugin's hooks registered. *)
Lemma registered_ok n0 n ls m :
  n0 ≤ n → well_indexed m → ids_below n0 m → lists_fresh n0 n ls →
  well_indexed (registered ls m) ∧ ids_below n (registered ls m) ∧
  plugin_registered ls (registered ls m).
Proof.
  intros Hle (Hcmd & Hraw & [Hcnd Hcall] & Hev & [Hrnd Hrmem] & Hsnd)
    (Icmd & Iraw & Icatch & Iev & Irx & Isv) (Fc & Fraw & Fev & Frx & Fsv).
  assert (Hrawne : ∀ k l, raw_triggers m !! k = Some l → l ≠ []).
  { intros k l Hl. by destruct (Hraw k l Hl). }
  assert (Hevne : ∀ k l, event_type_hooks m !! k = Some l → l ≠ []).
  { intros k l Hl. by destruct (Hev k l Hl). }
  split_and!.
  - (* well indexed *)
    unfold well_indexed, registered.
    cbn [plugins commands raw_triggers catch_all_triggers event_type_hooks regex_hooks sieves
         _hook_waiting_queues].
    split_and!.
    + apply register_commands_Forall; [done|]. by apply Forall_forall.
    + intros k0 l0 Hl0.
      eapply (add_hooks_lists Hook.triggers (λ h, negb (Hook.is_catch_all h))
               (λ trigger h, trigger ∈ Hook.triggers h ∧ Hook.is_catch_all h = false))
        in Hl0; [exact Hl0|..].
      * done.
      * by eapply list_fresh_NoDup.
      * intros h k l Hh Hl.
        apply (old_not_new n0 n l (Plugin.raw_hooks ls) h); [by apply (Iraw k l)|done..].
      * intros h k Hsel Hk. split; [done|]. by destruct (Hook.is_catch_all h).
    + apply NoDup_app. split; [done|]. split.
      * intros h Hh [_ Hin]%list_elem_of_filter.
        by apply (old_not_new n0 n (catch_all_triggers m) (Plugin.raw_hooks ls) h).
      * apply NoDup_filter. by eapply list_fresh_NoDup.
    + apply Forall_app. split; [done|]. apply Forall_forall.
      by intros h [? _]%list_elem_of_filter.
    + intros k0 l0 Hl0.
      eapply (add_hooks_lists Hook.types (λ _, true) (λ t h, t ∈ Hook.types h))
        in Hl0; [exact Hl0|..].
      * done.
      * by eapply list_fresh_NoDup.
      * intros h k l Hh Hl.
        apply (old_not_new n0 n l (Plugin.events ls) h); [by apply (Iev k l)|done..].
      * by intros h k _ Hk.
    + apply NoDup_app. split; [done|]. split.
      * intros [r h] Hin Hin'. apply elem_of_regex_entries in Hin' as [Hh _].
        rewrite Forall_forall in Irx. apply Irx in Hin. simpl in Hin.
        destruct Frx as [_ Hnew]. rewrite Forall_forall in Hnew. apply Hnew in Hh. lia.
      * apply NoDup_regex_entries. by eapply list_fresh_NoDup.
    + apply Forall_app. split; [done|]. apply Forall_forall.
      intros [r h] [_ ?]%elem_of_regex_entries. done.
    + apply NoDup_app. split; [done|]. split; [|by eapply list_fresh_NoDup].
      intros h Hh Hin. by apply (old_not_new n0 n (sieves m) (Plugin.sieves ls) h).
  - (* identities *)
    unfold ids_below, registered.
    cbn [plugins commands raw_triggers catch_all_triggers event_type_hooks regex_hooks sieves
         _hook_waiting_queues].
    split_and!.
    + apply (register_commands_Forall (λ _ h, Hook.id h < n)).
      * intros a h Hh. specialize (Icmd a h Hh). simpl in Icmd. lia.
      * apply list_fresh_below in Fc. eapply Forall_impl; [exact Fc|]. by intros h ? ? ?.
    + intros k0 l0 Hl0. eapply add_hooks_Forall in Hl0; [exact Hl0|done| |by eapply list_fresh_below].
      intros k l Hl. eapply Forall_below_mono; [done|]. by apply (Iraw k l).
    + apply Forall_app. split; [by eapply Forall_below_mono|].
      apply Forall_filter_sub. by eapply list_fresh_below.
    + intros k0 l0 Hl0. eapply add_hooks_Forall in Hl0; [exact Hl0|done| |by eapply list_fresh_below].
      intros k l Hl. eapply Forall_below_mono; [done|]. by apply (Iev k l).
    + apply Forall_app. split.
      * eapply Forall_impl; [exact Irx|]. intros e ?. simpl in *. lia.
      * apply Forall_forall. intros [r h] [Hh _]%elem_of_regex_entries.
        apply list_fresh_below in Frx. rewrite Forall_forall in Frx. by apply Frx.
    + apply Forall_app. split; [by eapply Forall_below_mono|by eapply list_fresh_below].
  - (* the plugin's hooks are registered *)
    unfold plugin_registered, registered.
    cbn [plugins commands raw_triggers catch_all_triggers event_type_hooks regex_hooks sieves
         _hook_waiting_queues].
    split_and!; try by eapply list_fresh_NoDup.
    + apply Forall_forall. intros h Hh. destruct (Hook.is_catch_all h) eqn:Hcatch.
      * apply elem_of_app. right. by apply list_elem_of_filter.
      * intros trigger Ht. apply add_hooks_indexed; [done|]. right.
        split_and!; [done| |done]. by rewrite Hcatch.
    + apply Forall_forall. intros h Hh t Ht. apply add_hooks_indexed; [done|]. by right.
    + apply Forall_forall. intros h Hh r Hr. apply elem_of_app. right.
      by apply elem_of_regex_entries.
    + apply Forall_forall. intros h Hh. apply elem_of_app. by right.
Qed.

(** Taking the plugin's hooks out of the registry they were just added to
    gives the registry back. *)
Lemma unloaded_registered n0 n name plugin ls m :
  well_indexed m → ids_below n0 m → lists_fresh n0 n ls →
  plugins m !! name = None →
  unloaded name ls (set_plugins <[name := plugin]> (registered ls m)) = m.
Proof.
  intros (Hcmd & Hraw & [Hcnd Hcall] & Hev & [Hrnd Hrmem] & Hsnd)
    (Icmd & Iraw & Icatch & Iev & Irx & Isv) (Fc & Fraw & Fev & Frx & Fsv) Hname.
  destruct m as [pl cm rt ca ev rx sv q].
  unfold unloaded, registered, set_plugins.
  cbn [plugins commands raw_triggers catch_all_triggers event_type_hooks regex_hooks sieves
       _hook_waiting_queues] in *.
  f_equal.
  - by apply delete_insert_id.
  - apply map_eq. intros alias. apply option_eq. intros x.
    rewrite map_lookup_filter_Some. simpl. split.
    + intros [[?|Hnew]%register_commands_lookup Hnot]; done.
    + intros Hx. split; [by apply register_commands_keeps|].
      intros Hin. destruct Fc as [_ Hnew]. rewrite Forall_forall in Hnew. apply Hnew in Hin.
      specialize (Icmd alias x Hx). simpl in Icmd. lia.
  - apply prune_add_hooks. intros k l Hl. split; [by destruct (Hraw k l Hl)|].
    intros h Hh Hin. revert Hh.
    apply (old_not_new n0 n l (Plugin.raw_hooks ls) h); [by apply (Iraw k l)|done..].
  - apply without_app_new.
    + intros h Hh Hin. revert Hh. by apply (old_not_new n0 n ca (Plugin.raw_hooks ls) h).
    + by intros h [_ ?]%list_elem_of_filter.
  - apply prune_add_hooks. intros k l Hl. split; [by destruct (Hev k l Hl)|].
    intros h Hh Hin. revert Hh.
    apply (old_not_new n0 n l (Plugin.events ls) h); [by apply (Iev k l)|done..].
  - rewrite filter_app, filter_all, filter_none; [by rewrite app_nil_r| |].
    + apply Forall_forall. intros [r h] [Hh _]%elem_of_regex_entries Hnot. by apply Hnot.
    + apply Forall_forall. intros [r h] Hin Hh. simpl in Hh.
      rewrite Forall_forall in Irx. apply Irx in Hin. simpl in Hin.
      destruct Frx as [_ Hnew]. rewrite Forall_forall in Hnew. apply Hnew in Hh. lia.
  - apply without_app_new; [|done]. intros h Hh Hin. revert Hh.
    by apply (old_not_new n0 n sv (Plugin.sieves ls) h).
Qed.

(** ** A successful load *)

Lemma register_plugin_loaded v env task plugin ls w w1 tr :
  register_plugin v env task plugin w = (Done tt, w1, tr) →
  Plugin.hooks plugin = Some ls →
  plugins (manager w) !! PluginInfo.file_name (Plugin.info plugin) = None →
  is_Some (plugins (manager w1) !! PluginInfo.file_name (Plugin.info plugin)) →
  w1 = update_manager
         (λ m, set_plugins <[PluginInfo.file_name (Plugin.info plugin) :=
                               without_run_on_load plugin]> (registered ls m)) w.
Proof.
  intros Hrun Hls Hnone Hloaded. unfold register_plugin in Hrun. rewrite Hls in Hrun.
  apply bind_inv in Hrun as [(u & w0 & t1 & t2 & Hcreate & Hrun & ->)|[(e & ? & ?)|[? ?]]];
    [|done..].
  assert (w0 = w) as ->.
  { destruct v; [|by injection Hcreate as _ <- _].
    by destruct (create_tables_quiet _ _ _ _ _ _ _ Hcreate) as [<- _]. }
  apply bind_inv in Hrun as [(loaded & w2 & t3 & t4 & Hload & Hrun & ->)|[(e & ? & ?)|[? ?]]];
    [|done..].
  apply run_on_load_hooks_done in Hload as ->.
  destruct loaded.
  - destruct (runs_as_seq _ _ _ _
                (runs_as_modify
                   (set_plugins <[PluginInfo.file_name (Plugin.info plugin) := plugin]>))
                (runs_as_seq _ _ _ _
                   (register_hooks_runs env (Plugin.info plugin) ls)
                   (runs_as_modify
                      (set_plugins <[PluginInfo.file_name (Plugin.info plugin) :=
                                       without_run_on_load plugin]>))) w) as (tr' & Heq).
    rewrite Heq in Hrun. injection Hrun as <- _.
    destruct w as [[pl cm rt ca ev rx sv q] n]. unfold update_manager, set_plugins, registered.
    cbn [manager next_id plugins commands raw_triggers catch_all_triggers event_type_hooks
         regex_hooks sieves _hook_waiting_queues].
    by rewrite insert_insert_eq.
  - assert (w1 = w) as ->; [|rewrite Hnone in Hloaded; by destruct Hloaded].
    destruct v.
    + unfold bind in Hrun. simpl in Hrun. rewrite unregister_tables_done in Hrun.
      by injection Hrun as <- _.
    + by injection Hrun as <- _.
Qed.

Lemma load_run v env task path w w1 tr :
  load_plugin v env task path w = (Done tt, w1, tr) →
  plugins (manager w) !! basename path = None →
  is_Some (plugins (manager w1) !! basename path) →
  ∃ plugin ls,
    Plugin.hooks (without_run_on_load plugin) = Some ls ∧
    PluginInfo.file_name (Plugin.info plugin) = basename path ∧
    next_id w ≤ next_id w1 ∧
    lists_fresh (next_id w) (next_id w1) ls ∧
    manager w1 = set_plugins <[basename path := without_run_on_load plugin]>
                   (registered ls (manager w)).
Proof.
  intros Hrun Hnone Hloaded. unfold load_plugin in Hrun.
  apply bind_inv in Hrun as [(enabled & w0 & t1 & t2 & Hen & Hrun & ->)|[(e & ? & ?)|[? ?]]];
    [|done..].
  destruct (plugin_enabled_quiet _ _ _ _ _ _ _ _ Hen) as [<- _].
  destruct enabled; simpl in Hrun.
  2:{ injection Hrun as <- _. rewrite Hnone in Hloaded. by destruct Hloaded. }
  apply bind_inv in Hrun as [(m & w2 & t3 & t4 & Hget & Hrun & ->)|[(e & ? & ?)|[? ?]]];
    [|done..].
  injection Hget as <- <- <-.
  rewrite Hnone in Hrun. rewrite bool_decide_eq_false_2 in Hrun by (by intros [? ?]).
  apply bind_inv in Hrun as [(u & w3 & t5 & t6 & Hret & Hrun & ->)|[(e & ? & ?)|[? ?]]];
    [|done..].
  injection Hret as <- <- <-.
  destruct (import_module env _) as [code|e].
  2:{ injection Hrun as <- _. rewrite Hnone in Hloaded. by destruct Hloaded. }
  apply bind_inv in Hrun as [(plugin & w4 & t7 & t8 & Hnew & Hrun & ->)|[(e & ? & ?)|[? ?]]];
    [|done..].
  destruct (new_plugin_fresh _ _ _ _ _ _ _ Hnew) as (ls & Hls & Hinfo & Hle & Hfresh & Hmgr).
  assert (Hname : PluginInfo.file_name (Plugin.info plugin) = basename path) by by rewrite Hinfo.
  apply (register_plugin_loaded _ _ _ _ ls) in Hrun; [|done|by rewrite Hname, Hmgr|by rewrite Hname].
  subst w1. rewrite Hname. rewrite Hname in Hloaded. simpl.
  exists plugin. eexists. split_and!.
  - unfold without_run_on_load. simpl. by rewrite Hls.
  - done.
  - done.
  - destruct Hfresh as (? & ? & ? & ? & ?). by split_and!.
  - rewrite Hmgr. destruct (manager w). done.
Qed.

#[local] Instance same_registry_refl : Reflexive same_registry.
Proof. intros w. by split_and!. Qed.

#[local] Instance same_registry_trans : Transitive same_registry.
Proof.
  intros w1 w2 w3 (? & ? & ? & ? & ? & ? & ? & ?) (? & ? & ? & ? & ? & ? & ? & ?).
  split_and!; [lia|congruence..].
Qed.

Lemma same_registry_ok w w' : same_registry w w' → registry_ok w → registry_ok w'.
Proof.
  intros (Hle & Hpl & Hc & Hr & Hca & He & Hrx & Hs) [Hwf Hids].
  unfold registry_ok, well_indexed, ids_below in *.
  rewrite Hc, Hr, Hca, He, Hrx, Hs.
  destruct Hids as (I1 & I2 & I3 & I4 & I5 & I6). split; [done|]. split_and!.
  - intros a h Hh. specialize (I1 a h Hh). simpl in *. lia.
  - intros k l Hl. eapply Forall_below_mono; [done|]. by apply (I2 k l).
  - by eapply Forall_below_mono.
  - intros k l Hl. eapply Forall_below_mono; [done|]. by apply (I4 k l).
  - eapply Forall_impl; [exact I5|]. intros e ?. simpl in *. lia.
  - by eapply Forall_below_mono.
Qed.

Lemma same_manager_registry w w' : manager w' = manager w → next_id w ≤ next_id w' →
  same_registry w w'.
Proof. intros Hm Hle. unfold same_registry. rewrite Hm. by split_and!. Qed.

Lemma launch_same_registry v env task hook event :
  satisfies same_registry (λ _, True) (launch v env task hook event).
Proof.
  intros w r w' tr. rewrite launch_run.
  set (stage := if skips_sieves v (Hook.type hook) then _ else _).
  destruct stage as [[event'|] str]; [|intros [= _ <- _]; split; [done|by apply Forall_true]].
  assert (Hq : ∀ qs, same_registry w (with_queues qs w)) by (intros qs; by split_and!).
  destruct ((wants_help hook event' w).1.1) as [[|]| |];
    try (intros [= _ <- _]; split; [done|by apply Forall_true]).
  cbv zeta. destruct (_execute_hook v env hook event' w) as [[r1 w1] tr1].
  destruct (Hook.single_thread hook).
  - destruct (_ !! _).
    + intros [= _ <- _]. split; [apply Hq|by apply Forall_true].
    + destruct r1; intros [= _ <- _]; (split; [first [done|apply Hq]|by apply Forall_true]).
  - intros [= _ <- _]. split; [done|by apply Forall_true].
Qed.

Lemma run_on_load_hooks_same_registry v env task hooks :
  satisfies same_registry (λ _, True) (run_on_load_hooks v env task hooks).
Proof.
  induction hooks as [|hook rest IH]; simpl; satisfy. apply launch_same_registry.
Qed.

Lemma new_hook_same_registry v t plugin fh :
  satisfies same_registry (λ _, True) (new_hook v t plugin fh).
Proof.
  unfold new_hook. satisfy. apply same_manager_registry; simpl; [done|lia].
Qed.

Lemma find_hooks_of_same_registry v parent func_hooks ls :
  satisfies same_registry (λ _, True) (find_hooks_of v parent func_hooks ls).
Proof.
  revert ls. induction func_hooks as [|[hook_type func_hook] rest IH]; intros ls; simpl; satisfy.
  apply new_hook_same_registry.
Qed.

Lemma find_hooks_from_same_registry v parent functions ls :
  satisfies same_registry (λ _, True) (find_hooks_from v parent functions ls).
Proof.
  revert ls. induction functions as [|func_hooks rest IH]; intros ls; simpl; satisfy.
  apply find_hooks_of_same_registry.
Qed.

Lemma new_plugin_same_registry v info code :
  satisfies same_registry (λ _, True) (new_plugin v info code).
Proof. unfold new_plugin, find_hooks. satisfy. apply find_hooks_from_same_registry. Qed.

Lemma eq_same_registry {A} (c : M A) Q :
  satisfies eq Q c → satisfies same_registry (λ _, True) c.
Proof. apply satisfies_weaken; [by intros w w' ->|done]. Qed.

Lemma ids_below_mono n0 n m : n0 ≤ n → ids_below n0 m → ids_below n m.
Proof.
  intros Hle (I1 & I2 & I3 & I4 & I5 & I6). unfold ids_below. split_and!.
  - intros a h Hh. specialize (I1 a h Hh). simpl in *. lia.
  - intros k l Hl. eapply Forall_below_mono; [done|]. by apply (I2 k l).
  - by eapply Forall_below_mono.
  - intros k l Hl. eapply Forall_below_mono; [done|]. by apply (I4 k l).
  - eapply Forall_impl; [exact I5|]. intros e ?. simpl in *. lia.
  - by eapply Forall_below_mono.
Qed.

Lemma register_plugin_ok v env task plugin ls n0 w r w' tr :
  register_plugin v env task plugin w = (r, w', tr) →
  Plugin.hooks plugin = Some ls →
  n0 ≤ next_id w → well_indexed (manager w) → ids_below n0 (manager w) →
  lists_fresh n0 (next_id w) ls →
  registry_ok w'.
Proof.
  intros Hrun Hls Hle Hwf Hids Hfresh.
  assert (Hok : registry_ok w) by (split; [done|by eapply ids_below_mono]).
  unfold register_plugin in Hrun. rewrite Hls in Hrun.
  assert (Hcreate : satisfies eq quiet
            (match v with
             | cloudbot => create_tables env (Plugin.info plugin) (Plugin.tables ls)
             | obrbot => ret tt
             end)) by (destruct v; [apply create_tables_quiet|satisfy]).
  apply bind_inv in Hrun as [(u & w0 & t1 & t2 & Hc & Hrun & ->)|[(e & Hc & _)|[Hc _]]].
  2,3: by destruct (Hcreate _ _ _ _ Hc) as [<- _].
  destruct (Hcreate _ _ _ _ Hc) as [<- _]. clear Hc Hcreate.
  apply bind_inv in Hrun as [(loaded & w2 & t3 & t4 & Hload & Hrun & ->)|[(e & Hload & _)|[Hload _]]].
  2,3: destruct (run_on_load_hooks_same_registry _ _ _ _ _ _ _ _ Hload) as [Hsame _];
       by apply (same_registry_ok w).
  apply run_on_load_hooks_done in Hload as ->.
  destruct loaded.
  - destruct (runs_as_seq _ _ _ _
                (runs_as_modify
                   (set_plugins <[PluginInfo.file_name (Plugin.info plugin) := plugin]>))
                (runs_as_seq _ _ _ _
                   (register_hooks_runs env (Plugin.info plugin) ls)
                   (runs_as_modify
                      (set_plugins <[PluginInfo.file_name (Plugin.info plugin) :=
                                       without_run_on_load plugin]>))) w) as (tr' & Heq).
    rewrite Heq in Hrun. injection Hrun as _ <- _.
    destruct (registered_ok n0 (next_id w) ls (manager w) Hle Hwf Hids Hfresh)
      as (Hwf' & Hids' & _).
    split; [exact Hwf'|exact Hids'].
  - assert (w' = w) as ->; [|done].
    destruct v.
    + unfold bind in Hrun. simpl in Hrun. rewrite unregister_tables_done in Hrun.
      by injection Hrun as _ <- _.
    + by injection Hrun as _ <- _.
Qed.

(** Loading a file that is not loaded keeps the registry well indexed (and
    its hooks older than the identity counter), whatever the outcome of the
    load. *)
Theorem load_keeps_registry_ok v env task path w r w' tr :
  load_plugin v env task path w = (r, w', tr) →
  registry_ok w →
  plugins (manager w) !! basename path = None →
  registry_ok w'.
Proof.
  intros Hrun Hok Hnone. unfold load_plugin in Hrun.
  apply bind_inv in Hrun as [(enabled & w0 & t1 & t2 & Hen & Hrun & ->)|[(e & Hen & _)|[Hen _]]].
  2,3: by destruct (plugin_enabled_quiet _ _ _ _ _ _ _ _ Hen) as [<- _].
  destruct (plugin_enabled_quiet _ _ _ _ _ _ _ _ Hen) as [<- _].
  destruct enabled; simpl in Hrun; [|by injection Hrun as _ <- _].
  apply bind_inv in Hrun as [(m & w2 & t3 & t4 & Hget & Hrun & ->)|[(e & ? & ?)|[? ?]]];
    [|done..].
  injection Hget as <- <- <-.
  rewrite Hnone in Hrun. rewrite bool_decide_eq_false_2 in Hrun by (by intros [? ?]).
  apply bind_inv in Hrun as [(u & w3 & t5 & t6 & Hret & Hrun & ->)|[(e & ? & ?)|[? ?]]];
    [|done..].
  injection Hret as <- <- <-.
  destruct (import_module env _) as [code|e]; [|by injection Hrun as _ <- _].
  apply bind_inv in Hrun
    as [(plugin & w4 & t7 & t8 & Hnew & Hrun & ->)|[(e & Hnew & _)|[Hnew _]]].
  2,3: destruct (new_plugin_same_registry _ _ _ _ _ _ _ Hnew) as [Hsame _];
       by apply (same_registry_ok w).
  destruct (new_plugin_fresh _ _ _ _ _ _ _ Hnew) as (ls & Hls & Hinfo & Hle & Hfresh & Hmgr).
  destruct Hok as [Hwf Hids].
  apply (register_plugin_ok _ _ _ _ ls (next_id w)) in Hrun; [done..| | |done];
    by rewrite Hmgr.
Qed.

Lemma load_keeps_witness : registry_ok (full_loaded cloudbot).
Proof.
  set (w := before_full cloudbot).
  set (run := load_plugin cloudbot full_env 0 "plugins/full.py" w).
  assert (Hrun : run = (run.1.1, run.1.2, run.2)) by by destruct run as [[? ?] ?].
  apply (load_keeps_registry_ok cloudbot full_env 0 "plugins/full.py" w _ _ _ Hrun).
  - unfold registry_ok, well_indexed, ids_below. split_and!; compute_done.
  - vm_compute. reflexivity.
Defined.

(** Unloading a file right after loading it gives the registry back: the
    unload returns [True] and leaves the manager that was there before the
    load. *)
Theorem load_then_unload_restores_registry v env task path w w1 tr1 :
  registry_ok w →
  plugins (manager w) !! basename path = None →
  is_disabled env (splitext_root (basename path)) = false →
  load_plugin v env task path w = (Done tt, w1, tr1) →
  is_Some (plugins (manager w1) !! basename path) →
  ∃ w2 tr2, _unload v env path w1 = (Done true, w2, tr2) ∧ manager w2 = manager w.
Proof.
  intros [Hwf Hids] Hnone Hdis Hload Hloaded.
  destruct (load_run _ _ _ _ _ _ _ Hload Hnone Hloaded)
    as (plugin & ls & Hls & Hname & Hle & Hfresh & Hmgr).
  destruct (registered_ok _ _ _ _ Hle Hwf Hids Hfresh) as (Hwf1 & _ & Hreg1).
  destruct (unload_ok v env path w1 (without_run_on_load plugin) ls) as (tr2 & Hun).
  - done.
  - by rewrite Hmgr; simpl; rewrite lookup_insert_eq.
  - done.
  - by rewrite Hmgr.
  - by rewrite Hmgr.
  - eexists _, tr2. split; [exact Hun|]. simpl. rewrite Hmgr, Hname.
    by apply (unloaded_registered (next_id w) (next_id w1)).
Qed.

Lemma load_then_unload_witness :
  ∃ w2 tr2,
    _unload obrbot full_env "plugins/full.py" (full_loaded obrbot) = (Done true, w2, tr2) ∧
    manager w2 = manager (before_full obrbot).
Proof.
  set (w := before_full obrbot).
  set (run := load_plugin obrbot full_env 0 "plugins/full.py" w).
  assert (Hrun : run = (Done tt, full_loaded obrbot, run.2)) by (vm_compute; reflexivity).
  apply (load_then_unload_restores_registry obrbot full_env 0 "plugins/full.py" w
           (full_loaded obrbot) run.2).
  - unfold registry_ok, well_indexed, ids_below. split_and!; compute_done.
  - vm_compute. reflexivity.
  - vm_compute. reflexivity.
  - exact Hrun.
  - vm_compute. by eexists.
Defined.



(** A successful load of a file that was not loaded only adds to the
    registry: every alias keeps its hook, every list of an index keeps its
    registrations in place and order and is at most extended at the end, and
    no other plugin's entry changes. *)
Theorem successful_load_extends_registry v env task path w w1 tr :
  load_plugin v env task path w = (Done tt, w1, tr) →
  well_indexed (manager w) →
  plugins (manager w) !! basename path = None →
  is_Some (plugins (manager w1) !! basename path) →
  (∀ alias h, commands (manager w) !! alias = Some h →
              commands (manager w1) !! alias = Some h) ∧
  (∀ trigger l, raw_triggers (manager w) !! trigger = Some l →
                ∃ l', raw_triggers (manager w1) !! trigger = Some (l ++ l')) ∧
  catch_all_triggers (manager w) `prefix_of` catch_all_triggers (manager w1) ∧
  (∀ event_type l, event_type_hooks (manager w) !! event_type = Some l →
                   ∃ l', event_type_hooks (manager w1) !! event_type = Some (l ++ l')) ∧
  regex_hooks (manager w) `prefix_of` regex_hooks (manager w1) ∧
  sieves (manager w) `prefix_of` sieves (manager w1) ∧
  (∀ name, name ≠ basename path →
           plugins (manager w1) !! name = plugins (manager w) !! name).
Proof.
  intros Hload (_ & Hraw & _ & Hev & _) Hnone Hloaded.
  destruct (load_run _ _ _ _ _ _ _ Hload Hnone Hloaded)
    as (plugin & ls & _ & _ & _ & _ & ->).
  unfold registered, set_plugins.
  cbn [plugins commands raw_triggers catch_all_triggers event_type_hooks regex_hooks sieves
       _hook_waiting_queues].
  split_and!.
  - intros alias h. apply register_commands_keeps.
  - intros k l Hl. eexists. rewrite add_hooks_lookup.
    + rewrite Hl. simpl. apply non_empty_Some. destruct (Hraw k l Hl) as [Hne _].
      by destruct l.
    + intros k0 l0 Hl0. by destruct (Hraw k0 l0 Hl0).
  - by eexists.
  - intros k l Hl. eexists. rewrite add_hooks_lookup.
    + rewrite Hl. simpl. apply non_empty_Some. destruct (Hev k l Hl) as [Hne _].
      by destruct l.
    + intros k0 l0 Hl0. by destruct (Hev k0 l0 Hl0).
  - by eexists.
  - by eexists.
  - intros name Hne. by rewrite lookup_insert_ne.
Qed.

Lemma successful_load_witness :
  let w := before_full cloudbot in
  let w1 := full_loaded cloudbot in
  (∀ alias h, commands (manager w) !! alias = Some h →
              commands (manager w1) !! alias = Some h) ∧
  (∀ trigger l, raw_triggers (manager w) !! trigger = Some l →
                ∃ l', raw_triggers (manager w1) !! trigger = Some (l ++ l')) ∧
  catch_all_triggers (manager w) `prefix_of` catch_all_triggers (manager w1) ∧
  (∀ event_type l, event_type_hooks (manager w) !! event_type = Some l →
                   ∃ l', event_type_hooks (manager w1) !! event_type = Some (l ++ l')) ∧
  regex_hooks (manager w) `prefix_of` regex_hooks (manager w1) ∧
  sieves (manager w) `prefix_of` sieves (manager w1) ∧
  (∀ name, name ≠ basename "plugins/full.py" →
           plugins (manager w1) !! name = plugins (manager w) !! name).
Proof.
  intros w w1.
  set (run := load_plugin cloudbot full_env 0 "plugins/full.py" w).
  assert (Hrun : run = (Done tt, w1, run.2)) by (vm_compute; reflexivity).
  apply (successful_load_extends_registry cloudbot full_env 0 "plugins/full.py" w w1 run.2 Hrun).
  - unfold well_indexed. split_and!; compute_done.
  - vm_compute. reflexivity.
  - vm_compute. by eexists.
Defined.

(** ** File names and internal plugins *)

Lemma rfind_from_spec c s i last :
  (rfind_from c s i last = last ∧ ∀ j, String.get j s ≠ Some c) ∨
  ((i ≤ rfind_from c s i last < i + Z.of_nat (String.length s))%Z ∧
   ∀ j, String.get (Z.to_nat (rfind_from c s i last - i) + 1 + j) s ≠ Some c).
Proof.
  revert i last. induction s as [|a s IH]; intros i last; cbn [rfind_from].
  - left. by split.
  - destruct (IH (i + 1)%Z (if bool_decide (a = c) then i else last))
      as [[Hr Hno]|[Hr Hno]].
    + rewrite Hr. case_bool_decide as Hac.
      * right. split; [cbn [String.length]; lia|]. intros j.
        replace (Z.to_nat (i - i)) with 0 by lia. simpl. apply Hno.
      * left. split; [done|]. intros [|j]; simpl; [congruence|apply Hno].
    + right. split; [cbn [String.length]; lia|]. intros j.
      replace (Z.to_nat (rfind_from c s (i + 1) (if bool_decide (a = c) then i else last) - i))
        with (S (Z.to_nat (rfind_from c s (i + 1)
                             (if bool_decide (a = c) then i else last) - (i + 1)))) by lia.
      simpl. apply Hno.
Qed.

Lemma get_drop_string n s j : String.get j (drop_string n s) = String.get (n + j) s.
Proof.
  revert s. induction n as [|n IH]; intros s; [by destruct s|].
  destruct s as [|a s]; simpl; [by destruct j|]. apply IH.
Qed.

(** [os.path.basename] returns a name without a slash. *)
Lemma basename_no_slash p j : String.get j (basename p) ≠ Some slash.
Proof.
  unfold basename, rfind. rewrite get_drop_string.
  destruct (rfind_from_spec slash p 0 (-1)) as [[-> Hno]|[Hr Hno]]; [apply Hno|].
  replace (Z.to_nat (rfind_from slash p 0 (-1) + 1))
    with (Z.to_nat (rfind_from slash p 0 (-1) - 0) + 1) by lia.
  apply Hno.
Qed.

Lemma basename_not_internal p file : basename p ≠ "internal/" +:+ file.
Proof.
  intros Heq. apply (basename_no_slash p 8). by rewrite Heq.
Qed.

#[local] Instance keeps_internal_refl : Reflexive keeps_internal.
Proof. by intros w ?. Qed.

#[local] Instance keeps_internal_trans : Transitive keeps_internal.
Proof.
  intros w1 w2 w3 H12 H23 Hk. destruct (H12 Hk) as [Hk2 H2]. destruct (H23 Hk2) as [Hk3 H3].
  split; [done|]. intros file. by rewrite H3, H2.
Qed.

Lemma same_plugins_keeps w w' :
  plugins (manager w') = plugins (manager w) → keeps_internal w w'.
Proof. intros Heq Hk. unfold keyed_by_file_name. by rewrite Heq. Qed.

Lemma same_registry_keeps {A} (c : M A) :
  satisfies same_registry (λ _, True) c → satisfies keeps_internal (λ _, True) c.
Proof.
  apply satisfies_weaken; [|done]. intros w w' (_ & Hpl & _). by apply same_plugins_keeps.
Qed.

Lemma eq_keeps {A} (c : M A) Q :
  satisfies eq Q c → satisfies keeps_internal (λ _, True) c.
Proof. apply satisfies_weaken; [by intros w w' ->|done]. Qed.

Lemma delete_keeps name w :
  (∀ file, name ≠ "internal/" +:+ file) →
  keeps_internal w (update_manager (set_plugins (delete name)) w).
Proof.
  intros Hname Hk. unfold keyed_by_file_name, update_manager, set_plugins. cbn [manager plugins]. split.
  - intros n p [_ Hp]%lookup_delete_Some. by apply (Hk n p).
  - intros file. apply lookup_delete_ne, Hname.
Qed.

Lemma insert_keeps name plugin w :
  PluginInfo.file_name (Plugin.info plugin) = name →
  (∀ file, name ≠ "internal/" +:+ file) →
  keeps_internal w (update_manager (set_plugins <[name := plugin]>) w).
Proof.
  intros Hp Hname Hk. unfold keyed_by_file_name, update_manager, set_plugins. cbn [manager plugins]. split.
  - by apply map_Forall_insert_2.
  - intros file. apply lookup_insert_ne, Hname.
Qed.

(** The steps of [_unload] after the plugin has been looked up. *)
Lemma unload_keeps v env path w r w' tr :
  _unload v env path w = (r, w', tr) → keeps_internal w w'.
Proof.
  intros Hrun Hk. revert Hk. change (keeps_internal w w').
  unfold _unload in Hrun.
  destruct (is_disabled env _); [by injection Hrun as _ <- _|].
  unfold bind at 1 in Hrun. simpl in Hrun. rewrite let_triple in Hrun.
  destruct (plugins (manager w) !! basename path) as [plugin|] eqn:Hplugin;
    [|by injection Hrun as _ <- _].
  destruct (Plugin.hooks plugin) as [ls|]; [|by injection Hrun as _ <- _].
  intros Hk.
  assert (Hname : PluginInfo.file_name (Plugin.info plugin) = basename path)
    by apply (Hk _ _ Hplugin).
  revert Hk. change (keeps_internal w w').
  revert Hrun. rewrite Hname.
  match goal with |- ?c w = _ → _ => assert (satisfies keeps_internal (λ _, True) c) as Hc end.
  { unfold unregister_alias, unregister_raw, unregister_event, unregister_regex,
      unregister_sieve.
    satisfy; try (by apply same_plugins_keeps);
      try (apply eq_keeps with (Q := quiet), unregister_tables_quiet).
    apply delete_keeps. intros file. apply basename_not_internal. }
  intros Hrun. by destruct (Hc _ _ _ _ Hrun).
Qed.

Lemma register_plugin_keeps v env task plugin path :
  PluginInfo.file_name (Plugin.info plugin) = basename path →
  satisfies keeps_internal (λ _, True) (register_plugin v env task plugin).
Proof.
  intros Hname. unfold register_plugin, register_hooks, register_command, register_alias,
    register_raw, register_event, register_regex, register_sieve, _log_hook.
  rewrite Hname.
  satisfy; try (by apply same_plugins_keeps);
    try (apply eq_keeps with (Q := quiet); first [apply create_tables_quiet
                                                 |apply unregister_tables_quiet]);
    try (apply same_registry_keeps, run_on_load_hooks_same_registry);
    try (apply insert_keeps; [done|intros file; apply basename_not_internal]).
  all: apply insert_keeps; [|intros file; apply basename_not_internal].
  all: unfold without_run_on_load; simpl; done.
Qed.

(** Loading and unloading plugin files never removes or replaces the plugin
    of an internal hook, and keeps every plugin filed under its own name. *)
Theorem internal_plugins_survive_load_and_unload v env task path w w' tr :
  keyed_by_file_name (manager w) →
  (∃ r, load_plugin v env task path w = (r, w', tr)) ∨
  (∃ r, _unload v env path w = (r, w', tr)) →
  keyed_by_file_name (manager w') ∧
  ∀ file, plugins (manager w') !! ("internal/" +:+ file)
          = plugins (manager w) !! ("internal/" +:+ file).
Proof.
  intros Hk [[r Hrun]|[r Hrun]]; [|by apply (unload_keeps _ _ _ _ _ _ _ Hrun)].
  revert Hk. change (keeps_internal w w').
  unfold load_plugin in Hrun.
  apply bind_inv in Hrun as [(enabled & w0 & t1 & t2 & Hen & Hrun & ->)|[(e & Hen & _)|[Hen _]]].
  2,3: by destruct (plugin_enabled_quiet _ _ _ _ _ _ _ _ Hen) as [<- _].
  destruct (plugin_enabled_quiet _ _ _ _ _ _ _ _ Hen) as [<- _].
  destruct enabled; simpl in Hrun; [|by injection Hrun as _ <- _].
  apply bind_inv in Hrun as [(m & w2 & t3 & t4 & Hget & Hrun & ->)|[(e & ? & ?)|[? ?]]];
    [|done..].
  injection Hget as <- <- <-.
  apply bind_inv in Hrun as [(u & w3 & t5 & t6 & Hun & Hrun & ->)|[(e & Hun & _)|[Hun _]]].
  2,3: case_bool_decide; [|done];
       apply bind_inv in Hun as [(? & ? & ? & ? & ? & ? & ?)|[(? & Hun & _)|[Hun _]]];
       [done|by apply (unload_keeps _ _ _ _ _ _ _ Hun)..].
  assert (Hw3 : keeps_internal w w3).
  { case_bool_decide; [|by injection Hun as _ <- _].
    apply bind_inv in Hun as [(b & w5 & ? & ? & Hun & Hret & ?)|[(? & ? & ?)|[? ?]]];
      [|done..].
    injection Hret as _ <- _. by apply (unload_keeps _ _ _ _ _ _ _ Hun). }
  etrans; [exact Hw3|].
  destruct (import_module env _) as [code|e]; [|by injection Hrun as _ <- _].
  apply bind_inv in Hrun
    as [(plugin & w4 & t7 & t8 & Hnew & Hrun & ->)|[(e & Hnew & _)|[Hnew _]]].
  2,3: by destruct (same_registry_keeps _ (new_plugin_same_registry _ _ _) _ _ _ _ Hnew).
  destruct (same_registry_keeps _ (new_plugin_same_registry _ _ _) _ _ _ _ Hnew) as [Hw4 _].
  etrans; [exact Hw4|].
  destruct (new_plugin_shape _ _ _ _ _ _ _ Hnew) as (Hinfo & _).
  apply (register_plugin_keeps v env task plugin path) in Hrun; [by destruct Hrun|].
  by rewrite Hinfo.
Qed.

Lemma internal_plugins_witness :
  let w := internal_world in
  let w' := (load_plugin cloudbot full_env 0 "plugins/greet.py" w).1.2 in
  keyed_by_file_name (manager w') ∧
  ∀ file, plugins (manager w') !! ("internal/" +:+ file)
          = plugins (manager w) !! ("internal/" +:+ file).
Proof.
  intros w w'. subst w'.
  set (run := load_plugin cloudbot full_env 0 "plugins/greet.py" w).
  assert (Hrun : run = (run.1.1, run.1.2, run.2)) by by destruct run as [[? ?] ?].
  apply (internal_plugins_survive_load_and_unload cloudbot full_env 0 "plugins/greet.py" w
           run.1.2 run.2).
  - unfold keyed_by_file_name. compute_done.
  - left. by exists run.1.1.
Defined.

(** ** Internal hooks that are accepted *)

Lemma registry_ok_plugins f w :
  registry_ok w → registry_ok (update_manager (set_plugins f) w).
Proof. intros [? ?]. by split. Qed.

Lemma with_internal_plugin_ok env file w :
  registry_ok w → registry_ok (update_manager (with_internal_plugin env file) w).
Proof.
  intros Hok. unfold with_internal_plugin, update_manager.
  destruct (plugins (manager w) !! _); [by destruct w|]. by apply (registry_ok_plugins _ w).
Qed.

(** The registration step of [add_hook], kind by kind. *)
Lemma add_hook_registration v env info t hook :
  runs_as
    (match t with
     | HookType.command =>
         match v with
         | cloudbot => register_command true info hook
         | obrbot => ret tt
         end
     | HookType.irc_raw => register_raw hook
     | HookType.event => register_event hook
     | HookType.regex => register_regex hook
     | HookType.sieve => register_sieve hook
     | _ => ret tt
     end ;; _log_hook env hook)
    (match v, t with
     | obrbot, HookType.command => λ m, m
     | _, _ => registered (append_hook t hook no_hooks)
     end).
Proof.
  assert (Hid : ∀ m, registered no_hooks m = m).
  { intros []. unfold registered, regex_entries. simpl. by rewrite !app_nil_r. }
  assert (Hret : ∀ f, (∀ m, f m = m) → runs_as (ret tt ;; _log_hook env hook) f).
  { intros f Hf. eapply runs_as_ext; [|apply runs_as_seq; [|apply runs_as_log]].
    - intros m. simpl. symmetry. apply Hf.
    - intros w. exists []. by rewrite update_manager_id. }
  destruct t.
  - destruct v; [|by apply Hret].
    eapply runs_as_ext; [|apply runs_as_seq; [apply runs_as_register_command|apply runs_as_log]].
    intros []. unfold registered, regex_entries, set_commands. simpl. by rewrite !app_nil_r.
  - eapply runs_as_ext; [|apply runs_as_seq; [apply runs_as_register_regex|apply runs_as_log]].
    intros m.
    assert (Hreg : registered (append_hook HookType.regex hook no_hooks) m
                   = foldl (λ m h, foldl (λ m r, set_regex_hooks (λ l, l ++ [(r, h)]) m) m
                                     (elements (Hook.regexes h))) m [hook]).
    { rewrite register_regexes_in. destruct m. unfold registered, set_regex_hooks. simpl.
      by rewrite !app_nil_r. }
    destruct v; (etrans; [|symmetry; exact Hreg]); reflexivity.
  - eapply runs_as_ext; [|apply runs_as_seq; [apply runs_as_register_event|apply runs_as_log]].
    intros m.
    assert (Hreg : registered (append_hook HookType.event hook no_hooks) m
                   = foldl (λ m h, foldl (λ m t, set_event_type_hooks (append_at t h) m) m
                                     (elements (Hook.types h))) m [hook]).
    { rewrite register_events_in. destruct m.
      unfold registered, regex_entries, set_event_type_hooks. simpl. by rewrite !app_nil_r. }
    destruct v; (etrans; [|symmetry; exact Hreg]); reflexivity.
  - eapply runs_as_ext; [|apply runs_as_seq; [apply runs_as_register_raw|apply runs_as_log]].
    intros m.
    assert (Hreg : registered (append_hook HookType.irc_raw hook no_hooks) m
                   = foldl (λ m h, register_raw_in h m) m [hook]).
    { rewrite register_raws_in. destruct m.
      unfold registered, regex_entries, set_catch_all_triggers, set_raw_triggers.
      simpl. by rewrite !app_nil_r. }
    destruct v; (etrans; [|symmetry; exact Hreg]); reflexivity.
  - eapply runs_as_ext; [|apply runs_as_seq; [apply runs_as_modify|apply runs_as_log]].
    intros []. unfold registered, regex_entries, set_sieves. simpl.
    destruct v; by rewrite !app_nil_r.
  - eapply runs_as_ext; [|apply Hret; intros m; reflexivity].
    intros m. destruct v; symmetry; apply Hid.
  - eapply runs_as_ext; [|apply Hret; intros m; reflexivity].
    intros m. destruct v; symmetry; apply Hid.
  - eapply runs_as_ext; [|apply Hret; intros m; reflexivity].
    intros m. destruct v; symmetry; apply Hid.
Qed.

Lemma new_hook_type v t info fh w h w' tr :
  new_hook v t info fh w = (Done h, w', tr) → Hook.type h = t ∧ Hook.plugin h = info.
Proof.
  unfold new_hook.
  intros [(aliases & w1 & t1 & t2 & Hal & Hrun & ->)|[(e & ? & ?)|[? ?]]]%bind_inv; [|done..].
  unfold bind in Hrun. simpl in Hrun.
  destruct (leftover_kwargs _ _ _); simpl in Hrun; by injection Hrun as <- _ _.
Qed.

Lemma with_internal_plugin_lookup env file m :
  is_Some (plugins (with_internal_plugin env file m) !! ("internal/" +:+ basename file)).
Proof.
  unfold with_internal_plugin.
  destruct (plugins m !! ("internal/" +:+ basename file)) eqn:Hp; [by rewrite Hp|].
  simpl. by rewrite lookup_insert_eq.
Qed.

Lemma no_hooks_fresh n : lists_fresh n n no_hooks.
Proof. unfold lists_fresh, no_hooks. simpl. split_and!; apply list_fresh_nil. Qed.

(** [add_hook] keeps the registry well indexed whatever its outcome, and
    leaves the plugin of the file in [plugins]; when it returns, the new hook
    is registered like a plugin's hook of its kind, after the registrations
    that were there. *)
Theorem add_hook_keeps_registry_ok v env t file fh w r w' tr :
  add_hook v env t file fh w = (r, w', tr) →
  registry_ok w →
  registry_ok w' ∧
  is_Some (plugins (manager w') !! ("internal/" +:+ basename file)) ∧
  (r = Done tt →
   ∃ hook, Hook.id hook = next_id w ∧ Hook.type hook = t ∧
           manager w' = registered (append_hook t hook no_hooks)
                          (with_internal_plugin env file (manager w))).
Proof.
  intros Hrun Hok. unfold add_hook in Hrun.
  apply bind_inv in Hrun as [(m & w0 & t0 & t0' & Hget & Hrun & ->)|[(e & ? & ?)|[? ?]]];
    [|done..].
  injection Hget as <- <- <-.
  apply bind_inv in Hrun as [(plugin & wp & t1 & t1' & Hp & Hrun & ->)|[(e & Hp & _)|[Hp _]]].
  2,3: destruct (plugins (manager w) !! _); [done|];
       unfold bind in Hp; simpl in Hp; done.
  assert (wp = update_manager (with_internal_plugin env file) w) as ->.
  { unfold with_internal_plugin, update_manager.
    destruct (plugins (manager w) !! _).
    - injection Hp as _ <- _. by destruct w.
    - unfold bind in Hp. simpl in Hp. by injection Hp as _ <- _. }
  clear Hp.
  assert (Hokp := with_internal_plugin_ok env file w Hok).
  assert (Hsome := with_internal_plugin_lookup env file (manager w)).
  apply bind_inv in Hrun as [(u & w1 & t2 & t2' & Href & Hrun & ->)|[(e & Href & ->)|[Href ->]]].
  2,3: assert (w' = update_manager (with_internal_plugin env file) w) as ->
         by (destruct v; repeat case_bool_decide; by injection Href as _ <- _);
       by split_and!.
  assert (w1 = update_manager (with_internal_plugin env file) w) as ->
    by (destruct v; repeat case_bool_decide; by injection Href as _ <- _).
  apply bind_inv in Hrun as [(u' & w2 & t3 & t3' & Hval & Hrun & ->)|[(e & Hval & ->)|[Hval ->]]].
  2,3: assert (w' = update_manager (with_internal_plugin env file) w) as ->
         by (destruct (valid_type v t); by injection Hval as _ <- _);
       by split_and!.
  assert (w2 = update_manager (with_internal_plugin env file) w) as ->
    by (destruct (valid_type v t); by injection Hval as _ <- _).
  apply bind_inv in Hrun as [(hook & w3 & t4 & t4' & Hnew & Hrun & ->)|[(e & Hnew & ->)|[Hnew ->]]].
  2,3: destruct (new_hook_same_registry _ _ _ _ _ _ _ _ Hnew) as [Hsame _];
       split_and!; [by apply (same_registry_ok _ _ Hsame)
                   |destruct Hsame as (_ & -> & _); exact Hsome|done].
  destruct (new_hook_same_registry _ _ _ _ _ _ _ _ Hnew) as [Hsame _].
  destruct (new_hook_fresh _ _ _ _ _ _ _ _ Hnew) as [Hid Hnext].
  destruct (new_hook_type _ _ _ _ _ _ _ _ Hnew) as [Htype _].
  destruct (new_hook_quiet _ _ _ _ _ _ _ _ Hnew) as [Hmgr _]. unfold same_manager in Hmgr.
  destruct (add_hook_registration v env (Plugin.info plugin) t hook w3) as (tr' & Heq).
  rewrite Heq in Hrun. injection Hrun as <- <- <-.
  simpl in Hid, Hnext. destruct Hokp as [Hwfp Hidsp].
  assert (Hle : next_id w ≤ next_id w3) by lia.
  assert (Hfresh : lists_fresh (next_id w) (next_id w3) (append_hook t hook no_hooks)).
  { rewrite Hnext. apply append_hook_fresh; [done|done|apply no_hooks_fresh]. }
  rewrite <- Hmgr in Hwfp, Hidsp.
  destruct (registered_ok _ _ _ _ Hle Hwfp Hidsp Hfresh) as (Hwf' & Hids' & _).
  assert (Hcase : (match v, t with
                   | obrbot, HookType.command => λ m, m
                   | _, _ => registered (append_hook t hook no_hooks)
                   end) = registered (append_hook t hook no_hooks)).
  { by destruct v, t. }
  rewrite Hcase. clear Hcase.
  split_and!.
  - split; [exact Hwf'|exact Hids'].
  - simpl. by rewrite Hmgr.
  - intros _. exists hook. split_and!; [done|done|]. simpl. by rewrite Hmgr.
Qed.

Lemma add_hook_keeps_witness :
  registry_ok internal_world ∧
  is_Some (plugins (manager internal_world) !! ("internal/" +:+ basename "/bot/cloudbot/core.py")) ∧
  ((add_hook cloudbot full_env HookType.sieve "/bot/cloudbot/core.py" setup_func_hook
      fresh_world).1.1 = Done tt →
   ∃ hook, Hook.id hook = next_id fresh_world ∧ Hook.type hook = HookType.sieve ∧
           manager internal_world
           = registered (append_hook HookType.sieve hook no_hooks)
               (with_internal_plugin full_env "/bot/cloudbot/core.py" (manager fresh_world))).
Proof.
  set (run := add_hook cloudbot full_env HookType.sieve "/bot/cloudbot/core.py" setup_func_hook
                fresh_world).
  assert (Hrun : run = (run.1.1, internal_world, run.2)) by (vm_compute; reflexivity).
  apply (add_hook_keeps_registry_ok cloudbot full_env HookType.sieve "/bot/cloudbot/core.py"
           setup_func_hook fresh_world _ _ _ Hrun).
  unfold registry_ok, well_indexed, ids_below. split_and!; compute_done.
Defined.

(** ** [disabled_plugins] *)

Lemma same_run_bind {A B} (c c' : M A) (k k' : A → M B) :
  same_run c c' → (∀ a, same_run (k a) (k' a)) → same_run (bind c k) (bind c' k').
Proof.
  intros Hc Hk w. unfold bind. rewrite Hc. destruct (c' w) as [[[a| |] w1] t1]; [|done..].
  by rewrite Hk.
Qed.

Lemma run_sieves_disabled v env d sieves event hook :
  same_run (run_sieves v (with_disabled d env) sieves event hook)
           (run_sieves v env sieves event hook).
Proof.
  revert event. induction sieves as [|sieve rest IH]; intros event; [done|].
  cbn [run_sieves]. apply same_run_bind; [done|]. intros [event'|]; [apply IH|done].
Qed.

Lemma launch_disabled v env d task hook event :
  same_run (launch v (with_disabled d env) task hook event) (launch v env task hook event).
Proof.
  unfold launch. apply same_run_bind; [done|]. intros m.
  apply same_run_bind; [|by intros [event'|]].
  destruct (skips_sieves v (Hook.type hook)); [done|]. apply run_sieves_disabled.
Qed.

Lemma run_on_load_hooks_disabled v env d task hooks :
  same_run (run_on_load_hooks v (with_disabled d env) task hooks)
           (run_on_load_hooks v env task hooks).
Proof.
  induction hooks as [|hook rest IH]; [done|].
  cbn [run_on_load_hooks]. apply same_run_bind; [apply launch_disabled|].
  intros [|]; [apply IH|done].
Qed.

Lemma register_plugin_disabled v env d task plugin :
  same_run (register_plugin v (with_disabled d env) task plugin)
           (register_plugin v env task plugin).
Proof.
  unfold register_plugin. destruct (Plugin.hooks plugin) as [ls|]; [|done].
  apply same_run_bind; [by destruct v|]. intros _.
  apply same_run_bind; [apply run_on_load_hooks_disabled|]. by intros [|].
Qed.

Lemma bind_ext_at {A B} (c c' : M A) (k k' : A → M B) w :
  c w = c' w →
  (∀ a w1 t1, c' w = (Done a, w1, t1) → k a w1 = k' a w1) →
  bind c k w = bind c' k' w.
Proof.
  intros Hc Hk. unfold bind. rewrite Hc. destruct (c' w) as [[[a| |] w1] t1]; [|done..].
  by rewrite (Hk a w1 t1).
Qed.

(** [load_plugin] does not read [disabled_plugins]: a file on the list that is
    not loaded is loaded exactly as if there were no list; and once it is
    loaded, [_unload] refuses to unload it, treating it as not loaded. *)
Theorem disabled_plugins_do_not_prevent_loading v env disabled task path w :
  plugins (manager w) !! basename path = None →
  splitext_root (basename path) ∈ disabled →
  load_plugin v (with_disabled (Some disabled) env) task path w
  = load_plugin v (with_disabled None env) task path w ∧
  ∀ w', _unload v (with_disabled (Some disabled) env) path w' = (Done false, w', []).
Proof.
  intros Hnone Hin. split.
  - unfold load_plugin.
    apply bind_ext_at; [done|]. intros enabled w1 t1 Hen.
    destruct (plugin_enabled_quiet _ _ _ _ _ _ _ _ Hen) as [<- _].
    destruct enabled; [|done]. cbn [negb].
    apply bind_ext_at; [done|]. intros m w2 t2 [= <- <- <-].
    apply bind_ext_at.
    { rewrite Hnone. by rewrite bool_decide_eq_false_2 by (by intros [? ?]). }
    intros u w3 t3 _.
    change (import_module (with_disabled (Some disabled) env)) with (import_module env).
    change (import_module (with_disabled None env)) with (import_module env).
    destruct (import_module env _) as [code|e]; [|done].
    apply bind_ext_at; [done|]. intros plugin w4 t4 _.
    by rewrite !register_plugin_disabled.
  - intros w'. unfold _unload, is_disabled. simpl.
    by rewrite bool_decide_eq_true_2.
Qed.

Lemma disabled_plugins_witness :
  load_plugin cloudbot (with_disabled (Some ["greet"]) full_env) 0 "plugins/greet.py"
    fresh_world
  = load_plugin cloudbot (with_disabled None full_env) 0 "plugins/greet.py" fresh_world ∧
  ∀ w', _unload cloudbot (with_disabled (Some ["greet"]) full_env) "plugins/greet.py" w'
        = (Done false, w', []).
Proof.
  apply (disabled_plugins_do_not_prevent_loading cloudbot full_env ["greet"] 0
           "plugins/greet.py" fresh_world).
  - vm_compute. reflexivity.
  - vm_compute. repeat constructor.
Defined.
